(** * Repost detection: the URL stores and the trackers that drive them

    A shallow embedding of the JavaScript sources

    - [urlStore.js]: class [UrlStore], an append-only array of sightings
      persisted as one JSON file;
    - the tracker that drives it ([init], [validateEnv], [handleMessage],
      [processUrl], [getPostAgeHours], [handleCommand]) and the class
      [UrlStorage], a [Map] from channel id to an array of entries with a
      duplicate check;
    - [urlTracker.js] and its older revision: [init], [handleUrlMessage],
      [addNewUrlEntry], [syncWithStorage], [fetchAllUrlsFromChannel].

    Conventions of the embedding.

    - A JavaScript string is its sequence of UTF-16 code units.
    - An instant is a number of milliseconds since the epoch, in [Z].  The
      ISO-8601 text that [toISOString] produces is kept as the instant it
      denotes.
    - [async] functions are run to completion one after the other: a
      computation is a function from the world to a result and a new
      world, and a rejected promise is a thrown exception that keeps the
      effects performed before it.
    - The clock, the file system and the chat platform are fields of the
      world.  Reading the clock does not move it; the calls that can be
      rejected take their fate from a script of the world.
    - Numbers that the code divides ([getPostAgeHours]) are exact
      rationals, so that an age is compared with a whole number of hours
      as the milliseconds are. *)

From Stdlib Require Import ZArith NArith QArith Qround List Bool Lia String Ascii.
From Stdlib Require Import Sorting.Permutation Sorting.Sorted.
Import ListNotations.
Open Scope Z_scope.

(** ** JavaScript strings *)

Module JsString.

Definition jsstring := list N.

(** [str "abc"] is the JavaScript string with the code units of an ASCII
    literal. *)
Definition str (s : string) : jsstring :=
  map N_of_ascii (list_ascii_of_string s).

(** [a === b] on strings. *)
Fixpoint eqb (a b : jsstring) : bool :=
  match a, b with
  | [], [] => true
  | x :: a', y :: b' => N.eqb x y && eqb a' b'
  | _, _ => false
  end.

(** White space and line terminators of ECMAScript, the code units that
    [String.prototype.trim] strips. *)
Definition is_whitespace (c : N) : bool :=
  let in_range lo hi := (N.leb lo c && N.leb c hi)%bool in
  (in_range 9 13 || N.eqb c 32 || N.eqb c 160 || N.eqb c 5760
   || in_range 8192 8202 || N.eqb c 8232 || N.eqb c 8233 || N.eqb c 8239
   || N.eqb c 8287 || N.eqb c 12288 || N.eqb c 65279)%N%bool.

Fixpoint trimStart (s : jsstring) : jsstring :=
  match s with
  | [] => []
  | c :: r => if is_whitespace c then trimStart r else s
  end.

Fixpoint trimEnd (s : jsstring) : jsstring :=
  match s with
  | [] => []
  | c :: r =>
      match trimEnd r with
      | [] => if is_whitespace c then [] else [c]
      | r' => c :: r'
      end
  end.

(** [s.trim()] *)
Definition trim (s : jsstring) : jsstring := trimEnd (trimStart s).

End JsString.

Import JsString.

(** ** Values *)

(** The values a record field of the stores can hold. *)
Inductive jsval :=
| Undefined
| Null
| Str (s : jsstring).

(** [a === b] *)
Definition jsval_eqb (a b : jsval) : bool :=
  match a, b with
  | Undefined, Undefined => true
  | Null, Null => true
  | Str x, Str y => JsString.eqb x y
  | _, _ => false
  end.

(** [Array.prototype.sort(cmp)]: a stable sort.  [cmp a b] is the number
    the comparator returns; an element is placed before the first later
    element it does not compare greater than. *)
Section Sort.
Context {A : Type} (cmp : A -> A -> Z).

Fixpoint sort_insert (x : A) (l : list A) : list A :=
  match l with
  | [] => [x]
  | y :: r => if cmp x y <=? 0 then x :: l else y :: sort_insert x r
  end.

Fixpoint js_sort (l : list A) : list A :=
  match l with
  | [] => []
  | x :: r => sort_insert x (js_sort r)
  end.

(** The element that a stable sort puts first: the first of the list
    that no later element beats. *)
Fixpoint first_least (l : list A) : option A :=
  match l with
  | [] => None
  | x :: r =>
      match first_least r with
      | None => Some x
      | Some y => if cmp x y <=? 0 then Some x else Some y
      end
  end.

End Sort.

(** ** JSON documents *)

(** The tree that [JSON.parse] builds from a file and that
    [JSON.stringify] writes.  [JIsoDate ms] is the string leaf that holds
    [new Date(ms).toISOString()]; [new Date] on it gives [ms] back.  A
    property whose value is [undefined] is not written, so it is absent
    from the object. *)
#[warnings="-register-all"]
Inductive json :=
| JNull
| JNum (z : Z)
| JStr (s : jsstring)
| JIsoDate (ms : Z)
| JArr (items : list json)
| JObj (props : list (jsstring * json)).

(** [obj[key]], [None] when the object has no such own property. *)
Fixpoint get_prop (props : list (jsstring * json)) (key : jsstring) : option json :=
  match props with
  | [] => None
  | (k, v) :: r => if JsString.eqb k key then Some v else get_prop r key
  end.

(** Sequence a list of optional results. *)
Fixpoint all_some {A : Type} (l : list (option A)) : option (list A) :=
  match l with
  | [] => Some []
  | None :: _ => None
  | Some x :: r =>
      match all_some r with
      | Some r' => Some (x :: r')
      | None => None
      end
  end.

(** ** Effects *)

Inductive exn :=
| ENOENT                (* fs error whose [code] is 'ENOENT' *)
| EIO                   (* any other rejected fs call *)
| SyntaxError           (* JSON.parse of malformed text *)
| TypeError             (* a value of another shape than the code assumes *)
| ReferenceError        (* an identifier that is not defined *)
| EnvError              (* the Error that validateEnv and init throw *)
| UnknownMessage        (* Discord answers: no such message *)
| UnknownChannel        (* Discord answers: no such channel *)
| NetworkError.         (* the request did not complete *)

Inductive Res (A : Type) :=
| Ret (a : A)
| Throw (e : exn).
Arguments Ret {A} a.
Arguments Throw {A} e.

Definition M (S A : Type) : Type := S -> Res A * S.

Definition ret {S A} (a : A) : M S A := fun s => (Ret a, s).
Definition throw {S A} (e : exn) : M S A := fun s => (Throw e, s).

Definition bind {S A B} (m : M S A) (k : A -> M S B) : M S B :=
  fun s =>
    match m s with
    | (Ret a, s') => k a s'
    | (Throw e, s') => (Throw e, s')
    end.

(** [try { m } catch (error) { h error }] *)
Definition try_catch {S A} (m : M S A) (h : exn -> M S A) : M S A :=
  fun s =>
    match m s with
    | (Ret a, s') => (Ret a, s')
    | (Throw e, s') => h e s'
    end.

Definition get_state {S} : M S S := fun s => (Ret s, s).
Definition modify {S} (f : S -> S) : M S unit := fun s => (Ret tt, f s).

Declare Scope eff_scope.
Delimit Scope eff_scope with eff.
Notation "x <- m ;; k" := (bind m (fun x => k))
  (at level 61, m at next level, right associativity) : eff_scope.
Notation "m ;; k" := (bind m (fun _ => k))
  (at level 61, right associativity) : eff_scope.
Open Scope eff_scope.

(** [for (const x of xs) await body(x)].  The loop gives what the rounds
    that completed returned, and the exception that ended it, if one
    did. *)
Fixpoint for_of {S A B} (xs : list A) (body : A -> M S B) (s : S)
  : (list B * option exn) * S :=
  match xs with
  | [] => (([], None), s)
  | x :: r =>
      match body x s with
      | (Ret b, s') =>
          let '((bs, e), s'') := for_of r body s' in ((b :: bs, e), s'')
      | (Throw e, s') => (([], Some e), s')
      end
  end.

(** ** The world around the stores *)

Inductive Level := INFO | ERROR | MODERATION | STARTUP.

(** One constructor per call of [logWithTimestamp] in the sources; the
    arguments are the values the message interpolates. *)
Inductive LogMsg :=
| StoreInitialized                       (* 'URL store initialized successfully' *)
| StoreCreated                           (* 'Created new URL store' *)
| StoreInitError (e : exn)               (* `Error initializing URL store: ...` *)
| ErrorHandlingMessage (e : exn)         (* `Error handling message: ...` *)
| ErrorProcessingUrl (e : exn)           (* `Error processing URL: ...` *)
| DeletedRepost (tag : jsstring)         (* `Deleted reposted URL from ...` *)
| StorageNotInitialized                  (* 'URL storage not initialized' *)
| StorageInitialized                     (* 'URL storage initialized' *)
| StorageInitError (e : exn)             (* `Error initializing URL storage: ...` *)
| HistoryFound (u c : jsstring)          (* `URL history found for: ... in channel ...` *)
| NoHistory (u : jsstring)               (* `No URL history found for: ...` *)
| AddedNewUrl (u : jsstring)             (* `Added new URL: ...` *)
| SkippedDuplicate (u : jsstring)        (* `Skipped duplicate URL: ...` *)
| SavedUrls (n : nat) (c : jsstring)     (* `Saved ... new URLs for channel ...` *)
| ErrorSavingUrls (e : exn)              (* `Error saving URLs: ...` *)
| AddedUrl (u : jsstring) (who : jsval)  (* `Added URL: ... by user ID ...` *)
| DeletedUrl (u : jsstring)              (* `Deleted URL: ...` *)
| CheckingUrl (u : jsstring)             (* `Checking URL: ...` *)
| FoundExisting (u : jsstring) (who : jsval)  (* `Found existing URL: ... from ...` *)
| OriginalGone (u : jsstring)            (* `Original message no longer exists, removing entry for URL: ...` *)
| SentDuplicateNotice (u : jsstring)     (* `Sent duplicate URL notification for: ...` *)
| SentOtherThreadNotice (u : jsstring)   (* `Sent same-author different-thread notification for: ...` *)
| SentSameThreadNotice (u : jsstring)    (* `Sent same-thread notification for: ...` *)
| DeletedStaleEntry (u : jsstring)       (* `Deleted old URL entry as original message no longer exists: ...` *)
| AddedNewEntry (u who : jsstring)       (* `Added new URL entry: ... from user ID ...` *)
| ErrorHandlingUrlMessage (e : exn)      (* `Error handling URL message: ...` *)
| SyncedUrls (n : nat) (c : jsstring)    (* `Synced ... URLs for channel ...` *)
| ErrorSyncing (c : jsstring) (e : exn)  (* `Error syncing channel ...: ...` *)
| FailedFetchChannel (e : exn)           (* `Failed to fetch channel: ...` *)
| ChannelNotFound (c : jsstring)         (* `Channel not found: ...` *)
| ErrorFetchingMessages (e : exn)        (* `Error fetching messages: ...` *)
| FetchedUnique (n : nat) (c : jsstring) (* `Fetched ... unique URLs from channel ...` *)
| CleanedUp (n : nat)                    (* `Cleaned up ... old URLs` *)
| ErrorCleanup (e : exn)                 (* `Error during URL cleanup: ...` *)
| TrackerInitialized                     (* 'URL Tracker initialized successfully' *)
| TrackerInitError (e : exn).            (* `Failed to initialize URL Tracker: ...` *)

Definition LogLine : Type := LogMsg * Level.

(** What a path of the file system holds; a path that holds nothing is
    absent from [files]. *)
Inductive FileState :=
| Garbage               (* text that JSON.parse rejects *)
| Json (j : json).      (* the text of a JSON document *)

(** [faults] scripts the file system: every call of [fs.readFile] or
    [fs.writeFile] takes the head, and rejects with an I/O error when it
    is [true].  An empty script means no call fails. *)
Record Disk := mkDisk {
  files : list (jsstring * FileState);
  faults : list bool
}.

Fixpoint file_at (fsys : list (jsstring * FileState)) (path : jsstring) : option FileState :=
  match fsys with
  | [] => None
  | (p, c) :: r => if JsString.eqb p path then Some c else file_at r path
  end.

Fixpoint put_file (fsys : list (jsstring * FileState)) (path : jsstring) (c : FileState)
  : list (jsstring * FileState) :=
  match fsys with
  | [] => [(path, c)]
  | (p, c') :: r =>
      if JsString.eqb p path then (p, c) :: r else (p, c') :: put_file r path c
  end.

(** A message of the chat platform, as far as the trackers read it. *)
Record Message := mkMessage {
  msg_id : jsstring;
  msg_content : jsstring;
  createdTimestamp : Z;
  author_id : jsstring;
  author_tag : jsstring;
  author_bot : bool;
  msg_channelId : jsstring;        (* message.channelId, message.channel.id *)
  channel_parentId : jsval;        (* message.channel.parentId *)
  channel_isThread : bool;         (* message.channel.isThread() *)
  guild_id : jsstring;
  deletable : bool
}.

(** The embeds the trackers build, by the values that go into them. *)
Inductive Embed :=
| RepostEmbed (isSameUser : bool) (hoursAgo : Z) (remaining : option Z)
| OthersContentEmbed (original : jsstring)
| OnlyOwnContentEmbed (u : jsstring)
| PostedBeforeEmbed (sameThread : bool) (u : jsstring).

(** What the existence check of a message can answer. *)
Inductive MessageFetch :=
| MessageFound
| MessageGone            (* rejected: Unknown Message *)
| MessageUnavailable.    (* rejected: the request did not complete *)

(** A channel as [fetchAllUrlsFromChannel] reads it: a forum with its
    threads, or a channel with its last messages.  [None] is a fetch of
    the threads or of the messages that rejects. *)
Record Thread := mkThread {
  thread_name : jsstring;
  thread_messages : option (list Message)
}.

Inductive Channel :=
| GuildForum (threads : option (list Thread))
| TextChannel (messages : option (list Message)).

Inductive ChannelFetch :=
| ChannelFound (ch : Channel)
| ChannelNull            (* resolved with a falsy value *)
| ChannelGone            (* rejected: Unknown Channel *)
| ChannelUnavailable.    (* rejected: the request did not complete *)

(** The chat platform: what was sent through it, and how it answers.
    [send_faults] scripts [message.reply] and [message.delete] the way
    [faults] scripts the file system. *)
Record Chat := mkChat {
  replies : list (jsstring * Embed);       (* message replied to, embed *)
  removed : list jsstring;                 (* messages deleted *)
  send_faults : list bool;
  channels_fetch : jsval -> ChannelFetch;          (* by channel id *)
  messages_fetch : jsval -> jsval -> MessageFetch  (* by channel id and message id *)
}.

(** [process.env]: the main channel id, and the number that [parseInt]
    reads from URL_REPOST_THRESHOLD_HOURS ([None] is NaN; the variable
    itself is [threshold_set] when it is a non-empty text).
    [createDuplicateEmbed_bound] tells whether the host binds the global
    function [createDuplicateEmbed], which urlTracker.js calls and
    neither defines nor imports. *)
Record Env := mkEnv {
  MAIN_CHANNEL_ID : option jsstring;
  threshold_set : bool;
  URL_REPOST_THRESHOLD_HOURS : option Z;
  createDuplicateEmbed_bound : bool
}.

Record World (St : Type) := mkWorld {
  store : St;
  disk : Disk;
  clock : Z;                 (* what new Date() and Date.now() read *)
  log : list LogLine;
  chat : Chat;
  env : Env
}.
Arguments mkWorld {St}.
Arguments store {St}.
Arguments disk {St}.
Arguments clock {St}.
Arguments log {St}.
Arguments chat {St}.
Arguments env {St}.

Section WorldOps.
Context {St : Type}.

Definition set_store (s : St) (w : World St) : World St :=
  mkWorld s (disk w) (clock w) (log w) (chat w) (env w).
Definition set_disk (d : Disk) (w : World St) : World St :=
  mkWorld (store w) d (clock w) (log w) (chat w) (env w).
Definition set_log (l : list LogLine) (w : World St) : World St :=
  mkWorld (store w) (disk w) (clock w) l (chat w) (env w).
Definition set_chat (c : Chat) (w : World St) : World St :=
  mkWorld (store w) (disk w) (clock w) (log w) c (env w).

(** [logWithTimestamp(msg, level)] *)
Definition logWithTimestamp (m : LogMsg) (l : Level) : M (World St) unit :=
  modify (fun w => set_log (log w ++ [(m, l)]) w).

Definition take_fault (script : list bool) : bool * list bool :=
  match script with
  | [] => (false, [])
  | b :: r => (b, r)
  end.

(** [fs.readFile(path, 'utf8')] *)
Definition fs_readFile (path : jsstring) : M (World St) FileState :=
  fun w =>
    let (fails, rest) := take_fault (faults (disk w)) in
    let w' := set_disk (mkDisk (files (disk w)) rest) w in
    if fails then (Throw EIO, w')
    else match file_at (files (disk w)) path with
         | None => (Throw ENOENT, w')
         | Some c => (Ret c, w')
         end.

(** [fs.writeFile(path, JSON.stringify(j, null, 2))] *)
Definition fs_writeFile (path : jsstring) (j : json) : M (World St) unit :=
  fun w =>
    let (fails, rest) := take_fault (faults (disk w)) in
    if fails then (Throw EIO, set_disk (mkDisk (files (disk w)) rest) w)
    else (Ret tt, set_disk (mkDisk (put_file (files (disk w)) path (Json j)) rest) w).

(** [JSON.parse(text)] *)
Definition JSON_parse (c : FileState) : M (World St) json :=
  match c with
  | Garbage => throw SyntaxError
  | Json j => ret j
  end.

(** [message.reply({ embeds: [embed] })] *)
Definition message_reply (m : Message) (e : Embed) : M (World St) unit :=
  fun w =>
    let c := chat w in
    let (fails, rest) := take_fault (send_faults c) in
    if fails
    then (Throw NetworkError,
          set_chat (mkChat (replies c) (removed c) rest (channels_fetch c) (messages_fetch c)) w)
    else (Ret tt,
          set_chat (mkChat (replies c ++ [(msg_id m, e)]) (removed c) rest
                           (channels_fetch c) (messages_fetch c)) w).

(** [message.delete()] *)
Definition message_delete (m : Message) : M (World St) unit :=
  fun w =>
    let c := chat w in
    let (fails, rest) := take_fault (send_faults c) in
    if fails
    then (Throw NetworkError,
          set_chat (mkChat (replies c) (removed c) rest (channels_fetch c) (messages_fetch c)) w)
    else (Ret tt,
          set_chat (mkChat (replies c) (removed c ++ [msg_id m]) rest
                           (channels_fetch c) (messages_fetch c)) w).

End WorldOps.

(** ** [UrlStore]: the array of sightings (urlStore.js) *)

Module UrlStore.

Record UrlEntry := mkEntry {
  url : jsstring;
  userId : jsstring;
  channelId : jsstring;
  threadId : option jsstring;      (* null when the post is not in a thread *)
  timestamp : Z                    (* the instant of the ISO text *)
}.

(** [this.data] *)
Record Data := mkData {
  urls : list UrlEntry
}.

Record t := mkStore {
  data : Data;
  initialized : bool
}.

(** [new UrlStore()] *)
Definition new : t := mkStore (mkData []) false.

(** [this.dataFile] *)
Definition dataFile : jsstring := str "url_data.json".

Definition W : Type := World t.

(** What [JSON.stringify(this.data)] writes. *)
Definition json_of_entry (e : UrlEntry) : json :=
  JObj [ (str "url", JStr (url e));
         (str "userId", JStr (userId e));
         (str "channelId", JStr (channelId e));
         (str "threadId", match threadId e with
                          | None => JNull
                          | Some s => JStr s
                          end);
         (str "timestamp", JIsoDate (timestamp e)) ].

Definition json_of_data (d : Data) : json :=
  JObj [ (str "urls", JArr (map json_of_entry (urls d))) ].

(** How the code reads a parsed document: by the properties it uses.
    [None] when the document has another shape than the store writes. *)
Definition entry_of_json (j : json) : option UrlEntry :=
  match j with
  | JObj props =>
      match get_prop props (str "url"), get_prop props (str "userId"),
            get_prop props (str "channelId"), get_prop props (str "threadId"),
            get_prop props (str "timestamp") with
      | Some (JStr u), Some (JStr who), Some (JStr c), Some JNull, Some (JIsoDate ts) =>
          Some (mkEntry u who c None ts)
      | Some (JStr u), Some (JStr who), Some (JStr c), Some (JStr th), Some (JIsoDate ts) =>
          Some (mkEntry u who c (Some th) ts)
      | _, _, _, _, _ => None
      end
  | _ => None
  end.

Definition data_of_json (j : json) : option Data :=
  match j with
  | JObj props =>
      match get_prop props (str "urls") with
      | Some (JArr items) =>
          match all_some (map entry_of_json items) with
          | Some es => Some (mkData es)
          | None => None
          end
      | _ => None
      end
  | _ => None
  end.

Definition set_data (d : Data) : M W unit :=
  modify (fun w => set_store (mkStore d (initialized (store w))) w).

Definition set_initialized (b : bool) : M W unit :=
  modify (fun w => set_store (mkStore (data (store w)) b) w).

(** [loadData]: a document of another shape than the store writes is
    outside the typed model; it is refused here, where the JavaScript
    would keep it and fail at the first [this.data.urls]. *)
Definition loadData : M W unit :=
  fileContent <- fs_readFile dataFile ;;
  j <- JSON_parse fileContent ;;
  match data_of_json j with
  | Some d => set_data d
  | None => throw TypeError
  end.

Definition saveData : M W unit :=
  w <- get_state ;;
  fs_writeFile dataFile (json_of_data (data (store w))).

Definition init : M W unit :=
  try_catch
    (loadData ;;
     set_initialized true ;;
     logWithTimestamp StoreInitialized INFO)
    (fun error =>
       match error with
       | ENOENT =>
           saveData ;;
           set_initialized true ;;
           logWithTimestamp StoreCreated INFO
       | _ =>
           logWithTimestamp (StoreInitError error) ERROR ;;
           throw error
       end).

(** [if (!this.initialized) await this.init();] *)
Definition ensure_init : M W unit :=
  w <- get_state ;;
  if initialized (store w) then ret tt else init.

Definition addUrl (url userId channelId : jsstring) (threadId : option jsstring)
  : M W UrlEntry :=
  ensure_init ;;
  w <- get_state ;;
  let urlEntry := mkEntry url userId channelId threadId (clock w) in
  set_data (mkData (urls (data (store w)) ++ [urlEntry])) ;;
  saveData ;;
  ret urlEntry.

(** [(a, b) => new Date(a.timestamp) - new Date(b.timestamp)] *)
Definition oldest_first (a b : UrlEntry) : Z := timestamp a - timestamp b.

(** [(a, b) => new Date(b.timestamp) - new Date(a.timestamp)] *)
Definition newest_first (a b : UrlEntry) : Z := timestamp b - timestamp a.

(** The sightings of [u], oldest first; [findUrlHistory] returns the
    element [0] of it, [None] standing for [undefined]. *)
Definition history (u : jsstring) (d : Data) : list UrlEntry :=
  js_sort oldest_first (filter (fun entry => JsString.eqb (url entry) u) (urls d)).

Definition findUrlHistory (u : jsstring) : M W (option UrlEntry) :=
  ensure_init ;;
  w <- get_state ;;
  ret (hd_error (history u (data (store w)))).

Definition fetchChannelUrls (c : jsstring) : M W (list UrlEntry) :=
  ensure_init ;;
  w <- get_state ;;
  ret (js_sort newest_first
         (filter (fun entry =>
                    JsString.eqb (channelId entry) c
                    || match threadId entry with
                       | Some th => JsString.eqb th c
                       | None => false
                       end)
                 (urls (data (store w))))).

End UrlStore.

(** ** The URL pattern

    The regular expression of the trackers, flag [g], and flag [i] in one
    of them: the text [http], an optional [s], the text [://], an
    optional group [www.], 1 to 256 characters of the host class, a dot,
    1 to 6 characters of the class of letters, digits and parentheses, a
    word boundary, and any number of characters of the path class.  The
    matcher follows the backtracking order of the pattern: every
    quantifier is greedy and gives characters back one at a time. *)

Module UrlRegex.

Definition in_range (lo hi c : N) : bool := (N.leb lo c && N.leb c hi)%bool.

Definition is_alnum (c : N) : bool :=
  (in_range 48 57 c || in_range 65 90 c || in_range 97 122 c)%bool.

Definition one_of (cs : string) (c : N) : bool :=
  existsb (N.eqb c) (str cs).

(** The host class: letters, digits and [-@:%._+~#=]. *)
Definition host_char (c : N) : bool := (is_alnum c || one_of "-@:%._+~#=" c)%bool.

(** Letters, digits and the two parentheses. *)
Definition tld_char (c : N) : bool := (is_alnum c || one_of "()" c)%bool.

(** The path class: letters, digits and [-()@:%_+.~#?&/=]. *)
Definition path_char (c : N) : bool := (is_alnum c || one_of "-()@:%_+.~#?&/=" c)%bool.

(** [\w] *)
Definition word_char (c : N) : bool := (is_alnum c || N.eqb c 95)%bool.

(** A literal character of the pattern against a character of the text;
    [ci] is the flag [i]. *)
Definition lit (ci : bool) (p c : N) : bool :=
  (N.eqb c p || (ci && in_range 65 90 c && N.eqb (c + 32) p))%bool.

(** The text after the literal [pat], when the text starts with it. *)
Fixpoint expect (ci : bool) (pat s : jsstring) : option jsstring :=
  match pat, s with
  | [], _ => Some s
  | p :: pat', c :: s' => if lit ci p c then expect ci pat' s' else None
  | _ :: _, [] => None
  end.

(** How many leading characters are in the class, at most [limit]. *)
Fixpoint run (cls : N -> bool) (limit : nat) (s : jsstring) : nat :=
  match limit, s with
  | S l, c :: r => if cls c then S (run cls l r) else O
  | _, _ => O
  end.

(** [\b] between the character [prev] and what follows it. *)
Definition boundary (prev : N) (next : option N) : bool :=
  xorb (word_char prev)
       (match next with
        | Some c => word_char c
        | None => false
        end).

(** The 1 to 6 characters after the dot, the word boundary and the path
    on [s], trying [m] characters of the first class, then fewer: the
    length matched. *)
Fixpoint tld_and_path (s : jsstring) (m : nat) : option nat :=
  match m with
  | O => None
  | S m' =>
      if boundary (nth m' s 0%N) (nth_error s m)
      then Some (m + run path_char (List.length s) (skipn m s))%nat
      else tld_and_path s m'
  end.

(** The host, the dot and the rest on [s], trying [n] characters of the
    host class, then fewer. *)
Fixpoint host_and_rest (s : jsstring) (n : nat) : option nat :=
  match n with
  | O => None
  | S n' =>
      match skipn n s with
      | 46%N :: rest =>
          match tld_and_path rest (run tld_char 6 rest) with
          | Some k => Some (n + 1 + k)%nat
          | None => host_and_rest s n'
          end
      | _ => host_and_rest s n'
      end
  end.

Definition after_www (s : jsstring) : option nat :=
  host_and_rest s (run host_char 256 s).

(** The optional group [www.] and the rest: with the group first, then
    without. *)
Definition after_scheme (ci : bool) (s : jsstring) : option nat :=
  match expect ci (str "www.") s with
  | Some s' =>
      match after_www s' with
      | Some k => Some (4 + k)%nat
      | None => after_www s
      end
  | None => after_www s
  end.

Definition after_s (ci : bool) (s : jsstring) : option nat :=
  match expect ci (str "://") s with
  | Some s' =>
      match after_scheme ci s' with
      | Some k => Some (3 + k)%nat
      | None => None
      end
  | None => None
  end.

(** The length of the match that starts at the head of [s]. *)
Definition exec (ci : bool) (s : jsstring) : option nat :=
  match expect ci (str "http") s with
  | Some s1 =>
      match expect ci (str "s") s1 with
      | Some s2 =>
          match after_s ci s2 with
          | Some k => Some (5 + k)%nat
          | None =>
              match after_s ci s1 with
              | Some k => Some (4 + k)%nat
              | None => None
              end
          end
      | None =>
          match after_s ci s1 with
          | Some k => Some (4 + k)%nat
          | None => None
          end
      end
  | None => None
  end.

(** All the matches, left to right, each search starting where the last
    match ended. *)
Fixpoint scan (ci : bool) (fuel : nat) (s : jsstring) : list jsstring :=
  match fuel, s with
  | S f, _ :: r =>
      match exec ci s with
      | Some len => firstn len s :: scan ci f (skipn len s)
      | None => scan ci f r
      end
  | _, _ => []
  end.

(** [text.match(urlRegex)]; the empty list stands for [null]. *)
Definition matches (ci : bool) (text : jsstring) : list jsstring :=
  scan ci (List.length text) text.

End UrlRegex.

(** ** The tracker over [UrlStore]: [validateEnv], [handleMessage],
    [processUrl] *)

Module RepostTracker.

Import UrlStore.

(** The branch that [processUrl] took for a URL.  The JavaScript function
    resolves to [undefined]; the embedding returns the branch so that a
    statement can name it. *)
Inductive Outcome :=
| NEW
| EXPIRED_REPOST
| BLOCKED (isSameUser : bool)
| FAILED (error : exn).

(** [!process.env[v]] for the two required variables, then the check of
    the threshold. *)
Definition validateEnv : M W unit :=
  w <- get_state ;;
  let missing_channel :=
    match MAIN_CHANNEL_ID (env w) with
    | None | Some [] => true
    | Some _ => false
    end in
  if (missing_channel || negb (threshold_set (env w)))%bool then throw EnvError
  else
    match URL_REPOST_THRESHOLD_HOURS (env w) with
    | None => throw EnvError
    | Some threshold => if threshold <=? 0 then throw EnvError else ret tt
    end.

(** [init]: the two [client.on] registrations have no effect on the
    world of the embedding. *)
Definition init : M W unit :=
  UrlStore.init ;;
  validateEnv.

(** [(now - postDate) / (1000 * 60 * 60)] *)
Definition getPostAgeHours (timestamp : Z) : M W Q :=
  w <- get_state ;;
  ret ((clock w - timestamp) # 3600000).

(** [postAge > thresholdHours]; a comparison with NaN is false. *)
Definition older_than (postAge : Q) (thresholdHours : option Z) : bool :=
  match thresholdHours with
  | Some h => negb (Qle_bool postAge (inject_Z h))
  | None => false
  end.

Definition createRepostEmbed (urlHistory : UrlEntry) (message : Message)
    (postAge : Q) (thresholdHours : option Z) (isSameUser : bool) : Embed :=
  RepostEmbed isSameUser (Qfloor postAge)
    (match thresholdHours with
     | Some h => Some (Qceiling (inject_Z h - postAge))
     | None => None
     end).

(** [message.channel.isThread() ? message.channel.id : null] *)
Definition thread_of (message : Message) : option jsstring :=
  if channel_isThread message then Some (msg_channelId message) else None.

Definition processUrl (u : jsstring) (message : Message) : M W Outcome :=
  try_catch
    (urlHistory <- findUrlHistory u ;;
     match urlHistory with
     | Some h =>
         postAge <- getPostAgeHours (timestamp h) ;;
         w <- get_state ;;
         let thresholdHours := URL_REPOST_THRESHOLD_HOURS (env w) in
         if older_than postAge thresholdHours then
           addUrl u (author_id message) (msg_channelId message) (thread_of message) ;;
           ret EXPIRED_REPOST
         else
           let isSameUser := JsString.eqb (userId h) (author_id message) in
           let embed := createRepostEmbed h message postAge thresholdHours isSameUser in
           message_reply message embed ;;
           (if deletable message
            then message_delete message ;;
                 logWithTimestamp (DeletedRepost (author_tag message)) MODERATION
            else ret tt) ;;
           ret (BLOCKED isSameUser)
     | None =>
         addUrl u (author_id message) (msg_channelId message) (thread_of message) ;;
         ret NEW
     end)
    (fun error =>
       logWithTimestamp (ErrorProcessingUrl error) ERROR ;;
       ret (FAILED error)).




(** *** The command [!fetch links <channel_id>] *)

(** [text.startsWith(prefix)] *)
Fixpoint starts_with (prefix text : jsstring) : bool :=
  match prefix, text with
  | [], _ => true
  | p :: prefix', c :: text' => (N.eqb p c && starts_with prefix' text')%bool
  | _ :: _, [] => false
  end.

(** [text.split(' ')] *)
Fixpoint split_spaces (text : jsstring) : list jsstring :=
  match text with
  | [] => [[]]
  | c :: r =>
      if N.eqb c 32 then [] :: split_spaces r
      else match split_spaces r with
           | [] => [[c]]
           | word :: words => (c :: word) :: words
           end
  end.

(** What [handleCommand] sends: the two texts, and the embed by the
    number in its description and footer and by its fields, a field
    being the instant that names it and its value. *)
Inductive CommandReply :=
| UsageText                  (* 'Usage: !fetch links <channel_id>' *)
| HistoryEmbed (found : nat) (fields : list (Z * jsstring))
| ErrorText.                 (* 'An error occurred while fetching URLs' *)

(** The world of [handleCommand]: the world of the tracker, what the
    command has sent, and the errors it has logged as
    `Error handling fetch command: ...`. *)
Record CommandWorld := mkCommandWorld {
  base : W;
  command_replies : list (jsstring * CommandReply);
  command_errors : list exn
}.

(** A computation of the tracker, run in the world of the command. *)
Definition on_base {A : Type} (m : M W A) : M CommandWorld A :=
  fun cw =>
    let (r, w') := m (base cw) in
    (r, mkCommandWorld w' (command_replies cw) (command_errors cw)).

(** [message.reply(...)] of a command; it takes its fate from the script
    of the chat as every other reply does. *)
Definition command_reply (message : Message) (r : CommandReply) : M CommandWorld unit :=
  fun cw =>
    let c := chat (base cw) in
    let (fails, rest) := take_fault (send_faults c) in
    let w' := set_chat (mkChat (replies c) (removed c) rest (channels_fetch c)
                               (messages_fetch c)) (base cw) in
    if fails
    then (Throw NetworkError, mkCommandWorld w' (command_replies cw) (command_errors cw))
    else (Ret tt,
          mkCommandWorld w' (command_replies cw ++ [(msg_id message, r)])
                         (command_errors cw)).

(** [`${url.url.substring(0, 100)}${url.url.length > 100 ? '...' : ''}`] *)
Definition shorten (u : jsstring) : jsstring :=
  firstn 100 u ++ (if Nat.ltb 100 (List.length u) then str "..." else []).

Definition history_field (entry : UrlEntry) : Z * jsstring :=
  (timestamp entry, shorten (url entry)).

Definition handleCommand (message : Message) : M CommandWorld unit :=
  if negb (starts_with (str "!fetch links") (msg_content message)) then ret tt
  else
    try_catch
      (let args := split_spaces (msg_content message) in
       if negb (Nat.eqb (List.length args) 3) then command_reply message UsageText
       else
         let channelId := nth 2 args [] in
         urls <- on_base (fetchChannelUrls channelId) ;;
         command_reply message
           (HistoryEmbed (List.length urls) (map history_field (firstn 10 urls))))
      (fun error =>
         modify (fun cw => mkCommandWorld (base cw) (command_replies cw)
                                          (command_errors cw ++ [error])) ;;
         command_reply message ErrorText).

End RepostTracker.

(** ** [UrlStorage]: the map from channel to entries *)

Module UrlStorage.

(** An entry of the map.  The entries that [addUrl] builds hold the
    poster, the thread and the message; those that the channel scan
    builds hold [author] and [threadName].  A property the object does
    not have reads [Undefined]. *)
Record UrlEntry := mkEntry {
  url : jsstring;
  userId : jsval;
  author : jsval;
  threadName : jsval;
  channelId : jsval;
  threadId : jsval;
  messageId : jsval;
  messageUrl : jsval;
  timestamp : Z
}.

(** [this.urls] is a [Map]: its keys in insertion order, each once. *)
Definition UrlMap : Type := list (jsstring * list UrlEntry).

Record t := mkStorage {
  urls : UrlMap;
  storageFile : jsstring;
  isInitialized : bool
}.

(** [new UrlStorage()] *)
Definition new : t := mkStorage [] [] false.

Definition W : Type := World t.

(** [map.get(key)] *)
Fixpoint Map_get {V : Type} (m : list (jsstring * V)) (key : jsstring) : option V :=
  match m with
  | [] => None
  | (k, v) :: r => if JsString.eqb k key then Some v else Map_get r key
  end.

(** [map.set(key, value)]: a key of the map keeps its place. *)
Fixpoint Map_set {V : Type} (m : list (jsstring * V)) (key : jsstring) (value : V)
  : list (jsstring * V) :=
  match m with
  | [] => [(key, value)]
  | (k, v) :: r =>
      if JsString.eqb k key then (k, value) :: r else (k, v) :: Map_set r key value
  end.

(** A property key that is an array index: the canonical decimal text of
    an integer below 2^32 - 1. *)
Definition is_digit (c : N) : bool := (N.leb 48 c && N.leb c 57)%bool.

Definition array_index (key : jsstring) : option N :=
  match key with
  | [] => None
  | c :: r =>
      if (forallb is_digit key
          && (negb (N.eqb c 48) || match r with [] => true | _ => false end)
          && Nat.leb (List.length key) 10)%bool
      then
        let n := fold_left (fun acc d => (acc * 10 + (d - 48))%N) key 0%N in
        if (n <=? 4294967294)%N then Some n else None
      else None
  end.

(** Where a new property goes among the own properties of an object:
    array indices first, in ascending order, then the other keys in the
    order they were created. *)
Fixpoint place_index {V : Type} (props : list (jsstring * V)) (key : jsstring)
    (n : N) (value : V) : list (jsstring * V) :=
  match props with
  | [] => [(key, value)]
  | (k, v) :: r =>
      match array_index k with
      | Some n' =>
          if (n <? n')%N then (key, value) :: props
          else (k, v) :: place_index r key n value
      | None => (key, value) :: props
      end
  end.

Definition define_property {V : Type} (props : list (jsstring * V)) (key : jsstring)
    (value : V) : list (jsstring * V) :=
  match Map_get props key with
  | Some _ => Map_set props key value
  | None =>
      match array_index key with
      | Some n => place_index props key n value
      | None => props ++ [(key, value)]
      end
  end.

(** [Object.fromEntries(map)], as the list of own properties. *)
Definition Object_fromEntries {V : Type} (m : list (jsstring * V)) : list (jsstring * V) :=
  fold_left (fun props kv => define_property props (fst kv) (snd kv)) m [].

(** What [JSON.stringify] writes for an entry; the order of the
    properties inside an entry is not kept. *)
Definition json_of_field (name : string) (v : jsval) : list (jsstring * json) :=
  match v with
  | Undefined => []
  | Null => [(str name, JNull)]
  | Str s => [(str name, JStr s)]
  end.

Definition json_of_entry (e : UrlEntry) : json :=
  JObj ([(str "url", JStr (url e))]
        ++ json_of_field "userId" (userId e)
        ++ json_of_field "author" (author e)
        ++ json_of_field "threadName" (threadName e)
        ++ json_of_field "channelId" (channelId e)
        ++ json_of_field "threadId" (threadId e)
        ++ json_of_field "messageId" (messageId e)
        ++ json_of_field "messageUrl" (messageUrl e)
        ++ [(str "timestamp", JNum (timestamp e))]).

Definition json_of_urls (m : UrlMap) : json :=
  JObj (map (fun kv => (fst kv, JArr (map json_of_entry (snd kv)))) (Object_fromEntries m)).

(** How the code reads a parsed document, by the properties it uses. *)
Definition field_of_json (props : list (jsstring * json)) (name : string) : option jsval :=
  match get_prop props (str name) with
  | None => Some Undefined
  | Some JNull => Some Null
  | Some (JStr s) => Some (Str s)
  | Some _ => None
  end.

Definition entry_of_json (j : json) : option UrlEntry :=
  match j with
  | JObj props =>
      match get_prop props (str "url"), get_prop props (str "timestamp"),
            field_of_json props "userId", field_of_json props "author",
            field_of_json props "threadName", field_of_json props "channelId",
            field_of_json props "threadId", field_of_json props "messageId",
            field_of_json props "messageUrl" with
      | Some (JStr u), Some (JNum ts), Some who, Some a, Some tn, Some c, Some th,
        Some mid, Some murl =>
          Some (mkEntry u who a tn c th mid murl ts)
      | _, _, _, _, _, _, _, _, _ => None
      end
  | _ => None
  end.

(** [Object.entries(urlData)] with every value read as an array of
    entries. *)
Definition entries_of_json (j : json) : option (list (jsstring * list UrlEntry)) :=
  match j with
  | JObj props =>
      all_some (map (fun kv =>
                       match snd kv with
                       | JArr items =>
                           match all_some (map entry_of_json items) with
                           | Some es => Some (fst kv, es)
                           | None => None
                           end
                       | _ => None
                       end) props)
  | _ => None
  end.

Definition set_urls (m : UrlMap) : M W unit :=
  modify (fun w => set_store (mkStorage m (storageFile (store w)) (isInitialized (store w))) w).

Definition set_storageFile (f : jsstring) : M W unit :=
  modify (fun w => set_store (mkStorage (urls (store w)) f (isInitialized (store w))) w).

Definition set_isInitialized (b : bool) : M W unit :=
  modify (fun w => set_store (mkStorage (urls (store w)) (storageFile (store w)) b) w).

(** [init]: a file that cannot be read counts as the document [{}]; a
    document of another shape than the storage writes is refused. *)
Definition init : M W unit :=
  try_catch
    (w <- get_state ;;
     match MAIN_CHANNEL_ID (env w) with
     | None | Some [] => throw EnvError
     | Some mainChannelId =>
         let file := str "URL_DB_" ++ mainChannelId ++ str ".json" in
         set_storageFile file ;;
         data <- try_catch (fs_readFile file) (fun _ => ret (Json (JObj []))) ;;
         urlData <- JSON_parse data ;;
         match entries_of_json urlData with
         | None => throw TypeError
         | Some entries =>
             w' <- get_state ;;
             set_urls (fold_left (fun m kv => Map_set m (fst kv) (snd kv)) entries
                                 (urls (store w'))) ;;
             set_isInitialized true ;;
             logWithTimestamp StorageInitialized STARTUP
         end
     end)
    (fun error =>
       logWithTimestamp (StorageInitError error) ERROR ;;
       set_urls [] ;;
       set_isInitialized false).

(** [entry.url.trim() === url.trim()] *)
Definition same_url (u : jsstring) (entry : UrlEntry) : bool :=
  JsString.eqb (trim (url entry)) (trim u).

Definition isDuplicateUrl (m : UrlMap) (u : jsstring) : bool :=
  existsb (fun kv => existsb (same_url u) (snd kv)) m.

(** The first channel of the map that holds the URL, and the entry. *)
Fixpoint find_in_channels (m : UrlMap) (u : jsstring) : option (jsstring * UrlEntry) :=
  match m with
  | [] => None
  | (c, es) :: r =>
      match find (same_url u) es with
      | Some foundUrl => Some (c, foundUrl)
      | None => find_in_channels r u
      end
  end.

(** [{ ...foundUrl, channelId }] *)
Definition with_channel (e : UrlEntry) (c : jsstring) : UrlEntry :=
  mkEntry (url e) (userId e) (author e) (threadName e) (Str c) (threadId e)
          (messageId e) (messageUrl e) (timestamp e).

Definition findUrlHistory (u : jsstring) : M W (option UrlEntry) :=
  w <- get_state ;;
  if negb (isInitialized (store w)) then
    logWithTimestamp StorageNotInitialized ERROR ;;
    ret None
  else
    match find_in_channels (urls (store w)) u with
    | Some (c, foundUrl) =>
        logWithTimestamp (HistoryFound u c) INFO ;;
        ret (Some (with_channel foundUrl c))
    | None =>
        logWithTimestamp (NoHistory u) INFO ;;
        ret None
    end.

(** [{ ...newUrl, url: newUrl.url.trim(), ... }] *)
Definition trimmed (e : UrlEntry) : UrlEntry :=
  mkEntry (trim (url e)) (userId e) (author e) (threadName e) (channelId e)
          (threadId e) (messageId e) (messageUrl e) (timestamp e).

(** The loop of [saveUrls]: the duplicate check reads [this.urls], which
    the loop does not change. *)
Fixpoint save_loop (newUrls updatedUrls : list UrlEntry) (addedCount : nat)
  : M W (list UrlEntry * nat) :=
  match newUrls with
  | [] => ret (updatedUrls, addedCount)
  | newUrl :: r =>
      w <- get_state ;;
      if negb (isDuplicateUrl (urls (store w)) (url newUrl)) then
        logWithTimestamp (AddedNewUrl (url newUrl)) INFO ;;
        save_loop r (updatedUrls ++ [trimmed newUrl]) (S addedCount)
      else
        logWithTimestamp (SkippedDuplicate (url newUrl)) INFO ;;
        save_loop r updatedUrls addedCount
  end.

(** [(a, b) => b.timestamp - a.timestamp] *)
Definition newest_first (a b : UrlEntry) : Z := timestamp b - timestamp a.

(** The two statements that write the map to its file, in [saveUrls],
    [deleteUrl] and [cleanup]. *)
Definition write_urls : M W unit :=
  w <- get_state ;;
  fs_writeFile (storageFile (store w)) (json_of_urls (urls (store w))).

Definition saveUrls (c : jsstring) (newUrls : list UrlEntry) : M W nat :=
  w <- get_state ;;
  if negb (isInitialized (store w)) then
    logWithTimestamp StorageNotInitialized ERROR ;;
    ret O
  else
    try_catch
      (let existingUrls :=
         match Map_get (urls (store w)) c with
         | Some es => es
         | None => []
         end in
       r <- save_loop newUrls existingUrls O ;;
       let '(updatedUrls, addedCount) := r in
       (if Nat.ltb 0 addedCount then
          w' <- get_state ;;
          set_urls (Map_set (urls (store w')) c (js_sort newest_first updatedUrls)) ;;
          write_urls ;;
          logWithTimestamp (SavedUrls addedCount c) INFO
        else ret tt) ;;
       ret addedCount)
      (fun error =>
         logWithTimestamp (ErrorSavingUrls error) ERROR ;;
         ret O).

(** [addUrl]; [threadId] is [null] when the caller leaves it undefined.
    The result is the entry added, [None] for [null]. *)
Definition addUrl (u : jsstring) (userId : jsval) (c : jsstring)
    (threadId messageId messageUrl : jsval) : M W (option UrlEntry) :=
  w <- get_state ;;
  if negb (isInitialized (store w)) then
    logWithTimestamp StorageNotInitialized ERROR ;;
    ret None
  else
    let trimmedUrl := trim u in
    if isDuplicateUrl (urls (store w)) trimmedUrl then
      logWithTimestamp (SkippedDuplicate trimmedUrl) INFO ;;
      ret None
    else
      let urlEntry :=
        mkEntry trimmedUrl userId Undefined Undefined (Str c)
                (match threadId with Undefined => Null | v => v end)
                messageId messageUrl (clock w) in
      addedCount <- saveUrls c [urlEntry] ;;
      if Nat.ltb 0 addedCount then
        logWithTimestamp (AddedUrl trimmedUrl userId) INFO ;;
        ret (Some urlEntry)
      else ret None.

(** [urls.findIndex(...)] and [urls.splice(index, 1)] in one pass:
    the array without the first entry of the URL, when it has one. *)
Fixpoint remove_first (u : jsstring) (es : list UrlEntry) : option (list UrlEntry) :=
  match es with
  | [] => None
  | e :: r =>
      if same_url u e then Some r
      else match remove_first u r with
           | Some r' => Some (e :: r')
           | None => None
           end
  end.

(** The map after the [splice] in the first channel that holds the URL. *)
Fixpoint splice_first (m : UrlMap) (u : jsstring) : option UrlMap :=
  match m with
  | [] => None
  | (c, es) :: r =>
      match remove_first u es with
      | Some es' => Some ((c, es') :: r)
      | None =>
          match splice_first r u with
          | Some r' => Some ((c, es) :: r')
          | None => None
          end
      end
  end.

Definition deleteUrl (u : jsstring) : M W bool :=
  w <- get_state ;;
  if negb (isInitialized (store w)) then
    logWithTimestamp StorageNotInitialized ERROR ;;
    ret false
  else
    match splice_first (urls (store w)) u with
    | Some m' =>
        set_urls m' ;;
        write_urls ;;
        logWithTimestamp (DeletedUrl u) INFO ;;
        ret true
    | None => ret false
    end.

Definition getUrls (c : jsstring) : M W (list UrlEntry) :=
  w <- get_state ;;
  if negb (isInitialized (store w)) then
    logWithTimestamp StorageNotInitialized ERROR ;;
    ret []
  else
    ret (match Map_get (urls (store w)) c with
         | Some es => es
         | None => []
         end).

(** [30 * 24 * 60 * 60 * 1000] *)
Definition maxAge : Z := 30 * 24 * 60 * 60 * 1000.

(** The loop of [cleanup]: the map with the old entries filtered out of
    every channel, and how many went. *)
Fixpoint sweep (now : Z) (m : UrlMap) : UrlMap * nat :=
  match m with
  | [] => ([], O)
  | (c, es) :: r =>
      let filteredUrls := filter (fun e => now - timestamp e <? maxAge) es in
      let '(r', n) := sweep now r in
      ((c, filteredUrls) :: r', (List.length es - List.length filteredUrls + n)%nat)
  end.

Definition cleanup : M W unit :=
  w <- get_state ;;
  if negb (isInitialized (store w)) then
    logWithTimestamp StorageNotInitialized ERROR
  else
    let '(m', totalRemoved) := sweep (clock w) (urls (store w)) in
    set_urls m' ;;
    if Nat.ltb 0 totalRemoved then
      try_catch
        (write_urls ;;
         logWithTimestamp (CleanedUp totalRemoved) INFO)
        (fun error => logWithTimestamp (ErrorCleanup error) ERROR)
    else ret tt.

Definition getAllChannelIds : M W (list jsstring) :=
  w <- get_state ;;
  ret (map fst (urls (store w))).

(** All the entries of the map, channel after channel. *)
Definition all_entries (m : UrlMap) : list UrlEntry := flat_map snd m.

(** The key of an entry: its url, trimmed. *)
Definition canonical (e : UrlEntry) : jsstring := trim (url e).

(** No two entries of the map, in whatever channels, have the same
    trimmed url. *)
Definition one_per_url (m : UrlMap) : Prop := NoDup (map canonical (all_entries m)).

(** What [getStats] returns. *)
Record Stats := mkStats {
  totalUrls : nat;
  channelCount : nat;
  urlsPerChannel : list (jsstring * nat)
}.

(** [object[key] = n] for a number [n]: the key [__proto__] reaches the
    setter of the prototype, which ignores a number; every other key
    becomes an own property. *)
Definition assign_number (props : list (jsstring * nat)) (key : jsstring) (n : nat)
  : list (jsstring * nat) :=
  if JsString.eqb key (str "__proto__") then props else define_property props key n.

Definition getStats : M W Stats :=
  w <- get_state ;;
  ret (fold_left
         (fun stats kv =>
            mkStats (totalUrls stats + List.length (snd kv))
                    (channelCount stats)
                    (assign_number (urlsPerChannel stats) (fst kv) (List.length (snd kv))))
         (urls (store w))
         (mkStats 0 (List.length (urls (store w))) [])).

End UrlStorage.

(** ** The tracker over [UrlStorage] (urlTracker.js) *)

Module UrlTracker.

Import UrlStorage.

(** The branch that the loop of [handleUrlMessage] took for a URL. *)
Inductive Outcome :=
| NEW                                   (* "New URL - add entry" *)
| ORIGINAL_GONE                         (* "Original message is gone - add new entry" *)
| BLOCKED_OTHER_USER                    (* "Different author - not allowed" *)
| BLOCKED_SAME_USER_OTHER_LOCATION      (* "Different thread" *)
| BLOCKED_SAME_USER_SAME_LOCATION.      (* same author, same channel: nothing is sent *)

(** [this.client.channels.fetch(id)] *)
Definition client_channels_fetch (id : jsval) : M W (option Channel) :=
  w <- get_state ;;
  match channels_fetch (chat w) id with
  | ChannelFound ch => ret (Some ch)
  | ChannelNull => ret None
  | ChannelGone => throw UnknownChannel
  | ChannelUnavailable => throw NetworkError
  end.

(** [channel.messages.fetch(messageId)] *)
Definition channel_messages_fetch (channel messageId : jsval) : M W unit :=
  w <- get_state ;;
  match messages_fetch (chat w) channel messageId with
  | MessageFound => ret tt
  | MessageGone => throw UnknownMessage
  | MessageUnavailable => throw NetworkError
  end.

Definition addNewUrlEntry (message : Message) (u : jsstring) : M W unit :=
  let messageUrl :=
    str "https://discord.com/channels/" ++ guild_id message ++ str "/"
    ++ msg_channelId message ++ str "/" ++ msg_id message in
  UrlStorage.addUrl u (Str (author_id message)) (msg_channelId message)
    (if channel_isThread message then Str (msg_channelId message) else Null)
    (Str (msg_id message)) (Str messageUrl) ;;
  logWithTimestamp (AddedNewEntry u (author_id message)) INFO.

(** [existingUrl.messageUrl || 'Not available'] *)
Definition original_link (v : jsval) : jsstring :=
  match v with
  | Str (c :: s) => c :: s
  | _ => str "Not available"
  end.

(** One round of the loop of [handleUrlMessage]. *)
Definition check_url (message : Message) (u : jsstring) : M W Outcome :=
  logWithTimestamp (CheckingUrl u) INFO ;;
  existingUrl <- findUrlHistory u ;;
  match existingUrl with
  | Some existing =>
      logWithTimestamp (FoundExisting u (userId existing)) INFO ;;
      originalChannel <- client_channels_fetch (channelId existing) ;;
      originalMessageExists <-
        match originalChannel with
        | Some _ =>
            try_catch
              (channel_messages_fetch (channelId existing) (messageId existing) ;;
               ret true)
              (fun _ =>
                 logWithTimestamp (OriginalGone u) INFO ;;
                 deleteUrl u ;;
                 ret false)
        | None => ret false
        end ;;
      if originalMessageExists : bool then
        if negb (jsval_eqb (userId existing) (Str (author_id message))) then
          message_reply message (OthersContentEmbed (original_link (messageUrl existing))) ;;
          logWithTimestamp (SentDuplicateNotice u) INFO ;;
          ret BLOCKED_OTHER_USER
        else if negb (jsval_eqb (channelId existing) (Str (msg_channelId message))) then
          w <- get_state ;;
          if createDuplicateEmbed_bound (env w) then
            message_reply message (PostedBeforeEmbed false u) ;;
            logWithTimestamp (SentOtherThreadNotice u) INFO ;;
            ret BLOCKED_SAME_USER_OTHER_LOCATION
          else throw ReferenceError
        else ret BLOCKED_SAME_USER_SAME_LOCATION
      else
        addNewUrlEntry message u ;;
        ret ORIGINAL_GONE
  | None =>
      addNewUrlEntry message u ;;
      ret NEW
  end.

(** [handleUrlMessage]: one [try] around the whole loop.  The result is
    the list of the branches taken by the rounds that completed. *)
Definition handleUrlMessage (message : Message) (urls : list jsstring)
  : M W (list Outcome) :=
  fun w =>
    match for_of urls (check_url message) w with
    | ((outs, None), w') => (Ret outs, w')
    | ((outs, Some error), w') =>
        (Ret outs, set_log (log w' ++ [(ErrorHandlingUrlMessage error, ERROR)]) w')
    end.

(** What the channel scan records for a URL it finds in a message. *)
Definition found_url (u : jsstring) (message : Message) (thread : jsval) : UrlEntry :=
  mkEntry u Undefined (Str (author_tag message)) thread Undefined Undefined
          Undefined Undefined (createdTimestamp message).

(** [messages.forEach(message => ...)] *)
Definition urls_of_messages (messages : list Message) (thread : jsval) : list UrlEntry :=
  flat_map (fun message =>
              map (fun u => found_url u message thread)
                  (UrlRegex.matches false (msg_content message)))
           messages.

(** [self.findIndex(p)]; [None] stands for -1. *)
Fixpoint findIndex {A : Type} (p : A -> bool) (self : list A) : option nat :=
  match self with
  | [] => None
  | x :: r =>
      if p x then Some O
      else match findIndex p r with
           | Some i => Some (S i)
           | None => None
           end
  end.

(** [l.filter((x, index) => keep(x, index))], [index] counted from
    [from]. *)
Fixpoint filter_indexed {A : Type} (keep : A -> nat -> bool) (from : nat) (l : list A)
  : list A :=
  match l with
  | [] => []
  | x :: r =>
      if keep x from then x :: filter_indexed keep (S from) r
      else filter_indexed keep (S from) r
  end.

(** [urls.filter((url, index, self) =>
       index === self.findIndex((t) => t.url === url.url))] *)
Definition unique_urls (urls : list UrlEntry) : list UrlEntry :=
  filter_indexed
    (fun u index =>
       match findIndex (fun t => JsString.eqb (url t) (url u)) urls with
       | Some i => Nat.eqb index i
       | None => false
       end)
    O urls.

(** The loop over the threads of a forum; [None] when a fetch rejects. *)
Fixpoint urls_of_threads (threads : list Thread) : option (list UrlEntry) :=
  match threads with
  | [] => Some []
  | th :: r =>
      match thread_messages th with
      | None => None
      | Some messages =>
          match urls_of_threads r with
          | Some rest => Some (urls_of_messages messages (Str (thread_name th)) ++ rest)
          | None => None
          end
      end
  end.

Definition fetchAllUrlsFromChannel (c : jsstring) : M W (list UrlEntry) :=
  channel <- try_catch (client_channels_fetch (Str c))
               (fun error =>
                  logWithTimestamp (FailedFetchChannel error) ERROR ;;
                  ret None) ;;
  match channel with
  | None =>
      logWithTimestamp (ChannelNotFound c) ERROR ;;
      ret []
  | Some ch =>
      let collected :=
        match ch with
        | GuildForum (Some threads) => urls_of_threads threads
        | GuildForum None => None
        | TextChannel (Some messages) => Some (urls_of_messages messages Undefined)
        | TextChannel None => None
        end in
      match collected with
      | None =>
          logWithTimestamp (ErrorFetchingMessages NetworkError) ERROR ;;
          ret []
      | Some urls =>
          let urls := unique_urls urls in
          logWithTimestamp (FetchedUnique (List.length urls) c) INFO ;;
          ret urls
      end
  end.

Definition is_blocked (o : Outcome) : bool :=
  match o with
  | BLOCKED_OTHER_USER | BLOCKED_SAME_USER_OTHER_LOCATION
  | BLOCKED_SAME_USER_SAME_LOCATION => true
  | NEW | ORIGINAL_GONE => false
  end.

(** [init] of the tracker *)
Definition init : M W unit :=
  try_catch
    (UrlStorage.init ;;
     logWithTimestamp TrackerInitialized INFO)
    (fun error =>
       logWithTimestamp (TrackerInitError error) ERROR ;;
       throw error).

End UrlTracker.

(** ** The older tracker over [UrlStorage]: [syncWithStorage] and a
    [handleUrlMessage] that compares authors *)

Module SyncTracker.

Import UrlStorage.

(** The branch that the loop of [handleUrlMessage] took for a URL. *)
Inductive Outcome :=
| UNKNOWN_URL                           (* no entry: nothing is done *)
| BLOCKED_OTHER_USER
| BLOCKED_SAME_USER_OTHER_LOCATION
| BLOCKED_SAME_USER_SAME_LOCATION
| STALE_DELETED.                        (* "Original message is gone - delete the entry" *)

Definition syncWithStorage (c : jsstring) : M W unit :=
  try_catch
    (urls <- UrlTracker.fetchAllUrlsFromChannel c ;;
     if Nat.ltb 0 (List.length urls) then
       saveUrls c urls ;;
       logWithTimestamp (SyncedUrls (List.length urls) c) INFO
     else ret tt)
    (fun error => logWithTimestamp (ErrorSyncing c error) ERROR).

Definition init : M W unit :=
  try_catch
    (UrlStorage.init ;;
     channelIds <- getAllChannelIds ;;
     (fun w =>
        match for_of channelIds syncWithStorage w with
        | ((_, None), w') => (Ret tt, w')
        | ((_, Some error), w') => (Throw error, w')
        end) ;;
     logWithTimestamp TrackerInitialized INFO)
    (fun error =>
       logWithTimestamp (TrackerInitError error) ERROR ;;
       throw error).

(** One round of the loop of [handleUrlMessage]. *)
Definition check_url (message : Message) (u : jsstring) : M W Outcome :=
  logWithTimestamp (CheckingUrl u) INFO ;;
  existingUrl <- findUrlHistory u ;;
  match existingUrl with
  | Some existing =>
      logWithTimestamp (FoundExisting u (author existing)) INFO ;;
      if negb (jsval_eqb (author existing) (Str (author_tag message))) then
        message_reply message (OnlyOwnContentEmbed u) ;;
        logWithTimestamp (SentDuplicateNotice u) INFO ;;
        ret BLOCKED_OTHER_USER
      else if negb (jsval_eqb (channelId existing) (Str (msg_channelId message))) then
        message_reply message (PostedBeforeEmbed false u) ;;
        logWithTimestamp (SentOtherThreadNotice u) INFO ;;
        ret BLOCKED_SAME_USER_OTHER_LOCATION
      else
        originalMessage <-
          try_catch
            (UrlTracker.channel_messages_fetch (Str (msg_channelId message))
               (messageId existing) ;;
             ret true)
            (fun _ => ret false) ;;
        if originalMessage : bool then
          message_reply message (PostedBeforeEmbed true u) ;;
          logWithTimestamp (SentSameThreadNotice u) INFO ;;
          ret BLOCKED_SAME_USER_SAME_LOCATION
        else
          deleteUrl u ;;
          logWithTimestamp (DeletedStaleEntry u) INFO ;;
          ret STALE_DELETED
  | None => ret UNKNOWN_URL
  end.

Definition handleUrlMessage (message : Message) (urls : list jsstring)
  : M W (list Outcome) :=
  fun w =>
    match for_of urls (check_url message) w with
    | ((outs, None), w') => (Ret outs, w')
    | ((outs, Some error), w') =>
        (Ret outs, set_log (log w' ++ [(ErrorHandlingUrlMessage error, ERROR)]) w')
    end.

Definition is_blocked (o : Outcome) : bool :=
  match o with
  | BLOCKED_OTHER_USER | BLOCKED_SAME_USER_OTHER_LOCATION
  | BLOCKED_SAME_USER_SAME_LOCATION => true
  | UNKNOWN_URL | STALE_DELETED => false
  end.

End SyncTracker.

(** ** What is asked of a message and of a channel scan

    The two notions below follow the words of the specification; the
    properties compare the code with them. *)



(** * Scenarios

    The states of a storage, and the concrete worlds and messages at
    which the statements below are instantiated. *)

(** A store with three sightings, two of them of the same URL. *)
Definition sample_entries : list UrlStore.UrlEntry :=
  [ UrlStore.mkEntry (str "https://a.io") (str "bob") (str "c1") None 7000;
    UrlStore.mkEntry (str "https://b.io") (str "eve") (str "c1") None 1000;
    UrlStore.mkEntry (str "https://a.io") (str "amy") (str "c2") (Some (str "c2")) 3000 ].

Definition quiet_chat : Chat :=
  mkChat [] [] [] (fun _ => ChannelNull) (fun _ _ => MessageFound).

Definition sample_env : Env := mkEnv (Some (str "c1")) true (Some 24) false.

Definition sample_world : UrlStore.W :=
  mkWorld (UrlStore.mkStore (UrlStore.mkData sample_entries) true)
          (mkDisk [] []) 9000 [] quiet_chat sample_env.

(** A storage with two channels; one entry is a poster's message, one
    comes from a channel scan. *)
Definition sample_map : UrlStorage.UrlMap :=
  [ (str "c1",
     [ UrlStorage.mkEntry (str "https://a.io") (Str (str "bob")) Undefined Undefined
         (Str (str "c1")) Null (Str (str "m1"))
         (Str (str "https://discord.com/channels/g/c1/m1")) 5000 ]);
    (str "c2",
     [ UrlStorage.mkEntry (str "https://b.io") Undefined (Str (str "eve#1")) (Str (str "news"))
         Undefined Undefined Undefined Undefined 2000 ]) ].

Definition sample_storage_world : UrlStorage.W :=
  mkWorld (UrlStorage.mkStorage sample_map (str "URL_DB_c1.json") true)
          (mkDisk [] []) 9000 [] quiet_chat sample_env.

Definition unloaded_storage_world : UrlStorage.W :=
  set_store UrlStorage.new sample_storage_world.

Definition unloaded_store_world : UrlStore.W :=
  mkWorld UrlStore.new
          (mkDisk [(UrlStore.dataFile,
                    Json (UrlStore.json_of_data (UrlStore.mkData sample_entries)))] [])
          9000 [] quiet_chat sample_env.

(** A URL first posted by alice at instant 0, a threshold of 24 hours,
    and two later posts. *)
Definition the_url : jsstring := str "https://a.io".

Definition original_post : UrlStore.UrlEntry :=
  UrlStore.mkEntry the_url (str "alice") (str "c1") None 0.

Definition post_by (who : string) : Message :=
  mkMessage (str "m2") (str "look: https://a.io") 0 (str who) (str who) false
            (str "c1") Null false (str "g") false.

Definition world_at (now : Z) : UrlStore.W :=
  mkWorld (UrlStore.mkStore (UrlStore.mkData [original_post]) true)
          (mkDisk [] []) now [] quiet_chat sample_env.

(** A chat in which every channel and every message is found. *)
Definition live_chat : Chat :=
  mkChat [] [] [] (fun _ => ChannelFound (TextChannel None)) (fun _ _ => MessageFound).

Definition live_storage_world : UrlStorage.W :=
  mkWorld (UrlStorage.mkStorage sample_map (str "URL_DB_c1.json") true)
          (mkDisk [] []) 9000 [] live_chat sample_env.

(** A chat in which every channel is found and no message fetch
    completes. *)
Definition flaky_chat : Chat :=
  mkChat [] [] [] (fun _ => ChannelFound (TextChannel None)) (fun _ _ => MessageUnavailable).

Definition flaky_storage_world : UrlStorage.W :=
  mkWorld (UrlStorage.mkStorage sample_map (str "URL_DB_c1.json") true)
          (mkDisk [] []) 9000 [] flaky_chat sample_env.

Definition post_in (who channel : string) : Message :=
  mkMessage (str "m9") (str "again: https://b.io") 0 (str who) (str who) false
            (str channel) Null false (str "g") false.

Definition no_error_logged (l : list LogLine) : bool :=
  forallb (fun line => match snd line with ERROR => false | _ => true end) l.

(** A chat in which every channel is found and every message is gone. *)
Definition gone_chat : Chat :=
  mkChat [] [] [] (fun _ => ChannelFound (TextChannel None)) (fun _ _ => MessageGone).

(** The storage holds a record of bob whose message is gone, and the
    next write to the file fails. *)
Definition failing_disk_world : UrlStorage.W :=
  mkWorld (UrlStorage.mkStorage sample_map (str "URL_DB_c1.json") true)
          (mkDisk [] [true]) 9000 [] gone_chat sample_env.

Definition other_url : jsstring := str "https://new.io".

(** A message that holds the same new URL twice, in the main channel. *)
Definition double_post : Message :=
  mkMessage (str "m5") (str "https://a.io and again https://a.io") 0 (str "bob")
            (str "bob") false (str "c1") Null false (str "g") false.

Definition empty_store_world : UrlStore.W :=
  mkWorld (UrlStore.mkStore (UrlStore.mkData []) true)
          (mkDisk [] []) 0 [] quiet_chat sample_env.

(** The states of a storage: it starts with an empty map; the tracker
    adds, saves the distinct URLs of a channel scan, deletes and sweeps;
    the world around it moves on. *)
Inductive storage_step : UrlStorage.W -> UrlStorage.W -> Prop :=
| step_addUrl (w : UrlStorage.W) (u : jsstring) (who : jsval) (c : jsstring)
    (th mid murl : jsval) :
    storage_step w (snd (UrlStorage.addUrl u who c th mid murl w))
| step_saveUrls (w : UrlStorage.W) (c : jsstring) (newUrls : list UrlStorage.UrlEntry) :
    NoDup (map UrlStorage.canonical newUrls) ->
    storage_step w (snd (UrlStorage.saveUrls c newUrls w))
| step_deleteUrl (w : UrlStorage.W) (u : jsstring) :
    storage_step w (snd (UrlStorage.deleteUrl u w))
| step_cleanup (w : UrlStorage.W) :
    storage_step w (snd (UrlStorage.cleanup w))
| step_world (w w' : UrlStorage.W) :
    UrlStorage.urls (store w') = UrlStorage.urls (store w) ->
    storage_step w w'.

Inductive storage_reachable : UrlStorage.W -> Prop :=
| reach_empty (w : UrlStorage.W) :
    UrlStorage.urls (store w) = [] -> storage_reachable w
| reach_step (w w' : UrlStorage.W) :
    storage_reachable w -> storage_step w w' -> storage_reachable w'.

(** Two users post the same URL, with white space around the second. *)
Definition twice_added : UrlStorage.W :=
  snd (UrlStorage.addUrl (str "  https://a.io ") (Str (str "eve")) (str "c2") Null
         (Str (str "m2")) Undefined
    (snd (UrlStorage.addUrl the_url (Str (str "bob")) (str "c1") Null
            (Str (str "m1")) Undefined
            (set_store (UrlStorage.mkStorage [] (str "URL_DB_c1.json") true)
                       sample_storage_world)))).

(** The command that lists the links of the channel c1, and the world
    in which it arrives. *)
Definition fetch_links_command : Message :=
  mkMessage (str "m7") (str "!fetch links c1") 0 (str "bob") (str "bob") false
            (str "c1") Null false (str "g") false.

Definition command_world : RepostTracker.CommandWorld :=
  RepostTracker.mkCommandWorld sample_world [] [].

(** A channel whose last messages hold three URLs, one of them twice,
    and a storage that is about to scan it. *)
Definition scanned_chat : Chat :=
  mkChat [] [] []
         (fun _ => ChannelFound
                     (TextChannel (Some [post_by "bob"; post_in "eve" "c1"; double_post])))
         (fun _ _ => MessageFound).

Definition scanned_storage_world : UrlStorage.W :=
  mkWorld (UrlStorage.mkStorage sample_map (str "URL_DB_c1.json") true)
          (mkDisk [] []) 9000 [] scanned_chat sample_env.

(** * Properties *)

(** Running a computation in a proof: the combinators are unfolded and
    the projections of the worlds built on the way are computed. *)
Ltac simp_run :=
  repeat progress (cbv beta iota zeta;
                   cbn [chat env store disk log clock set_log set_chat set_store set_disk
                        files faults negb]).

Ltac unfold_eff :=
  unfold bind, try_catch, get_state, ret, throw, modify;
  simp_run.

(** ** Strings *)

Lemma jsstring_eqb_eq (a b : jsstring) : JsString.eqb a b = true <-> a = b.
Proof.
  revert b; induction a as [|x a IH]; intros [|y b]; simpl; split;
    try discriminate; try reflexivity.
  - intros H. apply andb_true_iff in H as [Hx Hr].
    apply N.eqb_eq in Hx. apply IH in Hr. now subst.
  - intros H. injection H as -> ->.
    apply andb_true_iff; split; [apply N.eqb_refl | now apply IH].
Qed.

Lemma jsstring_eqb_refl (a : jsstring) : JsString.eqb a a = true.
Proof. now apply jsstring_eqb_eq. Qed.

Lemma jsstring_eqb_neq (a b : jsstring) : JsString.eqb a b = false <-> a <> b.
Proof.
  split.
  - intros H E. apply jsstring_eqb_eq in E. congruence.
  - intros H. destruct (JsString.eqb a b) eqn:E; [|reflexivity].
    apply jsstring_eqb_eq in E. contradiction.
Qed.

Lemma trimEnd_cons_kept (c : N) (r : jsstring) :
  is_whitespace c = false -> trimEnd (c :: r) = c :: trimEnd r.
Proof.
  intros H. simpl. rewrite H. now destruct (trimEnd r).
Qed.

Lemma trimEnd_cons (c : N) (r : jsstring) :
  trimEnd (c :: r) =
  match trimEnd r with
  | [] => if is_whitespace c then [] else [c]
  | d :: r' => c :: d :: r'
  end.
Proof. reflexivity. Qed.

Lemma trimEnd_idempotent (s : jsstring) : trimEnd (trimEnd s) = trimEnd s.
Proof.
  induction s as [|c r IH]; [reflexivity|].
  rewrite trimEnd_cons. destruct (trimEnd r) as [|d r'] eqn:E.
  - destruct (is_whitespace c) eqn:Hc; [reflexivity|].
    rewrite trimEnd_cons. simpl. now rewrite Hc.
  - now rewrite trimEnd_cons, IH.
Qed.

Lemma trimStart_head (s : jsstring) :
  match trimStart s with
  | [] => True
  | c :: _ => is_whitespace c = false
  end.
Proof.
  induction s as [|c r IH]; simpl; [exact I|].
  destruct (is_whitespace c) eqn:Hc; [exact IH | exact Hc].
Qed.

(** Trimming a trimmed string changes nothing. *)
Lemma trim_idempotent (s : jsstring) : trim (trim s) = trim s.
Proof.
  unfold trim.
  pose proof (trimStart_head s) as Hh.
  destruct (trimStart s) as [|c r] eqn:E; [reflexivity|].
  rewrite (trimEnd_cons_kept c r Hh).
  simpl trimStart. rewrite Hh.
  rewrite <- (trimEnd_cons_kept c r Hh).
  apply trimEnd_idempotent.
Qed.

(** ** The stable sort *)

Section SortFacts.
Context {A : Type} (cmp : A -> A -> Z).

Lemma sort_insert_perm (x : A) (l : list A) :
  Permutation (sort_insert cmp x l) (x :: l).
Proof.
  induction l as [|y r IH]; simpl; [reflexivity|].
  destruct (cmp x y <=? 0); [reflexivity|].
  rewrite IH. apply perm_swap.
Qed.

Lemma js_sort_perm (l : list A) : Permutation (js_sort cmp l) l.
Proof.
  induction l as [|x r IH]; simpl; [reflexivity|].
  rewrite sort_insert_perm. now apply perm_skip.
Qed.

Lemma hd_sort_insert (x : A) (l : list A) :
  hd_error (sort_insert cmp x l) =
  match hd_error l with
  | None => Some x
  | Some y => if cmp x y <=? 0 then Some x else Some y
  end.
Proof.
  destruct l as [|y r]; simpl; [reflexivity|].
  now destruct (cmp x y <=? 0).
Qed.

Lemma hd_js_sort (l : list A) : hd_error (js_sort cmp l) = first_least cmp l.
Proof.
  induction l as [|x r IH]; simpl; [reflexivity|].
  now rewrite hd_sort_insert, IH.
Qed.

Lemma first_least_In (l : list A) (m : A) : first_least cmp l = Some m -> In m l.
Proof.
  revert m; induction l as [|x r IH]; simpl; intros m H; [discriminate|].
  destruct (first_least cmp r) as [y|].
  - destruct (cmp x y <=? 0); injection H as <-; [now left | right; now apply IH].
  - injection H as <-. now left.
Qed.

Lemma first_least_None (l : list A) : first_least cmp l = None <-> l = [].
Proof.
  destruct l as [|x r]; simpl; [tauto|].
  split; [|discriminate].
  destruct (first_least cmp r) as [y|]; [destruct (cmp x y <=? 0)|]; discriminate.
Qed.

End SortFacts.

(** With a comparator that subtracts keys, the first element of the
    sorted list has the least key. *)
Lemma first_least_minimal {A : Type} (key : A -> Z) (l : list A) (m : A) :
  first_least (fun a b => key a - key b) l = Some m ->
  forall x, In x l -> key m <= key x.
Proof.
  revert m; induction l as [|a r IH]; simpl; intros m H x Hx; [contradiction|].
  destruct (first_least (fun a b => key a - key b) r) as [y|] eqn:E.
  - specialize (IH y eq_refl).
    destruct (key a - key y <=? 0) eqn:C; injection H as <-.
    + apply Z.leb_le in C. destruct Hx as [<-|Hx]; [lia|].
      specialize (IH x Hx). lia.
    + apply Z.leb_gt in C. destruct Hx as [<-|Hx]; [lia|].
      now apply IH.
  - injection H as <-. apply first_least_None in E. subst r.
    destruct Hx as [<-|[]]. lia.
Qed.

(** An element appended to the list takes the first place of the sorted
    list only when its key is strictly below the present least key. *)
Lemma first_least_snoc {A : Type} (key : A -> Z) (l : list A) (x : A) :
  first_least (fun a b => key a - key b) (l ++ [x]) =
  match first_least (fun a b => key a - key b) l with
  | None => Some x
  | Some m => if key m <=? key x then Some m else Some x
  end.
Proof.
  induction l as [|a r IH]; simpl; [reflexivity|].
  rewrite IH.
  destruct (first_least (fun a b => key a - key b) r) as [m|].
  - destruct (key m <=? key x) eqn:C1;
      destruct (key a - key m <=? 0) eqn:C2;
      destruct (key a - key x <=? 0) eqn:C3;
      try rewrite C1; try rewrite C3; try reflexivity;
      rewrite ?Z.leb_le, ?Z.leb_gt in *;
      try lia;
      try (replace (key a <=? key x) with true by (symmetry; apply Z.leb_le; lia); reflexivity);
      try (replace (key a <=? key x) with false by (symmetry; apply Z.leb_gt; lia); reflexivity).
  - destruct (key a - key x <=? 0) eqn:C3.
    + apply Z.leb_le in C3.
      replace (key a <=? key x) with true by (symmetry; apply Z.leb_le; lia). reflexivity.
    + apply Z.leb_gt in C3.
      replace (key a <=? key x) with false by (symmetry; apply Z.leb_gt; lia). reflexivity.
Qed.

(** ** [UrlStore]: lookup *)

Section UrlStoreLookup.
Import UrlStore.

Lemma ensure_init_initialized (w : W) :
  initialized (store w) = true -> ensure_init w = (Ret tt, w).
Proof.
  intros H. unfold ensure_init, bind, get_state. now rewrite H.
Qed.

Lemma findUrlHistory_initialized (w : W) (u : jsstring) :
  initialized (store w) = true ->
  findUrlHistory u w = (Ret (hd_error (history u (data (store w)))), w).
Proof.
  intros H. unfold findUrlHistory, bind.
  now rewrite (ensure_init_initialized w H).
Qed.

Lemma history_head (u : jsstring) (d : Data) :
  hd_error (history u d) =
  first_least (fun a b => timestamp a - timestamp b)
              (filter (fun entry => JsString.eqb (url entry) u) (urls d)).
Proof. unfold history. now rewrite hd_js_sort. Qed.

End UrlStoreLookup.

(** C10.  In an initialised [UrlStore], [findUrlHistory u] returns, of
    the stored entries whose url is [u], one with the earliest timestamp,
    and returns nothing exactly when no stored entry has that url; the
    world is left as it was. *)
Theorem findUrlHistory_returns_earliest (w : UrlStore.W) (u : jsstring) :
  UrlStore.initialized (store w) = true ->
  exists r,
    UrlStore.findUrlHistory u w = (Ret r, w) /\
    match r with
    | Some e =>
        In e (UrlStore.urls (UrlStore.data (store w))) /\
        UrlStore.url e = u /\
        forall e', In e' (UrlStore.urls (UrlStore.data (store w))) ->
                   UrlStore.url e' = u ->
                   UrlStore.timestamp e <= UrlStore.timestamp e'
    | None =>
        forall e', In e' (UrlStore.urls (UrlStore.data (store w))) ->
                   UrlStore.url e' <> u
    end.
Proof.
  intros Hinit.
  exists (hd_error (UrlStore.history u (UrlStore.data (store w)))).
  split; [now apply findUrlHistory_initialized|].
  rewrite history_head.
  set (l := UrlStore.urls (UrlStore.data (store w))).
  destruct (first_least _ (filter _ l)) as [e|] eqn:E.
  - pose proof (first_least_In _ _ _ E) as Hin.
    apply filter_In in Hin as [Hin Hu]. apply jsstring_eqb_eq in Hu.
    repeat split; trivial.
    intros e' Hin' Hu'.
    apply (first_least_minimal UrlStore.timestamp _ _ E).
    apply filter_In. split; [exact Hin'|]. now apply jsstring_eqb_eq.
  - apply first_least_None in E.
    intros e' Hin' Hu'.
    assert (In e' (filter (fun entry => JsString.eqb (UrlStore.url entry) u) l)) as Hf.
    { apply filter_In. split; [exact Hin'|]. now apply jsstring_eqb_eq. }
    rewrite E in Hf. contradiction.
Qed.

Lemma findUrlHistory_returns_earliest_witness :
  exists r,
    UrlStore.findUrlHistory (str "https://a.io") sample_world = (Ret r, sample_world) /\
    match r with
    | Some e =>
        In e sample_entries /\
        UrlStore.url e = str "https://a.io" /\
        forall e', In e' sample_entries ->
                   UrlStore.url e' = str "https://a.io" ->
                   UrlStore.timestamp e <= UrlStore.timestamp e'
    | None =>
        forall e', In e' sample_entries -> UrlStore.url e' <> str "https://a.io"
    end.
Proof.
  apply (findUrlHistory_returns_earliest sample_world (str "https://a.io")).
  reflexivity.
Defined.

(** ** Files and documents *)

Lemma all_some_map_roundtrip {A B} (enc : A -> B) (dec : B -> option A) :
  (forall a, dec (enc a) = Some a) ->
  forall l, all_some (map dec (map enc l)) = Some l.
Proof.
  intros H l. induction l as [|a r IH]; simpl; [reflexivity|].
  now rewrite H, IH.
Qed.

Lemma take_fault_quiet (script : list bool) :
  hd false script = false -> take_fault script = (false, tl script).
Proof. destruct script as [|[] r]; simpl; intros H; congruence. Qed.

Lemma file_at_put_file (fsys : list (jsstring * FileState)) (p : jsstring) (c : FileState) :
  file_at (put_file fsys p c) p = Some c.
Proof.
  induction fsys as [|[q c'] r IH]; simpl.
  - now rewrite jsstring_eqb_refl.
  - destruct (JsString.eqb q p) eqn:E; simpl; rewrite E; [reflexivity | exact IH].
Qed.

Section UrlStoreFile.
Import UrlStore.

Lemma UrlStore_entry_roundtrip (e : UrlEntry) : entry_of_json (json_of_entry e) = Some e.
Proof. destruct e as [u who c [th|] ts]; reflexivity. Qed.

Lemma UrlStore_data_roundtrip (d : Data) : data_of_json (json_of_data d) = Some d.
Proof.
  destruct d as [es]. unfold json_of_data, data_of_json.
  cbn [get_prop urls]. rewrite jsstring_eqb_refl.
  now rewrite (all_some_map_roundtrip json_of_entry entry_of_json UrlStore_entry_roundtrip).
Qed.

(** What a successful [saveData] leaves. *)
Lemma saveData_inv (w w1 : W) :
  saveData w = (Ret tt, w1) ->
  store w1 = store w /\
  file_at (files (disk w1)) dataFile = Some (Json (json_of_data (data (store w)))) /\
  faults (disk w1) = tl (faults (disk w)).
Proof.
  unfold saveData, bind, get_state, fs_writeFile.
  destruct (take_fault (faults (disk w))) as [fails rest] eqn:E.
  assert (rest = tl (faults (disk w))) as ->.
  { destruct (faults (disk w)); simpl in E; now inversion E. }
  destruct fails; intros H; inversion H; subst; simpl.
  repeat split. apply file_at_put_file.
Qed.

(** [loadData] on a file that holds what the store writes. *)
Lemma loadData_written (w : W) (d : Data) :
  hd false (faults (disk w)) = false ->
  file_at (files (disk w)) dataFile = Some (Json (json_of_data d)) ->
  loadData w =
  (Ret tt, mkWorld (mkStore d (initialized (store w)))
                   (mkDisk (files (disk w)) (tl (faults (disk w))))
                   (clock w) (log w) (chat w) (env w)).
Proof.
  intros Hq Hf. unfold loadData, bind, fs_readFile.
  rewrite (take_fault_quiet _ Hq), Hf.
  unfold JSON_parse, ret. cbv beta iota.
  rewrite UrlStore_data_roundtrip. reflexivity.
Qed.

Lemma findUrlHistory_loads (w : W) (d : Data) (u : jsstring) :
  initialized (store w) = false ->
  hd false (faults (disk w)) = false ->
  file_at (files (disk w)) dataFile = Some (Json (json_of_data d)) ->
  exists w',
    findUrlHistory u w = (Ret (hd_error (history u d)), w') /\
    store w' = mkStore d true /\
    files (disk w') = files (disk w).
Proof.
  intros Hi Hq Hf.
  unfold findUrlHistory, ensure_init, bind at 1 2, get_state at 1. rewrite Hi.
  unfold init, try_catch, bind at 1.
  rewrite (loadData_written w d Hq Hf).
  eexists. split; [reflexivity|]. split; reflexivity.
Qed.

End UrlStoreFile.

(** ** Maps and objects *)

Section MapFacts.
Import UrlStorage.
Context {V : Type}.
Implicit Types (m : list (jsstring * V)) (k : jsstring) (v : V).

Lemma Map_get_None m k : Map_get m k = None <-> ~ In k (map fst m).
Proof.
  induction m as [|[k0 v0] r IH]; simpl; [tauto|].
  destruct (JsString.eqb k0 k) eqn:E.
  - apply jsstring_eqb_eq in E. subst. split; [discriminate | tauto].
  - apply jsstring_eqb_neq in E. rewrite IH. tauto.
Qed.

Lemma Map_get_In m k v :
  NoDup (map fst m) -> In (k, v) m -> Map_get m k = Some v.
Proof.
  induction m as [|[k0 v0] r IH]; simpl; intros Hnd Hin; [contradiction|].
  inversion Hnd as [|? ? Hnotin Hnd']; subst.
  destruct (JsString.eqb k0 k) eqn:E.
  - apply jsstring_eqb_eq in E. subst k0.
    destruct Hin as [Heq|Hin]; [now inversion Heq|].
    exfalso. apply Hnotin. now apply (in_map fst) in Hin.
  - apply jsstring_eqb_neq in E.
    destruct Hin as [Heq|Hin]; [inversion Heq; contradiction|].
    now apply IH.
Qed.

Lemma Map_get_Some_In m k v : Map_get m k = Some v -> In (k, v) m.
Proof.
  induction m as [|[k0 v0] r IH]; simpl; [discriminate|].
  destruct (JsString.eqb k0 k) eqn:E.
  - apply jsstring_eqb_eq in E. intros H. inversion H. subst. now left.
  - intros H. right. now apply IH.
Qed.

(** Two lists of bindings with the same bindings, each key once, are
    the same mapping. *)
Lemma Map_get_perm m m' k :
  NoDup (map fst m) -> Permutation m m' -> Map_get m k = Map_get m' k.
Proof.
  intros Hnd Hp.
  assert (NoDup (map fst m')) as Hnd'.
  { eapply Permutation_NoDup; [|exact Hnd]. now apply Permutation_map. }
  destruct (Map_get m k) as [v|] eqn:E.
  - symmetry. apply Map_get_In; [exact Hnd'|].
    eapply Permutation_in; [exact Hp|]. now apply Map_get_Some_In.
  - symmetry. apply Map_get_None. apply Map_get_None in E.
    intros Hin. apply E.
    eapply Permutation_in; [|exact Hin].
    apply Permutation_map. now symmetry.
Qed.

Lemma Map_set_absent m k v : Map_get m k = None -> Map_set m k v = m ++ [(k, v)].
Proof.
  induction m as [|[k0 v0] r IH]; simpl; [reflexivity|].
  destruct (JsString.eqb k0 k); [discriminate|].
  intros H. now rewrite IH.
Qed.

Lemma place_index_perm m k n v : Permutation (place_index m k n v) (m ++ [(k, v)]).
Proof.
  induction m as [|[k0 v0] r IH]; simpl; [reflexivity|].
  destruct (array_index k0) as [n'|].
  - destruct (n <? n')%N.
    + change ((k0, v0) :: r ++ [(k, v)]) with (((k0, v0) :: r) ++ [(k, v)]).
      apply Permutation_cons_append.
    + now apply perm_skip.
  - change ((k0, v0) :: r ++ [(k, v)]) with (((k0, v0) :: r) ++ [(k, v)]).
    apply Permutation_cons_append.
Qed.

Lemma define_property_perm m k v :
  Map_get m k = None -> Permutation (define_property m k v) (m ++ [(k, v)]).
Proof.
  intros H. unfold define_property. rewrite H.
  destruct (array_index k); [apply place_index_perm | reflexivity].
Qed.

Lemma define_property_plain m k v :
  Map_get m k = None -> array_index k = None -> define_property m k v = m ++ [(k, v)].
Proof.
  intros H Hi. unfold define_property. now rewrite H, Hi.
Qed.

Lemma NoDup_keys_absent (acc r : list (jsstring * V)) k v :
  NoDup (map fst (acc ++ (k, v) :: r)) -> Map_get acc k = None.
Proof.
  intros Hnd. apply Map_get_None. intros Hin.
  rewrite map_app in Hnd. simpl in Hnd.
  apply NoDup_remove_2 in Hnd. apply Hnd. apply in_or_app. now left.
Qed.

Lemma fromEntries_fold_perm (m acc : list (jsstring * V)) :
  NoDup (map fst (acc ++ m)) ->
  Permutation
    (fold_left (fun props kv => define_property props (fst kv) (snd kv)) m acc)
    (acc ++ m).
Proof.
  revert acc; induction m as [|[k v] r IH]; intros acc Hnd; simpl.
  - now rewrite app_nil_r.
  - pose proof (define_property_perm acc k v (NoDup_keys_absent acc r k v Hnd)) as Hp.
    assert (Permutation (define_property acc k v ++ r) (acc ++ (k, v) :: r)) as Hp'.
    { rewrite Hp. rewrite <- app_assoc. reflexivity. }
    rewrite IH.
    + exact Hp'.
    + eapply Permutation_NoDup; [|exact Hnd].
      apply Permutation_map. now symmetry.
Qed.

Lemma fromEntries_perm (m : list (jsstring * V)) :
  NoDup (map fst m) -> Permutation (Object_fromEntries m) m.
Proof. intros H. apply (fromEntries_fold_perm m []). exact H. Qed.

Lemma fromEntries_fold_plain (m acc : list (jsstring * V)) :
  NoDup (map fst (acc ++ m)) ->
  (forall k, In k (map fst m) -> array_index k = None) ->
  fold_left (fun props kv => define_property props (fst kv) (snd kv)) m acc = acc ++ m.
Proof.
  revert acc; induction m as [|[k v] r IH]; intros acc Hnd Hplain; simpl.
  - now rewrite app_nil_r.
  - rewrite define_property_plain.
    + rewrite IH.
      * now rewrite <- app_assoc.
      * now rewrite <- app_assoc.
      * intros k' Hk'. apply Hplain. now right.
    + exact (NoDup_keys_absent acc r k v Hnd).
    + apply Hplain. now left.
Qed.

Lemma Map_set_fold (l acc : list (jsstring * V)) :
  NoDup (map fst (acc ++ l)) ->
  fold_left (fun m kv => Map_set m (fst kv) (snd kv)) l acc = acc ++ l.
Proof.
  revert acc; induction l as [|[k v] r IH]; intros acc Hnd; simpl.
  - now rewrite app_nil_r.
  - rewrite Map_set_absent by exact (NoDup_keys_absent acc r k v Hnd).
    rewrite IH; now rewrite <- app_assoc.
Qed.

End MapFacts.

(** ** The document of [UrlStorage] *)

Section UrlStorageFile.
Import UrlStorage.

Lemma get_prop_app (a b : list (jsstring * json)) (k : jsstring) :
  get_prop (a ++ b) k =
  match get_prop a k with
  | Some v => Some v
  | None => get_prop b k
  end.
Proof.
  induction a as [|[k' v] r IH]; simpl; [reflexivity|].
  now destruct (JsString.eqb k' k).
Qed.

Lemma get_prop_field (name : string) (v : jsval) (k : jsstring) :
  get_prop (json_of_field name v) k =
  if JsString.eqb (str name) k
  then match v with
       | Undefined => None
       | Null => Some JNull
       | Str s => Some (JStr s)
       end
  else None.
Proof.
  destruct v; simpl; destruct (JsString.eqb (str name) k); reflexivity.
Qed.

Ltac eval_keys :=
  repeat match goal with
         | |- context [JsString.eqb (str ?a) (str ?b)] =>
             let r := eval vm_compute in (JsString.eqb (str a) (str b)) in
             change (JsString.eqb (str a) (str b)) with r
         end.

Ltac read_field v :=
  unfold field_of_json, json_of_entry;
  repeat rewrite get_prop_app; repeat rewrite get_prop_field;
  cbn [get_prop]; eval_keys; cbv iota;
  destruct v; reflexivity.

Lemma UrlStorage_entry_roundtrip (e : UrlEntry) : entry_of_json (json_of_entry e) = Some e.
Proof.
  destruct e as [u who a tn c th mid murl ts].
  set (e := mkEntry u who a tn c th mid murl ts).
  assert (exists props, json_of_entry e = JObj props /\
            get_prop props (str "url") = Some (JStr u) /\
            get_prop props (str "timestamp") = Some (JNum ts) /\
            field_of_json props "userId" = Some who /\
            field_of_json props "author" = Some a /\
            field_of_json props "threadName" = Some tn /\
            field_of_json props "channelId" = Some c /\
            field_of_json props "threadId" = Some th /\
            field_of_json props "messageId" = Some mid /\
            field_of_json props "messageUrl" = Some murl)
    as (props & -> & Hu & Hts & H1 & H2 & H3 & H4 & H5 & H6 & H7).
  { eexists. split; [reflexivity|]. subst e.
    cbn [url userId author threadName channelId threadId messageId messageUrl timestamp].
    split; [reflexivity|].
    split; [|repeat apply conj].
    - repeat rewrite get_prop_app; repeat rewrite get_prop_field;
        cbn [get_prop]; eval_keys; reflexivity.
    - read_field who.
    - read_field a.
    - read_field tn.
    - read_field c.
    - read_field th.
    - read_field mid.
    - read_field murl. }
  unfold entry_of_json. rewrite Hu, Hts, H1, H2, H3, H4, H5, H6, H7. reflexivity.
Qed.

Lemma entries_roundtrip (props : list (jsstring * list UrlEntry)) :
  entries_of_json
    (JObj (map (fun kv => (fst kv, JArr (map json_of_entry (snd kv)))) props))
  = Some props.
Proof.
  unfold entries_of_json.
  induction props as [|[k es] r IH]; [reflexivity|].
  cbn [map fst snd all_some].
  rewrite (all_some_map_roundtrip json_of_entry entry_of_json UrlStorage_entry_roundtrip).
  now rewrite IH.
Qed.

(** What a successful write of the map leaves. *)
Lemma write_urls_inv (w w1 : W) :
  write_urls w = (Ret tt, w1) ->
  store w1 = store w /\
  file_at (files (disk w1)) (storageFile (store w))
    = Some (Json (json_of_urls (urls (store w)))) /\
  faults (disk w1) = tl (faults (disk w)) /\
  env w1 = env w.
Proof.
  unfold write_urls, bind, get_state, fs_writeFile.
  destruct (take_fault (faults (disk w))) as [fails rest] eqn:E.
  assert (rest = tl (faults (disk w))) as ->.
  { destruct (faults (disk w)); simpl in E; now inversion E. }
  destruct fails; intros H; inversion H; subst; simpl.
  repeat split. apply file_at_put_file.
Qed.

(** [init] of an empty storage on a file that holds what the storage
    writes for the map [m]. *)
Lemma init_reads_written (w : W) (id : jsstring) (m : UrlMap) :
  MAIN_CHANNEL_ID (env w) = Some id ->
  id <> [] ->
  urls (store w) = [] ->
  hd false (faults (disk w)) = false ->
  file_at (files (disk w)) (str "URL_DB_" ++ id ++ str ".json")
    = Some (Json (json_of_urls m)) ->
  NoDup (map fst m) ->
  exists w',
    init w = (Ret tt, w') /\
    urls (store w') = Object_fromEntries m /\
    isInitialized (store w') = true.
Proof.
  intros Hid Hne Hurls Hq Hf Hnd.
  unfold init, try_catch, bind, get_state, set_storageFile, modify, fs_readFile,
    JSON_parse, ret, set_urls, set_isInitialized, logWithTimestamp, throw.
  rewrite Hid. destruct id as [|c id']; [contradiction|].
  cbn [disk set_store store set_disk files faults].
  rewrite (take_fault_quiet _ Hq), Hf.
  unfold json_of_urls. rewrite entries_roundtrip.
  unfold modify. cbn [store set_store set_disk urls]. rewrite Hurls.
  rewrite Map_set_fold.
  - eexists. split; [reflexivity|]. split; reflexivity.
  - simpl. eapply Permutation_NoDup; [|exact Hnd].
    apply Permutation_map. symmetry. now apply fromEntries_perm.
Qed.

End UrlStorageFile.

(** ** Round trip through the file *)

(** C8.  Saving and loading again gives the store back.  For [UrlStore]:
    after a [saveData] that succeeds, [loadData] into any store on the
    same files, whatever that store holds, a new one in particular,
    succeeds and leaves it with the data that was saved; loaded into
    the store that saved, it leaves that store as it was.  For
    [UrlStorage]: after a write of the map that succeeds, [init] of a
    new storage on the same file succeeds and its map binds the same
    channels to the same entries; it is the same list of bindings when
    no channel id is an array index. *)
Theorem save_then_load_roundtrip :
  (forall (w w1 : UrlStore.W) (other : UrlStore.t),
     UrlStore.saveData w = (Ret tt, w1) ->
     hd false (faults (disk w1)) = false ->
     (exists w2,
        UrlStore.loadData (set_store other w1) = (Ret tt, w2) /\
        UrlStore.data (store w2) = UrlStore.data (store w) /\
        UrlStore.initialized (store w2) = UrlStore.initialized other) /\
     (exists w2, UrlStore.loadData w1 = (Ret tt, w2) /\ store w2 = store w))
  /\
  (forall (w w1 : UrlStorage.W) (id : jsstring),
     UrlStorage.write_urls w = (Ret tt, w1) ->
     MAIN_CHANNEL_ID (env w) = Some id ->
     id <> [] ->
     UrlStorage.storageFile (store w) = str "URL_DB_" ++ id ++ str ".json" ->
     NoDup (map fst (UrlStorage.urls (store w))) ->
     hd false (faults (disk w1)) = false ->
     exists w2,
       UrlStorage.init (set_store UrlStorage.new w1) = (Ret tt, w2) /\
       UrlStorage.isInitialized (store w2) = true /\
       (forall k, UrlStorage.Map_get (UrlStorage.urls (store w2)) k
                  = UrlStorage.Map_get (UrlStorage.urls (store w)) k) /\
       Permutation (UrlStorage.urls (store w2)) (UrlStorage.urls (store w)) /\
       ((forall k, In k (map fst (UrlStorage.urls (store w))) ->
                   UrlStorage.array_index k = None) ->
        UrlStorage.urls (store w2) = UrlStorage.urls (store w))).
Proof.
  split.
  - intros w w1 other Hsave Hq.
    destruct (saveData_inv w w1 Hsave) as (Hst & Hfile & _).
    split.
    + rewrite (loadData_written (set_store other w1) (UrlStore.data (store w)))
        by assumption.
      eexists. split; [reflexivity|]. split; reflexivity.
    + rewrite (loadData_written w1 _ Hq Hfile).
      eexists. split; [reflexivity|].
      cbn [store]. rewrite Hst. now destruct (store w).
  - intros w w1 id Hwrite Hid Hne Hfile Hnd Hq.
    destruct (write_urls_inv w w1 Hwrite) as (Hst & Hf & _ & Henv).
    rewrite Hfile in Hf.
    destruct (init_reads_written (set_store UrlStorage.new w1) id
                (UrlStorage.urls (store w)))
      as (w2 & Hinit & Hurls & Hi); trivial.
    { cbn [env set_store]. now rewrite Henv. }
    exists w2. split; [exact Hinit|]. split; [exact Hi|].
    rewrite Hurls.
    pose proof (fromEntries_perm _ Hnd) as Hp.
    split; [|split].
    + intros k. symmetry. apply Map_get_perm; [exact Hnd | now symmetry].
    + exact Hp.
    + intros Hplain. apply (fromEntries_fold_plain _ [] Hnd Hplain).
Qed.

Lemma save_then_load_roundtrip_witness :
  ((exists w2,
      UrlStore.loadData (set_store UrlStore.new (snd (UrlStore.saveData sample_world)))
      = (Ret tt, w2) /\
      UrlStore.data (store w2) = UrlStore.data (store sample_world) /\
      UrlStore.initialized (store w2) = UrlStore.initialized UrlStore.new) /\
   (exists w2,
      UrlStore.loadData (snd (UrlStore.saveData sample_world)) = (Ret tt, w2) /\
      store w2 = store sample_world))
  /\
  (exists w2,
     UrlStorage.init
       (set_store UrlStorage.new (snd (UrlStorage.write_urls sample_storage_world)))
     = (Ret tt, w2) /\
     UrlStorage.isInitialized (store w2) = true /\
     (forall k, UrlStorage.Map_get (UrlStorage.urls (store w2)) k
                = UrlStorage.Map_get sample_map k) /\
     Permutation (UrlStorage.urls (store w2)) sample_map /\
     ((forall k, In k (map fst sample_map) -> UrlStorage.array_index k = None) ->
      UrlStorage.urls (store w2) = sample_map)).
Proof.
  split.
  - apply (proj1 save_then_load_roundtrip sample_world _ UrlStore.new); reflexivity.
  - apply (proj2 save_then_load_roundtrip sample_storage_world _ (str "c1"));
      try reflexivity.
    + discriminate.
    + repeat constructor; simpl; intuition discriminate.
Defined.

(** ** Lookup before the store is loaded *)

(** C6, as stated, fails: a lookup before the load returns a value in
    both stores.  [UrlStorage.findUrlHistory] returns [null] and logs;
    [UrlStore.findUrlHistory] loads the file and answers from it. *)
Lemma lookup_before_load_counterexample :
  UrlStorage.isInitialized (store unloaded_storage_world) = false /\
  UrlStorage.findUrlHistory (str "https://a.io") unloaded_storage_world
  = (Ret None, set_log [(StorageNotInitialized, ERROR)] unloaded_storage_world) /\
  UrlStore.initialized (store unloaded_store_world) = false /\
  fst (UrlStore.findUrlHistory (str "https://a.io") unloaded_store_world)
  = Ret (Some (UrlStore.mkEntry (str "https://a.io") (str "amy") (str "c2")
                                (Some (str "c2")) 3000)).
Proof. repeat split. Qed.

(** C6, amended.  A lookup before the load does not fail.  In
    [UrlStorage] it logs 'URL storage not initialized' as an error and
    returns [null], the value it returns for a URL that is absent, and
    changes nothing else.  In [UrlStore] it first runs [init]: when the
    file holds a saved document and can be read, the lookup answers from
    that document and leaves the store loaded and initialised. *)
Theorem lookup_before_load (u : jsstring) :
  (forall w : UrlStorage.W,
     UrlStorage.isInitialized (store w) = false ->
     UrlStorage.findUrlHistory u w
     = (Ret None, set_log (log w ++ [(StorageNotInitialized, ERROR)]) w))
  /\
  (forall (w : UrlStore.W) (d : UrlStore.Data),
     UrlStore.initialized (store w) = false ->
     hd false (faults (disk w)) = false ->
     file_at (files (disk w)) UrlStore.dataFile = Some (Json (UrlStore.json_of_data d)) ->
     exists w',
       UrlStore.findUrlHistory u w = (Ret (hd_error (UrlStore.history u d)), w') /\
       store w' = UrlStore.mkStore d true /\
       files (disk w') = files (disk w)).
Proof.
  split.
  - intros w H. unfold UrlStorage.findUrlHistory, bind, get_state. now rewrite H.
  - intros w d. apply findUrlHistory_loads.
Qed.

Lemma lookup_before_load_witness :
  UrlStorage.findUrlHistory (str "https://a.io") unloaded_storage_world
  = (Ret None,
     set_log (log unloaded_storage_world ++ [(StorageNotInitialized, ERROR)])
             unloaded_storage_world)
  /\
  exists w',
    UrlStore.findUrlHistory (str "https://a.io") unloaded_store_world
    = (Ret (hd_error (UrlStore.history (str "https://a.io")
                        (UrlStore.mkData sample_entries))), w') /\
    store w' = UrlStore.mkStore (UrlStore.mkData sample_entries) true /\
    files (disk w') = files (disk unloaded_store_world).
Proof.
  split.
  - apply (proj1 (lookup_before_load (str "https://a.io")) unloaded_storage_world).
    reflexivity.
  - apply (proj2 (lookup_before_load (str "https://a.io")) unloaded_store_world);
      reflexivity.
Defined.

(** ** The threshold of [processUrl] *)

Section Threshold.
Import UrlStore RepostTracker.

(** [postAge > thresholdHours], on the milliseconds. *)
Lemma older_than_iff (now ts T : Z) :
  older_than ((now - ts) # 3600000) (Some T) = true <-> T * 3600000 < now - ts.
Proof.
  unfold older_than. rewrite negb_true_iff.
  split.
  - intros H. destruct (Z_lt_le_dec (T * 3600000) (now - ts)) as [|Hle]; [assumption|].
    assert (Qle_bool ((now - ts) # 3600000) (inject_Z T) = true) as C.
    { apply Qle_bool_iff. unfold Qle, inject_Z. simpl. lia. }
    congruence.
  - intros H. destruct (Qle_bool ((now - ts) # 3600000) (inject_Z T)) eqn:C; [|reflexivity].
    apply Qle_bool_iff in C. unfold Qle, inject_Z in C. simpl in C. lia.
Qed.

Lemma processUrl_within_threshold (w : W) (u : jsstring) (m : Message) (h : UrlEntry) (T : Z) :
  initialized (store w) = true ->
  hd_error (history u (data (store w))) = Some h ->
  URL_REPOST_THRESHOLD_HOURS (env w) = Some T ->
  clock w - timestamp h <= T * 3600000 ->
  exists o w',
    processUrl u m w = (Ret o, w') /\
    store w' = store w /\
    disk w' = disk w /\
    (o = BLOCKED (JsString.eqb (userId h) (author_id m)) \/ o = FAILED NetworkError) /\
    (send_faults (chat w) = [] ->
     o = BLOCKED (JsString.eqb (userId h) (author_id m)) /\
     replies (chat w') =
       replies (chat w) ++
       [(msg_id m,
         createRepostEmbed h m ((clock w - timestamp h) # 3600000) (Some T)
           (JsString.eqb (userId h) (author_id m)))]).
Proof.
  intros Hi Hh HT Hage.
  assert (older_than ((clock w - timestamp h) # 3600000) (Some T) = false) as Hold.
  { destruct (older_than _ _) eqn:E; [|reflexivity].
    apply older_than_iff in E. lia. }
  unfold processUrl, try_catch, bind at 1.
  rewrite (findUrlHistory_initialized w u Hi), Hh.
  unfold getPostAgeHours, bind, get_state, ret. rewrite HT, Hold.
  unfold message_reply, message_delete, logWithTimestamp, modify.
  destruct (take_fault (send_faults (chat w))) as [[] rest] eqn:E1.
  - do 2 eexists. split; [reflexivity|]. do 2 (split; [reflexivity|]).
    split; [now right|].
    intros Hs. rewrite Hs in E1. discriminate.
  - destruct (deletable m).
    + cbn [chat set_chat send_faults].
      destruct (take_fault rest) as [[] rest'] eqn:E2.
      * do 2 eexists. split; [reflexivity|]. do 2 (split; [reflexivity|]).
        split; [now right|].
        intros Hs. rewrite Hs in E1. inversion E1; subst. discriminate.
      * do 2 eexists. split; [reflexivity|]. do 2 (split; [reflexivity|]).
        split; [now left|]. intros _. split; reflexivity.
    + do 2 eexists. split; [reflexivity|]. do 2 (split; [reflexivity|]).
      split; [now left|]. intros _. split; reflexivity.
Qed.

(** What [addUrl] does in an initialised store: the entry is pushed, then
    the file is written; a write that fails leaves the entry pushed. *)
Lemma addUrl_initialized (w : W) (u who c : jsstring) (th : option jsstring) :
  initialized (store w) = true ->
  let e := mkEntry u who c th (clock w) in
  let pushed := mkStore (mkData (urls (data (store w)) ++ [e])) true in
  addUrl u who c th w =
  if hd false (faults (disk w))
  then (Throw EIO,
        set_disk (mkDisk (files (disk w)) (tl (faults (disk w)))) (set_store pushed w))
  else (Ret e,
        set_disk (mkDisk (put_file (files (disk w)) dataFile
                                   (Json (json_of_data (data pushed))))
                         (tl (faults (disk w))))
                 (set_store pushed w)).
Proof.
  intros Hi e pushed. unfold addUrl, bind at 1.
  rewrite (ensure_init_initialized w Hi).
  subst e pushed.
  destruct w as [[d i] [fl fa] ck lg ch en]. cbn [store initialized] in Hi. subst i.
  destruct fa as [|[] r]; reflexivity.
Qed.

Lemma processUrl_beyond_threshold (w : W) (u : jsstring) (m : Message) (h : UrlEntry) (T : Z) :
  initialized (store w) = true ->
  hd_error (history u (data (store w))) = Some h ->
  URL_REPOST_THRESHOLD_HOURS (env w) = Some T ->
  T * 3600000 < clock w - timestamp h ->
  let e := mkEntry u (author_id m) (msg_channelId m) (thread_of m) (clock w) in
  exists o w',
    processUrl u m w = (Ret o, w') /\
    store w' = mkStore (mkData (urls (data (store w)) ++ [e])) true /\
    clock w' = clock w /\
    env w' = env w /\
    o = (if hd false (faults (disk w)) then FAILED EIO else EXPIRED_REPOST).
Proof.
  intros Hi Hh HT Hage e.
  unfold processUrl, try_catch, bind at 1.
  rewrite (findUrlHistory_initialized w u Hi), Hh.
  unfold getPostAgeHours, bind, get_state, ret. rewrite HT.
  rewrite (proj2 (older_than_iff _ _ _) Hage).
  rewrite (addUrl_initialized w _ _ _ _ Hi).
  destruct (hd false (faults (disk w))).
  - do 2 eexists. split; [reflexivity|]. repeat split.
  - do 2 eexists. split; [reflexivity|]. repeat split.
Qed.

End Threshold.

(** C3.  With a record [h] for the URL and a threshold of [T] hours,
    [processUrl] treats an age equal to the threshold as within the
    threshold: the post is answered with the repost notice and the store
    is left alone (the outcome is the failure of the reply when the reply
    is rejected).  The outcome is EXPIRED_REPOST only for an age strictly
    above the threshold, and for every such age when the write
    succeeds. *)
Theorem age_equal_threshold_is_blocked
    (w : UrlStore.W) (u : jsstring) (m : Message) (h : UrlStore.UrlEntry) (T : Z) :
  UrlStore.initialized (store w) = true ->
  hd_error (UrlStore.history u (UrlStore.data (store w))) = Some h ->
  URL_REPOST_THRESHOLD_HOURS (env w) = Some T ->
  ((clock w - UrlStore.timestamp h) # 3600000 == inject_Z T ->
   exists o w',
     RepostTracker.processUrl u m w = (Ret o, w') /\
     store w' = store w /\
     (o = RepostTracker.BLOCKED (JsString.eqb (UrlStore.userId h) (author_id m))
      \/ o = RepostTracker.FAILED NetworkError) /\
     (send_faults (chat w) = [] ->
      o = RepostTracker.BLOCKED (JsString.eqb (UrlStore.userId h) (author_id m))))%Q
  /\
  (fst (RepostTracker.processUrl u m w) = Ret RepostTracker.EXPIRED_REPOST ->
   inject_Z T < (clock w - UrlStore.timestamp h) # 3600000)%Q
  /\
  (inject_Z T < (clock w - UrlStore.timestamp h) # 3600000 ->
   hd false (faults (disk w)) = false ->
   fst (RepostTracker.processUrl u m w) = Ret RepostTracker.EXPIRED_REPOST)%Q.
Proof.
  intros Hi Hh HT.
  assert (forall a : Z, (inject_Z T < a # 3600000)%Q <-> T * 3600000 < a) as Hlt.
  { intros a. unfold Qlt, inject_Z. simpl. lia. }
  split; [|split].
  - intros Heq.
    assert (clock w - UrlStore.timestamp h <= T * 3600000) as Hle.
    { unfold Qeq, inject_Z in Heq. simpl in Heq. lia. }
    destruct (processUrl_within_threshold w u m h T Hi Hh HT Hle)
      as (o & w' & Hrun & Hst & _ & Ho & Hquiet).
    exists o, w'. repeat split; trivial.
    intros Hs. now apply Hquiet.
  - intros Hout. apply (proj2 (Hlt (clock w - UrlStore.timestamp h))).
    destruct (Z_lt_le_dec (T * 3600000) (clock w - UrlStore.timestamp h)) as [|Hle];
      [assumption|].
    destruct (processUrl_within_threshold w u m h T Hi Hh HT Hle)
      as (o & w' & Hrun & _ & _ & Ho & _).
    rewrite Hrun in Hout. simpl in Hout.
    destruct Ho as [-> | ->]; discriminate.
  - intros Hage Hq. apply (proj1 (Hlt (clock w - UrlStore.timestamp h))) in Hage.
    destruct (processUrl_beyond_threshold w u m h T Hi Hh HT Hage)
      as (o & w' & Hrun & _ & _ & _ & Ho).
    rewrite Hrun. simpl. now rewrite Ho, Hq.
Qed.

Lemma age_equal_threshold_is_blocked_witness :
  exists o w',
    RepostTracker.processUrl the_url (post_by "bob") (world_at 86400000) = (Ret o, w') /\
    store w' = store (world_at 86400000) /\
    (o = RepostTracker.BLOCKED false \/ o = RepostTracker.FAILED NetworkError) /\
    (send_faults (chat (world_at 86400000)) = [] -> o = RepostTracker.BLOCKED false).
Proof.
  apply (proj1 (age_equal_threshold_is_blocked (world_at 86400000) the_url (post_by "bob")
                  original_post 24 eq_refl eq_refl eq_refl)).
  reflexivity.
Defined.

(** C1, as stated, fails: bob reposts the URL 36 hours after alice, with
    a threshold of 24 hours.  The outcome is EXPIRED_REPOST, but the
    record of alice is still in the store, the lookup still returns it,
    and a third post, by alice, made at once, is judged against her first
    post and passes as EXPIRED_REPOST too. *)
Lemma expired_repost_counterexample :
  fst (RepostTracker.processUrl the_url (post_by "bob") (world_at 129600000))
  = Ret RepostTracker.EXPIRED_REPOST /\
  UrlStore.urls (UrlStore.data (store
    (snd (RepostTracker.processUrl the_url (post_by "bob") (world_at 129600000)))))
  = [ original_post;
      UrlStore.mkEntry the_url (str "bob") (str "c1") None 129600000 ] /\
  fst (UrlStore.findUrlHistory the_url
         (snd (RepostTracker.processUrl the_url (post_by "bob") (world_at 129600000))))
  = Ret (Some original_post) /\
  fst (RepostTracker.processUrl the_url (post_by "alice")
         (snd (RepostTracker.processUrl the_url (post_by "bob") (world_at 129600000))))
  = Ret RepostTracker.EXPIRED_REPOST.
Proof. repeat split. Qed.

(** C1, amended.  When the record [h] that the lookup finds is older than
    the threshold and the write succeeds, the outcome is EXPIRED_REPOST
    and the new posting is appended to the store; the record [h] stays,
    and the lookup of the URL still returns [h]. *)
Theorem expired_repost_appends
    (w : UrlStore.W) (u : jsstring) (m : Message) (h : UrlStore.UrlEntry) (T : Z) :
  UrlStore.initialized (store w) = true ->
  hd_error (UrlStore.history u (UrlStore.data (store w))) = Some h ->
  URL_REPOST_THRESHOLD_HOURS (env w) = Some T ->
  0 <= T ->
  T * 3600000 < clock w - UrlStore.timestamp h ->
  hd false (faults (disk w)) = false ->
  exists w',
    RepostTracker.processUrl u m w = (Ret RepostTracker.EXPIRED_REPOST, w') /\
    UrlStore.urls (UrlStore.data (store w'))
    = UrlStore.urls (UrlStore.data (store w))
      ++ [UrlStore.mkEntry u (author_id m) (msg_channelId m)
            (RepostTracker.thread_of m) (clock w)] /\
    In h (UrlStore.urls (UrlStore.data (store w'))) /\
    UrlStore.findUrlHistory u w' = (Ret (Some h), w').
Proof.
  intros Hi Hh HT HT0 Hage Hq.
  destruct (processUrl_beyond_threshold w u m h T Hi Hh HT Hage)
    as (o & w' & Hrun & Hst & _ & _ & Ho).
  rewrite Hq in Ho. subst o.
  exists w'. split; [exact Hrun|].
  rewrite Hst. cbn [store UrlStore.data UrlStore.urls].
  split; [reflexivity|].
  pose proof Hh as Hhead. rewrite history_head in Hhead.
  split.
  - apply in_or_app. left.
    apply first_least_In in Hhead. now apply filter_In in Hhead.
  - rewrite findUrlHistory_initialized by (now rewrite Hst).
    rewrite Hst. cbn [UrlStore.data]. rewrite history_head.
    cbn [UrlStore.urls]. rewrite filter_app. cbn [filter UrlStore.url].
    rewrite jsstring_eqb_refl.
    rewrite (first_least_snoc UrlStore.timestamp), Hhead.
    cbn [UrlStore.timestamp].
    replace (UrlStore.timestamp h <=? clock w) with true
      by (symmetry; apply Z.leb_le; lia).
    reflexivity.
Qed.

Lemma expired_repost_appends_witness :
  exists w',
    RepostTracker.processUrl the_url (post_by "bob") (world_at 129600000)
    = (Ret RepostTracker.EXPIRED_REPOST, w') /\
    UrlStore.urls (UrlStore.data (store w'))
    = [original_post]
      ++ [UrlStore.mkEntry the_url (str "bob") (str "c1") None 129600000] /\
    In original_post (UrlStore.urls (UrlStore.data (store w'))) /\
    UrlStore.findUrlHistory the_url w' = (Ret (Some original_post), w').
Proof.
  apply (expired_repost_appends (world_at 129600000) the_url (post_by "bob")
           original_post 24); try reflexivity; lia.
Defined.

(** The other store replaces nothing either: [UrlStorage.addUrl] skips a
    URL that the map holds. *)
Lemma UrlStorage_addUrl_skips_duplicate
    (w : UrlStorage.W) (u : jsstring) (who : jsval) (c : jsstring) (th mid murl : jsval) :
  UrlStorage.isInitialized (store w) = true ->
  UrlStorage.isDuplicateUrl (UrlStorage.urls (store w)) (trim u) = true ->
  UrlStorage.addUrl u who c th mid murl w
  = (Ret None, set_log (log w ++ [(SkippedDuplicate (trim u), INFO)]) w).
Proof.
  intros Hi Hd. unfold UrlStorage.addUrl, logWithTimestamp. unfold_eff.
  now rewrite Hi, Hd.
Qed.

(** ** Blocked posts leave the store alone *)

Section Blocked.
Import UrlStore RepostTracker.

Lemma processUrl_blocked_frame (w w' : W) (u : jsstring) (m : Message) (b : bool) :
  processUrl u m w = (Ret (BLOCKED b), w') ->
  store w' = store (snd (ensure_init w)) /\
  disk w' = disk (snd (ensure_init w)).
Proof.
  unfold processUrl, try_catch, bind at 1, findUrlHistory, bind at 1.
  destruct (ensure_init w) as [[[]|e] w1]; cbn [snd].
  2:{ unfold bind, logWithTimestamp, modify, ret. intros H. inversion H. }
  unfold bind at 1, get_state at 1, ret at 1.
  destruct (hd_error (history u (data (store w1)))) as [h|].
  - unfold getPostAgeHours, bind at 1, get_state at 1, ret at 1.
    unfold bind at 1, bind at 1, get_state at 1.
    destruct (older_than _ _).
    + unfold bind at 1.
      destruct (addUrl u (author_id m) (msg_channelId m) (thread_of m) w1) as [[e|x] w2];
        unfold ret, bind, logWithTimestamp, modify; intros H; inversion H.
    + unfold bind, message_reply, message_delete, logWithTimestamp, modify, ret.
      destruct (take_fault (send_faults (chat w1))) as [[] rest].
      * intros H; inversion H.
      * destruct (deletable m).
        -- cbn [chat set_chat send_faults].
           destruct (take_fault rest) as [[] rest']; intros H; inversion H; subst.
           split; reflexivity.
        -- intros H; inversion H; subst. split; reflexivity.
  - unfold bind at 1.
    destruct (addUrl u (author_id m) (msg_channelId m) (thread_of m) w1) as [[e|x] w2];
      unfold ret, bind, logWithTimestamp, modify; intros H; inversion H.
Qed.

End Blocked.

Section BlockedStorage.
Import UrlStorage UrlTracker.

Lemma findUrlHistory_frame (w : W) (u : jsstring) :
  exists r l, findUrlHistory u w = (Ret r, set_log l w).
Proof.
  unfold findUrlHistory, bind, get_state, logWithTimestamp, modify, ret.
  destruct (negb (isInitialized (store w))); [do 2 eexists; reflexivity|].
  destruct (find_in_channels (urls (store w)) u) as [[c e]|]; do 2 eexists; reflexivity.
Qed.

Ltac run_eff :=
  unfold logWithTimestamp, client_channels_fetch, channel_messages_fetch, message_reply;
  unfold_eff.

Ltac run_call f :=
  match goal with
  | |- context [f ?a ?b ?x] =>
      let r := fresh "r" in let w := fresh "w" in
      destruct (f a b x) as [[r|?] w]; simp_run
  | |- context [f ?a ?x] =>
      let r := fresh "r" in let w := fresh "w" in
      destruct (f a x) as [[r|?] w]; simp_run
  end.

Ltac close_run :=
  solve [ let H := fresh "H" in let Hb := fresh "Hb" in
          intros H Hb; inversion H; subst; cbn in Hb;
          first [discriminate | split; reflexivity] ].

Lemma check_url_blocked_frame (w w' : W) (m : Message) (u : jsstring) (o : Outcome) :
  check_url m u w = (Ret o, w') ->
  is_blocked o = true ->
  store w' = store w /\ disk w' = disk w.
Proof.
  unfold check_url. run_eff.
  match goal with
  | |- context [findUrlHistory u ?x] =>
      destruct (findUrlHistory_frame x u) as (r & l & ->)
  end.
  simp_run.
  destruct r as [existing|]; simp_run.
  2:{ run_call addNewUrlEntry; close_run. }
  destruct (channels_fetch (chat w) (channelId existing)) as [ch| | |];
    simp_run; try close_run.
  - destruct (messages_fetch (chat w) (channelId existing) (messageId existing));
      simp_run.
    + destruct (negb (jsval_eqb (userId existing) (Str (author_id m)))); simp_run.
      * destruct (take_fault (send_faults (chat w))) as [[] rest]; simp_run; close_run.
      * destruct (negb (jsval_eqb (channelId existing) (Str (msg_channelId m))));
          simp_run; [|close_run].
        destruct (createDuplicateEmbed_bound (env w)); simp_run; [|close_run].
        destruct (take_fault (send_faults (chat w))) as [[] rest]; simp_run; close_run.
    + run_call deleteUrl; [|close_run].
      run_call addNewUrlEntry; close_run.
    + run_call deleteUrl; [|close_run].
      run_call addNewUrlEntry; close_run.
  - run_call addNewUrlEntry; close_run.
Qed.

Lemma SyncTracker_check_url_blocked_frame
    (w w' : W) (m : Message) (u : jsstring) (o : SyncTracker.Outcome) :
  SyncTracker.check_url m u w = (Ret o, w') ->
  SyncTracker.is_blocked o = true ->
  store w' = store w /\ disk w' = disk w.
Proof.
  unfold SyncTracker.check_url. run_eff.
  match goal with
  | |- context [findUrlHistory u ?x] =>
      destruct (findUrlHistory_frame x u) as (r & l & ->)
  end.
  simp_run.
  destruct r as [existing|]; simp_run; [|close_run].
  destruct (negb (jsval_eqb (author existing) (Str (author_tag m)))); simp_run.
  - destruct (take_fault (send_faults (chat w))) as [[] rest]; simp_run; close_run.
  - destruct (negb (jsval_eqb (channelId existing) (Str (msg_channelId m)))); simp_run.
    + destruct (take_fault (send_faults (chat w))) as [[] rest]; simp_run; close_run.
    + destruct (messages_fetch (chat w) (Str (msg_channelId m)) (messageId existing));
        simp_run.
      * destruct (take_fault (send_faults (chat w))) as [[] rest]; simp_run; close_run.
      * run_call deleteUrl; close_run.
      * run_call deleteUrl; close_run.
Qed.

End BlockedStorage.

(** C9.  A post that [processUrl] answers as blocked leaves the store and
    the files as the lookup found them: as they were, when the store was
    initialised, and as [init] loaded them otherwise.  A round of
    [handleUrlMessage], in the tracker and in its older revision, that
    ends in one of the three blocked branches leaves the storage and the
    files as they were. *)
Theorem blocked_posts_leave_store_unchanged :
  (forall (w w' : UrlStore.W) (u : jsstring) (m : Message) (b : bool),
     RepostTracker.processUrl u m w = (Ret (RepostTracker.BLOCKED b), w') ->
     store w' = store (snd (UrlStore.ensure_init w)) /\
     disk w' = disk (snd (UrlStore.ensure_init w)) /\
     (UrlStore.initialized (store w) = true -> store w' = store w /\ disk w' = disk w))
  /\
  (forall (w w' : UrlStorage.W) (m : Message) (u : jsstring) (o : UrlTracker.Outcome),
     UrlTracker.check_url m u w = (Ret o, w') ->
     UrlTracker.is_blocked o = true ->
     store w' = store w /\ disk w' = disk w)
  /\
  (forall (w w' : UrlStorage.W) (m : Message) (u : jsstring) (o : SyncTracker.Outcome),
     SyncTracker.check_url m u w = (Ret o, w') ->
     SyncTracker.is_blocked o = true ->
     store w' = store w /\ disk w' = disk w).
Proof.
  split; [|split].
  - intros w w' u m b Hrun.
    destruct (processUrl_blocked_frame w w' u m b Hrun) as [Hs Hd].
    split; [exact Hs|]. split; [exact Hd|].
    intros Hi. rewrite (ensure_init_initialized w Hi) in Hs, Hd.
    split; assumption.
  - intros w w' m u o. apply check_url_blocked_frame.
  - intros w w' m u o. apply SyncTracker_check_url_blocked_frame.
Qed.

Lemma blocked_posts_leave_store_unchanged_witness :
  (store (snd (RepostTracker.processUrl the_url (post_by "bob") (world_at 3600000)))
   = store (world_at 3600000) /\
   disk (snd (RepostTracker.processUrl the_url (post_by "bob") (world_at 3600000)))
   = disk (world_at 3600000))
  /\
  (store (snd (UrlTracker.check_url (post_by "eve") the_url live_storage_world))
   = store live_storage_world /\
   disk (snd (UrlTracker.check_url (post_by "eve") the_url live_storage_world))
   = disk live_storage_world)
  /\
  (store (snd (SyncTracker.check_url (post_in "bob" "c2") (str "https://b.io")
                 live_storage_world))
   = store live_storage_world /\
   disk (snd (SyncTracker.check_url (post_in "bob" "c2") (str "https://b.io")
                live_storage_world))
   = disk live_storage_world).
Proof.
  split; [|split].
  - apply (proj1 blocked_posts_leave_store_unchanged (world_at 3600000) _ the_url
             (post_by "bob") false eq_refl).
    reflexivity.
  - apply (proj1 (proj2 blocked_posts_leave_store_unchanged) live_storage_world _
             (post_by "eve") the_url UrlTracker.BLOCKED_OTHER_USER eq_refl).
    reflexivity.
  - apply (proj2 (proj2 blocked_posts_leave_store_unchanged) live_storage_world _
             (post_in "bob" "c2") (str "https://b.io") SyncTracker.BLOCKED_OTHER_USER
             eq_refl).
    reflexivity.
Defined.

(** ** A message fetch that is rejected *)

Section RejectedFetch.
Import UrlStorage.

Lemma remove_first_found (u : jsstring) (es : list UrlEntry) (e : UrlEntry) :
  find (same_url u) es = Some e ->
  exists es', remove_first u es = Some es' /\ S (List.length es') = List.length es.
Proof.
  revert e; induction es as [|x r IH]; simpl; intros e H; [discriminate|].
  destruct (same_url u x).
  - eexists. split; reflexivity.
  - destruct (IH e H) as (es' & -> & Hlen).
    eexists. split; [reflexivity|]. simpl. now rewrite Hlen.
Qed.

Lemma remove_first_not_found (u : jsstring) (es : list UrlEntry) :
  find (same_url u) es = None -> remove_first u es = None.
Proof.
  induction es as [|x r IH]; simpl; [reflexivity|].
  destruct (same_url u x); [discriminate|].
  intros H. now rewrite IH.
Qed.

(** The record that the lookup finds is the one that [deleteUrl]
    splices out. *)
Lemma splice_first_found (m : UrlMap) (u c : jsstring) (e : UrlEntry) :
  find_in_channels m u = Some (c, e) ->
  exists m1,
    splice_first m u = Some m1 /\
    S (List.length (flat_map snd m1)) = List.length (flat_map snd m).
Proof.
  induction m as [|[c0 es] r IH]; simpl; intros H; [discriminate|].
  destruct (find (same_url u) es) as [x|] eqn:E.
  - destruct (remove_first_found u es x E) as (es' & -> & Hlen).
    eexists. split; [reflexivity|]. simpl.
    rewrite !length_app. lia.
  - rewrite (remove_first_not_found u es E).
    destruct (IH H) as (m1 & -> & Hlen).
    eexists. split; [reflexivity|]. simpl.
    rewrite !length_app. lia.
Qed.

Lemma findUrlHistory_found (w : W) (u c : jsstring) (e : UrlEntry) :
  isInitialized (store w) = true ->
  find_in_channels (urls (store w)) u = Some (c, e) ->
  findUrlHistory u w =
  (Ret (Some (with_channel e c)), set_log (log w ++ [(HistoryFound u c, INFO)]) w).
Proof.
  intros Hi Hf. unfold findUrlHistory, logWithTimestamp. unfold_eff.
  now rewrite Hi, Hf.
Qed.

Lemma deleteUrl_found (w : W) (u : jsstring) (m1 : UrlMap) :
  isInitialized (store w) = true ->
  splice_first (urls (store w)) u = Some m1 ->
  hd false (faults (disk w)) = false ->
  exists w1,
    deleteUrl u w = (Ret true, w1) /\
    urls (store w1) = m1.
Proof.
  intros Hi Hs Hq.
  unfold deleteUrl, write_urls, set_urls, fs_writeFile, logWithTimestamp. unfold_eff.
  rewrite Hi, Hs. simp_run.
  rewrite (take_fault_quiet _ Hq). simp_run.
  eexists. split; reflexivity.
Qed.

Lemma set_log_set_log {St : Type} (l l' : list LogLine) (w : World St) :
  set_log l (set_log l' w) = set_log l w.
Proof. reflexivity. Qed.

Lemma UrlTracker_check_url_rejected
    (w : W) (m : Message) (u c : jsstring) (e : UrlEntry) (ch : Channel) :
  isInitialized (store w) = true ->
  find_in_channels (urls (store w)) u = Some (c, e) ->
  channels_fetch (chat w) (Str c) = ChannelFound ch ->
  messages_fetch (chat w) (Str c) (messageId e) <> MessageFound ->
  UrlTracker.check_url m u w =
  (deleteUrl u ;; UrlTracker.addNewUrlEntry m u ;; ret UrlTracker.ORIGINAL_GONE)
    (set_log (log w ++ [(CheckingUrl u, INFO); (HistoryFound u c, INFO);
                        (FoundExisting u (userId e), INFO); (OriginalGone u, INFO)]) w).
Proof.
  intros Hi Hf Hc Hm.
  unfold UrlTracker.check_url, bind at 1, logWithTimestamp at 1, modify at 1.
  unfold bind at 1.
  rewrite (findUrlHistory_found _ u c e) by (simp_run; assumption).
  unfold logWithTimestamp, UrlTracker.client_channels_fetch,
    UrlTracker.channel_messages_fetch.
  unfold_eff. cbn [with_channel channelId messageId userId].
  rewrite Hc. simp_run.
  destruct (messages_fetch (chat w) (Str c) (messageId e)); [contradiction| |]; simp_run;
    rewrite !set_log_set_log, <- !app_assoc; cbn [app];
    destruct (deleteUrl u _) as [[d|x] w1]; reflexivity.
Qed.

Lemma SyncTracker_check_url_rejected
    (w : W) (m : Message) (u : jsstring) (e : UrlEntry) :
  isInitialized (store w) = true ->
  find_in_channels (urls (store w)) u = Some (msg_channelId m, e) ->
  author e = Str (author_tag m) ->
  messages_fetch (chat w) (Str (msg_channelId m)) (messageId e) <> MessageFound ->
  SyncTracker.check_url m u w =
  (deleteUrl u ;; logWithTimestamp (DeletedStaleEntry u) INFO ;; ret SyncTracker.STALE_DELETED)
    (set_log (log w ++ [(CheckingUrl u, INFO); (HistoryFound u (msg_channelId m), INFO);
                        (FoundExisting u (author e), INFO)]) w).
Proof.
  intros Hi Hf Ha Hm.
  unfold SyncTracker.check_url, bind at 1, logWithTimestamp at 1, modify at 1.
  unfold bind at 1.
  rewrite (findUrlHistory_found _ u (msg_channelId m) e) by (simp_run; assumption).
  cbn [with_channel channelId messageId author].
  rewrite Ha. cbn [jsval_eqb]. rewrite !jsstring_eqb_refl. cbn [negb].
  unfold logWithTimestamp, UrlTracker.channel_messages_fetch.
  unfold_eff.
  destruct (messages_fetch (chat w) (Str (msg_channelId m)) (messageId e));
    [contradiction| |]; simp_run;
    rewrite !set_log_set_log, <- !app_assoc; cbn [app];
    destruct (deleteUrl u _) as [[d|x] w1]; reflexivity.
Qed.

End RejectedFetch.

(** C2, a run of the code at a failing input: the storage holds the
    record of bob for the URL, his message exists but the existence
    check does not complete, and eve posts the URL.  The record of bob
    is deleted and replaced by one of eve, and no error is logged.  The
    older tracker deletes the record as well. *)
Lemma rejected_fetch_counterexample :
  messages_fetch (chat flaky_storage_world) (Str (str "c1")) (Str (str "m1"))
  = MessageUnavailable /\
  fst (UrlTracker.handleUrlMessage (post_by "eve") [the_url] flaky_storage_world)
  = Ret [UrlTracker.ORIGINAL_GONE] /\
  UrlStorage.Map_get
    (UrlStorage.urls (store
       (snd (UrlTracker.handleUrlMessage (post_by "eve") [the_url] flaky_storage_world))))
    (str "c1")
  = Some [ UrlStorage.mkEntry the_url (Str (str "eve")) Undefined Undefined
             (Str (str "c1")) Null (Str (str "m2"))
             (Str (str "https://discord.com/channels/g/c1/m2")) 9000 ] /\
  no_error_logged
    (log (snd (UrlTracker.handleUrlMessage (post_by "eve") [the_url] flaky_storage_world)))
  = true /\
  fst (SyncTracker.handleUrlMessage (post_in "eve#1" "c2") [str "https://b.io"]
         flaky_storage_world)
  = Ret [SyncTracker.STALE_DELETED] /\
  UrlStorage.Map_get
    (UrlStorage.urls (store
       (snd (SyncTracker.handleUrlMessage (post_in "eve#1" "c2") [str "https://b.io"]
               flaky_storage_world))))
    (str "c2")
  = Some [].
Proof. repeat split. Qed.

(** C2: the code where it departs from the claim.  The claim wants a
    record kept, and a soft error surfaced, when the existence check of
    its message cannot complete.  [handleUrlMessage] means to check
    whether the original message still exists, but its [catch] takes
    every rejection of the message fetch for a message that is gone,
    the request that did not complete like the message deleted: when
    the storage holds a record for the URL, its channel is found and the
    fetch of its message is rejected, the round logs that the original
    message no longer exists, calls [deleteUrl] and goes on to add the
    post as a new entry, logging no error; when the file can be
    written, [deleteUrl] removes the record.  The older tracker, for a
    post by the same author in the same channel, deletes the record in
    the same way. *)
Theorem rejected_fetch_deletes_record :
  (forall (w : UrlStorage.W) (m : Message) (u c : jsstring)
          (e : UrlStorage.UrlEntry) (ch : Channel),
     UrlStorage.isInitialized (store w) = true ->
     UrlStorage.find_in_channels (UrlStorage.urls (store w)) u = Some (c, e) ->
     channels_fetch (chat w) (Str c) = ChannelFound ch ->
     messages_fetch (chat w) (Str c) (UrlStorage.messageId e) <> MessageFound ->
     let w0 :=
       set_log (log w ++ [(CheckingUrl u, INFO); (HistoryFound u c, INFO);
                          (FoundExisting u (UrlStorage.userId e), INFO);
                          (OriginalGone u, INFO)]) w in
     UrlTracker.check_url m u w =
     (UrlStorage.deleteUrl u ;; UrlTracker.addNewUrlEntry m u ;;
      ret UrlTracker.ORIGINAL_GONE) w0 /\
     (hd false (faults (disk w)) = false ->
      exists w1,
        UrlStorage.deleteUrl u w0 = (Ret true, w1) /\
        UrlStorage.splice_first (UrlStorage.urls (store w)) u
        = Some (UrlStorage.urls (store w1)) /\
        S (List.length (flat_map snd (UrlStorage.urls (store w1))))
        = List.length (flat_map snd (UrlStorage.urls (store w)))))
  /\
  (forall (w : UrlStorage.W) (m : Message) (u : jsstring) (e : UrlStorage.UrlEntry),
     UrlStorage.isInitialized (store w) = true ->
     UrlStorage.find_in_channels (UrlStorage.urls (store w)) u
     = Some (msg_channelId m, e) ->
     UrlStorage.author e = Str (author_tag m) ->
     messages_fetch (chat w) (Str (msg_channelId m)) (UrlStorage.messageId e)
     <> MessageFound ->
     SyncTracker.check_url m u w =
     (UrlStorage.deleteUrl u ;; logWithTimestamp (DeletedStaleEntry u) INFO ;;
      ret SyncTracker.STALE_DELETED)
       (set_log (log w ++ [(CheckingUrl u, INFO);
                           (HistoryFound u (msg_channelId m), INFO);
                           (FoundExisting u (UrlStorage.author e), INFO)]) w)).
Proof.
  split.
  - intros w m u c e ch Hi Hf Hc Hm w0. split.
    + now apply (UrlTracker_check_url_rejected w m u c e ch).
    + intros Hq.
      destruct (splice_first_found _ u c e Hf) as (m1 & Hs & Hlen).
      destruct (deleteUrl_found w0 u m1 Hi Hs Hq) as (w1 & Hdel & Hurls).
      exists w1. rewrite Hurls. repeat split; assumption.
  - intros w m u e. apply SyncTracker_check_url_rejected.
Qed.

Lemma rejected_fetch_deletes_record_witness :
  messages_fetch (chat flaky_storage_world) (Str (str "c1")) (Str (str "m1"))
  = MessageUnavailable /\
  UrlTracker.check_url (post_by "eve") the_url flaky_storage_world =
  (UrlStorage.deleteUrl the_url ;; UrlTracker.addNewUrlEntry (post_by "eve") the_url ;;
   ret UrlTracker.ORIGINAL_GONE)
    (set_log (log flaky_storage_world ++
              [(CheckingUrl the_url, INFO); (HistoryFound the_url (str "c1"), INFO);
               (FoundExisting the_url (Str (str "bob")), INFO);
               (OriginalGone the_url, INFO)]) flaky_storage_world) /\
  exists w1,
    UrlStorage.deleteUrl the_url
      (set_log (log flaky_storage_world ++
                [(CheckingUrl the_url, INFO); (HistoryFound the_url (str "c1"), INFO);
                 (FoundExisting the_url (Str (str "bob")), INFO);
                 (OriginalGone the_url, INFO)]) flaky_storage_world)
    = (Ret true, w1) /\
    UrlStorage.splice_first sample_map the_url = Some (UrlStorage.urls (store w1)) /\
    S (List.length (flat_map snd (UrlStorage.urls (store w1))))
    = List.length (flat_map snd sample_map).
Proof.
  split; [reflexivity|].
  destruct (proj1 rejected_fetch_deletes_record flaky_storage_world (post_by "eve")
              the_url (str "c1")
              (UrlStorage.mkEntry the_url (Str (str "bob")) Undefined Undefined
                 (Str (str "c1")) Null (Str (str "m1"))
                 (Str (str "https://discord.com/channels/g/c1/m1")) 5000)
              (TextChannel None) eq_refl eq_refl eq_refl) as [Hround Hdeleted].
  - discriminate.
  - split; [exact Hround | exact (Hdeleted eq_refl)].
Defined.

(** ** A failure in the middle of a message *)

(** [processUrl] has its own [try]: it always returns. *)
Lemma processUrl_returns (w : UrlStore.W) (u : jsstring) (m : Message) :
  exists o w', RepostTracker.processUrl u m w = (Ret o, w').
Proof.
  unfold RepostTracker.processUrl, try_catch.
  destruct (bind (UrlStore.findUrlHistory u) _ w) as [[o|e] w1].
  - now exists o, w1.
  - unfold logWithTimestamp. unfold_eff. do 2 eexists. reflexivity.
Qed.

Lemma for_of_processUrl (m : Message) (urls : list jsstring) (w : UrlStore.W) :
  exists outs w',
    for_of urls (fun u => RepostTracker.processUrl u m) w = ((outs, None), w') /\
    List.length outs = List.length urls.
Proof.
  revert w; induction urls as [|u r IH]; intros w; simpl.
  - now exists [], w.
  - destruct (processUrl_returns w u m) as (o & w1 & ->).
    destruct (IH w1) as (outs & w' & -> & Hlen).
    exists (o :: outs), w'. split; [reflexivity|]. simpl. now rewrite Hlen.
Qed.

(** C7: the code at a failing input.  When a round of the loop of
    [handleUrlMessage] throws, the one [try] around the loop ends the
    message there: one error is logged and the URLs after it are never
    looked at.  ([processUrl], by contrast, always returns, so that
    [handleMessage] goes through all the URLs of the message.) *)
Theorem failed_write_drops_remaining_urls
    (w w1 : UrlStorage.W) (m : Message) (u : jsstring) (rest : list jsstring) (e : exn) :
  UrlTracker.check_url m u w = (Throw e, w1) ->
  UrlTracker.handleUrlMessage m (u :: rest) w
  = (Ret [], set_log (log w1 ++ [(ErrorHandlingUrlMessage e, ERROR)]) w1).
Proof.
  intros H. unfold UrlTracker.handleUrlMessage. simpl. now rewrite H.
Qed.

Lemma failed_write_drops_remaining_urls_witness :
  fst (UrlTracker.check_url (post_by "eve") the_url failing_disk_world) = Throw EIO /\
  UrlTracker.handleUrlMessage (post_by "eve") [the_url; other_url] failing_disk_world
  = (Ret [],
     set_log (log (snd (UrlTracker.check_url (post_by "eve") the_url failing_disk_world))
              ++ [(ErrorHandlingUrlMessage EIO, ERROR)])
             (snd (UrlTracker.check_url (post_by "eve") the_url failing_disk_world))) /\
  existsb (fun line => match fst line with
                       | CheckingUrl u => JsString.eqb u other_url
                       | _ => false
                       end)
          (log (snd (UrlTracker.handleUrlMessage (post_by "eve") [the_url; other_url]
                       failing_disk_world)))
  = false.
Proof.
  split; [reflexivity|]. split; [|reflexivity].
  apply (failed_write_drops_remaining_urls failing_disk_world _ (post_by "eve") the_url
           [other_url] EIO).
  reflexivity.
Defined.

(** ** One outcome per match; duplicates in a channel scan *)

Section Unique.
Import UrlStorage UrlTracker.
Context {A : Type}.

Lemma findIndex_app (p : A -> bool) (a b : list A) :
  findIndex p (a ++ b) =
  match findIndex p a with
  | Some i => Some i
  | None =>
      match findIndex p b with
      | Some j => Some (List.length a + j)%nat
      | None => None
      end
  end.
Proof.
  induction a as [|x r IH]; simpl.
  - now destruct (findIndex p b).
  - destruct (p x); [reflexivity|].
    rewrite IH. destruct (findIndex p r); [reflexivity|].
    now destruct (findIndex p b).
Qed.

Lemma findIndex_lt (p : A -> bool) (l : list A) (i : nat) :
  findIndex p l = Some i -> (i < List.length l)%nat.
Proof.
  revert i; induction l as [|x r IH]; simpl; intros i H; [discriminate|].
  destruct (p x).
  - inversion H. lia.
  - destruct (findIndex p r) as [j|]; [|discriminate].
    inversion H. specialize (IH j eq_refl). lia.
Qed.

Lemma findIndex_existsb (p : A -> bool) (l : list A) :
  existsb p l = match findIndex p l with Some _ => true | None => false end.
Proof.
  induction l as [|x r IH]; simpl; [reflexivity|].
  destruct (p x); [reflexivity|]. simpl. rewrite IH.
  now destruct (findIndex p r).
Qed.

Lemma filter_indexed_app (keep : A -> nat -> bool) (from : nat) (a b : list A) :
  filter_indexed keep from (a ++ b) =
  filter_indexed keep from a ++ filter_indexed keep (from + List.length a) b.
Proof.
  revert from; induction a as [|x r IH]; intros from; simpl.
  - now rewrite Nat.add_0_r.
  - rewrite IH. replace (S from + List.length r)%nat with (from + S (List.length r))%nat by lia.
    now destruct (keep x from).
Qed.

Lemma filter_indexed_ext (keep keep' : A -> nat -> bool) (from : nat) (l : list A) :
  (forall x i, In x l -> keep x i = keep' x i) ->
  filter_indexed keep from l = filter_indexed keep' from l.
Proof.
  revert from; induction l as [|x r IH]; intros from H; simpl; [reflexivity|].
  rewrite (H x from) by now left.
  rewrite IH by (intros; apply H; now right).
  reflexivity.
Qed.

End Unique.

Section UniqueUrls.
Import UrlStorage UrlTracker.

(** The filter of [fetchAllUrlsFromChannel], entry by entry: an entry is
    kept when no entry before it has its url, and the entries kept stay
    in their order. *)
Lemma unique_urls_snoc (l : list UrlEntry) (x : UrlEntry) :
  unique_urls (l ++ [x]) =
  if existsb (fun t => JsString.eqb (url t) (url x)) l
  then unique_urls l
  else unique_urls l ++ [x].
Proof.
  unfold unique_urls. rewrite filter_indexed_app. simpl.
  rewrite (filter_indexed_ext _
             (fun u index =>
                match findIndex (fun t => JsString.eqb (url t) (url u)) l with
                | Some i => Nat.eqb index i
                | None => false
                end) 0 l).
  2:{ intros y i Hy. rewrite findIndex_app.
      pose proof (findIndex_existsb (fun t => JsString.eqb (url t) (url y)) l) as He.
      assert (existsb (fun t => JsString.eqb (url t) (url y)) l = true) as Hex.
      { apply existsb_exists. exists y. split; [exact Hy | apply jsstring_eqb_refl]. }
      rewrite Hex in He.
      destruct (findIndex (fun t => JsString.eqb (url t) (url y)) l); [reflexivity|discriminate]. }
  rewrite findIndex_app, findIndex_existsb.
  destruct (findIndex (fun t => JsString.eqb (url t) (url x)) l) as [i|] eqn:E.
  - apply findIndex_lt in E.
    replace (Nat.eqb (List.length l) i) with false
      by (symmetry; apply Nat.eqb_neq; lia).
    now rewrite app_nil_r.
  - simpl. rewrite jsstring_eqb_refl. rewrite Nat.add_0_r, Nat.eqb_refl. reflexivity.
Qed.

Lemma unique_urls_same_urls (l : list UrlEntry) (u : jsstring) :
  In u (map url (unique_urls l)) <-> In u (map url l).
Proof.
  induction l as [|x l IH] using rev_ind; [reflexivity|].
  rewrite unique_urls_snoc, map_app, in_app_iff. simpl.
  destruct (existsb (fun t => JsString.eqb (url t) (url x)) l) eqn:E.
  - rewrite IH. split; [tauto|]. intros [H|[H|[]]]; [exact H|].
    apply existsb_exists in E as (t & Ht & Heq). apply jsstring_eqb_eq in Heq.
    subst u. rewrite <- Heq. now apply in_map.
  - rewrite map_app, in_app_iff, IH. reflexivity.
Qed.

Lemma unique_urls_NoDup (l : list UrlEntry) : NoDup (map url (unique_urls l)).
Proof.
  induction l as [|x l IH] using rev_ind; [constructor|].
  rewrite unique_urls_snoc.
  destruct (existsb (fun t => JsString.eqb (url t) (url x)) l) eqn:E; [exact IH|].
  rewrite map_app. simpl.
  eapply Permutation_NoDup; [apply Permutation_cons_append|]. constructor.
  - rewrite unique_urls_same_urls. intros Hin.
    apply in_map_iff in Hin as (t & Ht & Hin).
    assert (existsb (fun t => JsString.eqb (url t) (url x)) l = true) as Hex.
    { apply existsb_exists. exists t. split; [exact Hin | now apply jsstring_eqb_eq]. }
    congruence.
  - exact IH.
Qed.


End UniqueUrls.


Section InOrder.
Import UrlStorage UrlTracker.






End InOrder.



(** ** One record per URL *)

Section OnePerUrl.
Import UrlStorage.

Lemma isDuplicateUrl_false (m : UrlMap) (u : jsstring) :
  isDuplicateUrl m u = false -> ~ In (trim u) (map canonical (all_entries m)).
Proof.
  unfold isDuplicateUrl, all_entries. intros H Hin.
  apply in_map_iff in Hin as (e & He & Hin).
  apply in_flat_map in Hin as (kv & Hkv & Hin).
  assert (existsb (fun kv => existsb (same_url u) (snd kv)) m = true) as Hex.
  { apply existsb_exists. exists kv. split; [exact Hkv|].
    apply existsb_exists. exists e. split; [exact Hin|].
    unfold same_url. apply jsstring_eqb_eq. exact He. }
  congruence.
Qed.

Lemma all_entries_Map_set (m : UrlMap) (c : jsstring) (l' : list UrlEntry) :
  exists rest,
    Permutation (all_entries m)
      (match Map_get m c with Some es => es | None => [] end ++ rest) /\
    Permutation (all_entries (Map_set m c l')) (l' ++ rest).
Proof.
  unfold all_entries.
  induction m as [|[k v] r (rest & H1 & H2)]; simpl.
  - exists []. split; [reflexivity | now rewrite !app_nil_r].
  - destruct (JsString.eqb k c).
    + exists (flat_map snd r). split; reflexivity.
    + exists (v ++ rest). simpl. split.
      * rewrite H1. rewrite !app_assoc. apply Permutation_app_tail, Permutation_app_comm.
      * rewrite H2. rewrite !app_assoc. apply Permutation_app_tail, Permutation_app_comm.
Qed.

(** Binding a channel to its entries and one more, in any order, adds
    that one entry to the map. *)
Lemma all_entries_added (m : UrlMap) (c : jsstring) (e : UrlEntry) (l' : list UrlEntry) :
  Permutation l' (match Map_get m c with Some es => es | None => [] end ++ [e]) ->
  Permutation (all_entries (Map_set m c l')) (e :: all_entries m).
Proof.
  intros Hl.
  destruct (all_entries_Map_set m c l') as (rest & H1 & H2).
  rewrite H2, Hl, H1.
  rewrite <- app_assoc. simpl.
  symmetry. apply Permutation_middle.
Qed.

Lemma remove_first_split (u : jsstring) (es es' : list UrlEntry) :
  remove_first u es = Some es' ->
  exists l1 x l2, es = l1 ++ x :: l2 /\ es' = l1 ++ l2.
Proof.
  revert es'; induction es as [|y r IH]; simpl; intros es' H; [discriminate|].
  destruct (same_url u y).
  - inversion H. subst. now exists [], y, es'.
  - destruct (remove_first u r) as [r'|]; [|discriminate].
    inversion H. subst.
    destruct (IH r' eq_refl) as (l1 & x & l2 & -> & ->).
    now exists (y :: l1), x, l2.
Qed.

Lemma splice_first_split (m m1 : UrlMap) (u : jsstring) :
  splice_first m u = Some m1 ->
  exists l1 x l2, all_entries m = l1 ++ x :: l2 /\ all_entries m1 = l1 ++ l2.
Proof.
  unfold all_entries.
  revert m1; induction m as [|[c es] r IH]; simpl; intros m1 H; [discriminate|].
  destruct (remove_first u es) as [es'|] eqn:E.
  - inversion H. subst. simpl.
    destruct (remove_first_split u es es' E) as (l1 & x & l2 & -> & ->).
    exists l1, x, (l2 ++ flat_map snd r).
    now rewrite <- !app_assoc.
  - destruct (splice_first r u) as [r'|]; [|discriminate].
    inversion H. subst. simpl.
    destruct (IH r' eq_refl) as (l1 & x & l2 & -> & ->).
    exists (es ++ l1), x, l2.
    now rewrite <- !app_assoc.
Qed.

Lemma all_entries_sweep (now : Z) (m : UrlMap) :
  all_entries (fst (sweep now m))
  = filter (fun e => now - timestamp e <? maxAge) (all_entries m).
Proof.
  unfold all_entries.
  induction m as [|[c es] r IH]; simpl; [reflexivity|].
  destruct (sweep now r) as [r' n]. simpl in *.
  now rewrite IH, filter_app.
Qed.

(** Dropping entries keeps the trimmed urls distinct. *)
Lemma distinct_after_filter (keep : UrlEntry -> bool) (es : list UrlEntry) :
  NoDup (map canonical es) -> NoDup (map canonical (filter keep es)).
Proof.
  intros Hdistinct.
  induction es as [|e es IH]; [constructor|].
  apply NoDup_cons_iff in Hdistinct as [Hfresh Hrest].
  specialize (IH Hrest). simpl.
  destruct (keep e); [|exact IH].
  simpl. apply NoDup_cons; [|exact IH].
  contradict Hfresh.
  apply in_map_iff in Hfresh as (e' & Hkey & Hkept).
  apply in_map_iff. exists e'. split; [exact Hkey|].
  apply filter_In in Hkept. tauto.
Qed.

(** What the three mutators leave in the map, whether or not the write
    to the file succeeds. *)
Lemma addUrl_urls (w : W) (u : jsstring) (who : jsval) (c : jsstring)
    (th mid murl : jsval) :
  urls (store (snd (addUrl u who c th mid murl w))) = urls (store w) \/
  (isDuplicateUrl (urls (store w)) (trim u) = false /\
   exists e l',
     url e = trim (trim u) /\
     Permutation l'
       (match Map_get (urls (store w)) c with Some es => es | None => [] end ++ [e]) /\
     urls (store (snd (addUrl u who c th mid murl w))) = Map_set (urls (store w)) c l').
Proof.
  unfold addUrl, saveUrls, save_loop, write_urls, set_urls, fs_writeFile, logWithTimestamp.
  unfold_eff.
  destruct (isInitialized (store w)) eqn:Hi; simp_run; [|now left].
  destruct (isDuplicateUrl (urls (store w)) (trim u)) eqn:Hd; simp_run; [now left|].
  right. split; [reflexivity|].
  rewrite Hi. simp_run. cbn [url]. rewrite Hd. simp_run.
  cbn [Nat.ltb Nat.leb]. simp_run.
  match goal with
  | |- context [js_sort newest_first (?ex ++ [?e])] =>
      exists e, (js_sort newest_first (ex ++ [e]))
  end.
  split; [reflexivity|]. split; [apply js_sort_perm|].
  destruct (take_fault (faults (disk w))) as [[] rest]; simp_run;
    cbn [Nat.ltb Nat.leb]; simp_run; reflexivity.
Qed.

Lemma deleteUrl_urls (w : W) (u : jsstring) :
  urls (store (snd (deleteUrl u w))) = urls (store w) \/
  splice_first (urls (store w)) u = Some (urls (store (snd (deleteUrl u w)))).
Proof.
  unfold deleteUrl, write_urls, set_urls, fs_writeFile, logWithTimestamp. unfold_eff.
  destruct (isInitialized (store w)); simp_run; [|now left].
  destruct (splice_first (urls (store w)) u) as [m1|]; simp_run; [|now left].
  right. destruct (take_fault (faults (disk w))) as [[] rest]; reflexivity.
Qed.

Lemma cleanup_urls (w : W) :
  urls (store (snd (cleanup w))) = urls (store w) \/
  urls (store (snd (cleanup w))) = fst (sweep (clock w) (urls (store w))).
Proof.
  unfold cleanup, write_urls, set_urls, fs_writeFile, logWithTimestamp. unfold_eff.
  destruct (isInitialized (store w)); simp_run; [|now left].
  right. destruct (sweep (clock w) (urls (store w))) as [m' n]. simp_run.
  destruct (Nat.ltb 0 n); simp_run; [|reflexivity].
  destruct (take_fault (faults (disk w))) as [[] rest]; reflexivity.
Qed.

Lemma addUrl_one_per_url (w : W) (u : jsstring) (who : jsval) (c : jsstring)
    (th mid murl : jsval) :
  one_per_url (urls (store w)) ->
  one_per_url (urls (store (snd (addUrl u who c th mid murl w)))).
Proof.
  intros Hinv.
  destruct (addUrl_urls w u who c th mid murl) as [-> | (Hd & e & l' & He & Hl & ->)];
    [exact Hinv|].
  unfold one_per_url.
  eapply Permutation_NoDup.
  - apply Permutation_map. symmetry. apply (all_entries_added _ c e l' Hl).
  - simpl. constructor; [|exact Hinv].
    unfold canonical at 1. rewrite He, trim_idempotent.
    apply isDuplicateUrl_false. exact Hd.
Qed.

Lemma deleteUrl_one_per_url (w : W) (u : jsstring) :
  one_per_url (urls (store w)) ->
  one_per_url (urls (store (snd (deleteUrl u w)))).
Proof.
  intros Hinv. destruct (deleteUrl_urls w u) as [-> | Hs]; [exact Hinv|].
  destruct (splice_first_split _ _ u Hs) as (l1 & x & l2 & H1 & H2).
  unfold one_per_url in *. rewrite H2. rewrite H1 in Hinv.
  rewrite map_app in *. simpl in Hinv.
  now apply NoDup_remove_1 in Hinv.
Qed.

Lemma cleanup_one_per_url (w : W) :
  one_per_url (urls (store w)) ->
  one_per_url (urls (store (snd (cleanup w)))).
Proof.
  intros Hinv. destruct (cleanup_urls w) as [-> | ->]; [exact Hinv|].
  unfold one_per_url in *. rewrite all_entries_sweep.
  now apply distinct_after_filter.
Qed.

End OnePerUrl.

Section BulkSave.
Import UrlStorage.

(** The entries that the loop of [saveUrls] accepts: those whose url the
    map does not hold, trimmed. *)
Lemma save_loop_accepts (newUrls acc : list UrlEntry) (n : nat) (w : W) :
  exists lg,
    save_loop newUrls acc n w =
    (Ret (acc ++ map trimmed
                   (filter (fun e => negb (isDuplicateUrl (urls (store w)) (url e))) newUrls),
          (n + List.length
                 (filter (fun e => negb (isDuplicateUrl (urls (store w)) (url e))) newUrls))%nat),
     set_log lg w).
Proof.
  revert acc n w; induction newUrls as [|e r IH]; intros acc n w; simpl.
  - exists (log w). unfold ret. rewrite app_nil_r, Nat.add_0_r. now destruct w.
  - unfold logWithTimestamp. unfold_eff.
    destruct (negb (isDuplicateUrl (urls (store w)) (url e))); simp_run.
    + destruct (IH (acc ++ [trimmed e]) (S n)
                  (set_log (log w ++ [(AddedNewUrl (url e), INFO)]) w)) as (lg & ->).
      exists lg. simp_run. rewrite <- app_assoc. simpl.
      now rewrite Nat.add_succ_r.
    + destruct (IH acc n (set_log (log w ++ [(SkippedDuplicate (url e), INFO)]) w))
        as (lg & ->).
      now exists lg.
Qed.

Lemma saveUrls_urls (w : W) (c : jsstring) (newUrls : list UrlEntry) :
  urls (store (snd (saveUrls c newUrls w))) = urls (store w) \/
  exists l',
    Permutation l'
      (match Map_get (urls (store w)) c with Some es => es | None => [] end
       ++ map trimmed
            (filter (fun e => negb (isDuplicateUrl (urls (store w)) (url e))) newUrls)) /\
    urls (store (snd (saveUrls c newUrls w))) = Map_set (urls (store w)) c l'.
Proof.
  unfold saveUrls, write_urls, set_urls, fs_writeFile, logWithTimestamp. unfold_eff.
  destruct (isInitialized (store w)); simp_run; [|now left].
  destruct (save_loop_accepts newUrls
              (match Map_get (urls (store w)) c with Some es => es | None => [] end) 0 w)
    as (lg & ->).
  simp_run. cbn [Nat.add].
  destruct (Nat.ltb 0 _); simp_run; [|now left].
  right. eexists. split; [apply js_sort_perm|].
  destruct (take_fault (faults (disk w))) as [[] rest]; reflexivity.
Qed.

Lemma all_entries_extended (m : UrlMap) (c : jsstring) (added l' : list UrlEntry) :
  Permutation l' (match Map_get m c with Some es => es | None => [] end ++ added) ->
  Permutation (all_entries (Map_set m c l')) (added ++ all_entries m).
Proof.
  intros Hl.
  destruct (all_entries_Map_set m c l') as (rest & H1 & H2).
  rewrite H2, Hl, H1, <- app_assoc.
  apply Permutation_app_swap_app.
Qed.

Lemma canonical_trimmed (e : UrlEntry) : canonical (trimmed e) = canonical e.
Proof. unfold canonical, trimmed. simpl. apply trim_idempotent. Qed.

(** [saveUrls] keeps the urls distinct when the entries it is given have
    distinct urls; it does not compare the entries of one call with each
    other. *)
Lemma saveUrls_one_per_url (w : W) (c : jsstring) (newUrls : list UrlEntry) :
  NoDup (map canonical newUrls) ->
  one_per_url (urls (store w)) ->
  one_per_url (urls (store (snd (saveUrls c newUrls w)))).
Proof.
  intros Hnew Hinv.
  destruct (saveUrls_urls w c newUrls) as [-> | (l' & Hl & ->)]; [exact Hinv|].
  unfold one_per_url.
  eapply Permutation_NoDup.
  - apply Permutation_map. symmetry. apply (all_entries_extended _ c _ l' Hl).
  - rewrite map_app, map_map.
    rewrite (map_ext _ canonical canonical_trimmed).
    apply NoDup_app.
    + now apply distinct_after_filter.
    + exact Hinv.
    + intros k Hk. apply in_map_iff in Hk as (e & <- & He).
      apply filter_In in He as [_ He]. apply negb_true_iff in He.
      now apply isDuplicateUrl_false.
Qed.

End BulkSave.

(** C5, as stated, fails for [UrlStore]: [addUrl] appends without a
    check, so the same URL added twice has two records side by side. *)
Lemma one_record_per_url_counterexample :
  map UrlStore.url
    (UrlStore.urls (UrlStore.data (store
       (snd (UrlStore.addUrl the_url (str "eve") (str "c1") None
          (snd (UrlStore.addUrl the_url (str "bob") (str "c1") None empty_store_world)))))))
  = [the_url; the_url].
Proof. reflexivity. Qed.

(** C5, amended.  In every state that a [UrlStorage] reaches from the
    empty map by [addUrl], by [saveUrls] of entries with distinct urls,
    by [deleteUrl] and by [cleanup], no two entries, in whatever
    channels, have the same trimmed url. *)
Theorem storage_one_record_per_url (w : UrlStorage.W) :
  storage_reachable w -> UrlStorage.one_per_url (UrlStorage.urls (store w)).
Proof.
  induction 1 as [w H | w w' Hreach IH Hstep].
  - rewrite H. constructor.
  - destruct Hstep as [w u who c th mid murl | w c newUrls Hnew | w u | w | w w' Heq].
    + now apply addUrl_one_per_url.
    + now apply saveUrls_one_per_url.
    + now apply deleteUrl_one_per_url.
    + now apply cleanup_one_per_url.
    + now rewrite Heq.
Qed.

Lemma storage_one_record_per_url_witness :
  UrlStorage.one_per_url (UrlStorage.urls (store twice_added)) /\
  map UrlStorage.url (UrlStorage.all_entries (UrlStorage.urls (store twice_added)))
  = [the_url].
Proof.
  split; [|reflexivity].
  apply storage_one_record_per_url.
  unfold twice_added.
  apply reach_step with (2 := step_addUrl _ _ _ _ _ _ _).
  apply reach_step with (2 := step_addUrl _ _ _ _ _ _ _).
  apply reach_empty. reflexivity.
Defined.

(** * Further properties of the stores and the trackers *)

(** ** [UrlStore]: [init] *)

Section UrlStoreInit.
Import UrlStore.

Lemma take_fault_tl (script : list bool) :
  take_fault script = (hd false script, tl script).
Proof. now destruct script. Qed.

(** [loadData] changes the store only when it returns, and never the
    files. *)
Lemma loadData_frame (w : W) :
  match loadData w with
  | (Ret _, w') => initialized (store w') = initialized (store w)
  | (Throw _, w') => store w' = store w
  end /\
  files (disk (snd (loadData w))) = files (disk w) /\
  log (snd (loadData w)) = log w.
Proof.
  unfold loadData, bind, fs_readFile. rewrite take_fault_tl.
  destruct (hd false (faults (disk w))); [now cbn|].
  destruct (file_at (files (disk w)) dataFile) as [[|j]|]; try (now cbn).
  unfold JSON_parse, ret. simp_run.
  destruct (data_of_json j); now cbn.
Qed.

End UrlStoreInit.

(** X1.  [init] on a data file that does not exist creates it: when the
    read and the write complete, [init] returns, the store is
    initialised with the data it had, the file holds that data, and the
    line 'Created new URL store' is logged. *)
Theorem UrlStore_init_creates_missing_file (w : UrlStore.W) :
  file_at (files (disk w)) UrlStore.dataFile = None ->
  hd false (faults (disk w)) = false ->
  hd false (tl (faults (disk w))) = false ->
  exists w',
    UrlStore.init w = (Ret tt, w') /\
    store w' = UrlStore.mkStore (UrlStore.data (store w)) true /\
    file_at (files (disk w')) UrlStore.dataFile
      = Some (Json (UrlStore.json_of_data (UrlStore.data (store w)))) /\
    log w' = log w ++ [(StoreCreated, INFO)].
Proof.
  intros Hf H1 H2.
  unfold UrlStore.init, try_catch, UrlStore.loadData, bind at 1 2, fs_readFile.
  rewrite take_fault_tl, H1, Hf.
  unfold UrlStore.saveData, bind, get_state, fs_writeFile. simp_run.
  rewrite take_fault_tl, H2.
  unfold UrlStore.set_initialized, logWithTimestamp, modify. simp_run.
  eexists. split; [reflexivity|]. simp_run.
  split; [reflexivity|]. split; [apply file_at_put_file | reflexivity].
Qed.

Lemma UrlStore_init_creates_missing_file_witness :
  exists w',
    UrlStore.init (mkWorld UrlStore.new (mkDisk [] []) 0 [] quiet_chat sample_env)
      = (Ret tt, w') /\
    store w' = UrlStore.mkStore (UrlStore.mkData []) true /\
    file_at (files (disk w')) UrlStore.dataFile
      = Some (Json (UrlStore.json_of_data (UrlStore.mkData []))) /\
    log w' = [(StoreCreated, INFO)].
Proof.
  apply (UrlStore_init_creates_missing_file
           (mkWorld UrlStore.new (mkDisk [] []) 0 [] quiet_chat sample_env));
    reflexivity.
Defined.

(** X2.  [init] is all or nothing: when it returns, the store is
    initialised; when it rejects, the store is as it was, flag and data,
    and no file has changed.  In particular a data file that cannot be
    parsed is left as it is. *)
Theorem UrlStore_init_all_or_nothing (w : UrlStore.W) :
  match UrlStore.init w with
  | (Ret _, w') => UrlStore.initialized (store w') = true
  | (Throw _, w') => store w' = store w /\ files (disk w') = files (disk w)
  end.
Proof.
  unfold UrlStore.init, try_catch, bind at 1.
  pose proof (loadData_frame w) as (Hs & Hf & _).
  destruct (UrlStore.loadData w) as [[[]|e] w1]; cbn [snd] in Hf.
  - reflexivity.
  - destruct e;
      try (unfold bind, logWithTimestamp, modify, throw; simp_run;
           split; assumption).
    unfold UrlStore.saveData, bind at 1 2, get_state, fs_writeFile.
    rewrite take_fault_tl.
    destruct (hd false (faults (disk w1))); simp_run.
    + split; assumption.
    + reflexivity.
Qed.

(** ** [UrlStore]: a data file that cannot be parsed *)

Section UrlStoreCorrupt.
Import UrlStore.

Lemma ensure_init_corrupt (w : W) :
  initialized (store w) = false ->
  file_at (files (disk w)) dataFile = Some Garbage ->
  hd false (faults (disk w)) = false ->
  ensure_init w =
  (Throw SyntaxError,
   set_log (log w ++ [(StoreInitError SyntaxError, ERROR)])
           (set_disk (mkDisk (files (disk w)) (tl (faults (disk w)))) w)).
Proof.
  intros Hi Hf Hq.
  unfold ensure_init, bind at 1, get_state. rewrite Hi.
  unfold init, try_catch, loadData, bind at 1 2, fs_readFile.
  rewrite take_fault_tl, Hq, Hf. reflexivity.
Qed.

End UrlStoreCorrupt.

(** X3.  A data file that cannot be parsed disables the tracker and is
    never overwritten: while the store is not initialised and the file
    is read as malformed, [processUrl] ends every URL with the outcome
    FAILED, records nothing, answers nothing and leaves the file as it
    is; the store stays uninitialised, so the next URL fares the same. *)
Theorem corrupt_data_file_fails_every_url (w : UrlStore.W) (u : jsstring) (m : Message) :
  UrlStore.initialized (store w) = false ->
  file_at (files (disk w)) UrlStore.dataFile = Some Garbage ->
  hd false (faults (disk w)) = false ->
  exists w',
    RepostTracker.processUrl u m w = (Ret (RepostTracker.FAILED SyntaxError), w') /\
    store w' = store w /\
    files (disk w') = files (disk w) /\
    chat w' = chat w.
Proof.
  intros Hi Hf Hq.
  unfold RepostTracker.processUrl, try_catch, bind at 1.
  unfold UrlStore.findUrlHistory, bind at 1.
  rewrite (ensure_init_corrupt w Hi Hf Hq).
  unfold bind, logWithTimestamp, modify, ret. simp_run.
  eexists. split; [reflexivity|]. simp_run. repeat split.
Qed.

Lemma corrupt_data_file_fails_every_url_witness :
  exists w',
    RepostTracker.processUrl the_url (post_by "bob")
      (mkWorld UrlStore.new (mkDisk [(UrlStore.dataFile, Garbage)] []) 0 []
               quiet_chat sample_env)
      = (Ret (RepostTracker.FAILED SyntaxError), w') /\
    store w' = UrlStore.new /\
    files (disk w') = [(UrlStore.dataFile, Garbage)] /\
    chat w' = quiet_chat.
Proof.
  apply (corrupt_data_file_fails_every_url
           (mkWorld UrlStore.new (mkDisk [(UrlStore.dataFile, Garbage)] []) 0 []
                    quiet_chat sample_env));
    reflexivity.
Defined.

(** ** [UrlStore]: [addUrl] and the lookups after it *)

Section UrlStoreAdd.
Import UrlStore.

Lemma history_other_url (u u' : jsstring) (es : list UrlEntry) (e : UrlEntry) :
  url e <> u' ->
  history u' (mkData (es ++ [e])) = history u' (mkData es).
Proof.
  intros Hne. unfold history. cbn [urls].
  rewrite filter_app. cbn [filter].
  rewrite (proj2 (jsstring_eqb_neq (url e) u') Hne).
  now rewrite app_nil_r.
Qed.

Lemma filter_none {A : Type} (p : A -> bool) (l : list A) :
  existsb p l = false -> filter p l = [].
Proof.
  induction l as [|x r IH]; simpl; [reflexivity|].
  destruct (p x); simpl; [discriminate | exact IH].
Qed.

Lemma history_new_url (es : list UrlEntry) (e : UrlEntry) :
  existsb (fun entry => JsString.eqb (url entry) (url e)) es = false ->
  history (url e) (mkData (es ++ [e])) = [e].
Proof.
  intros Hnew. unfold history. cbn [urls].
  rewrite filter_app, (filter_none _ _ Hnew). cbn [filter app].
  now rewrite jsstring_eqb_refl.
Qed.

End UrlStoreAdd.

(** X4.  What [addUrl] records, [findUrlHistory] finds: in an
    initialised store whose file can be written, [addUrl] of a URL that
    the store does not hold returns the new entry, stamped with the
    poster and the instant of the call, and a lookup of the URL then
    returns that entry; the lookup of any other URL answers as it did
    before the call. *)
Theorem UrlStore_addUrl_then_findUrlHistory
    (w : UrlStore.W) (u who c : jsstring) (th : option jsstring) :
  UrlStore.initialized (store w) = true ->
  hd false (faults (disk w)) = false ->
  existsb (fun entry => JsString.eqb (UrlStore.url entry) u)
          (UrlStore.urls (UrlStore.data (store w))) = false ->
  let e := UrlStore.mkEntry u who c th (clock w) in
  exists w1,
    UrlStore.addUrl u who c th w = (Ret e, w1) /\
    UrlStore.findUrlHistory u w1 = (Ret (Some e), w1) /\
    forall u', u' <> u ->
      fst (UrlStore.findUrlHistory u' w1) = fst (UrlStore.findUrlHistory u' w).
Proof.
  intros Hi Hq Hnew e.
  rewrite (addUrl_initialized w u who c th Hi), Hq.
  eexists. split; [reflexivity|]. split.
  - rewrite findUrlHistory_initialized by reflexivity. simp_run.
    cbn [UrlStore.data].
    pose proof (history_new_url _ (UrlStore.mkEntry u who c th (clock w)) Hnew) as Hh.
    cbn [UrlStore.url] in Hh. now rewrite Hh.
  - intros u' Hne.
    rewrite !findUrlHistory_initialized by (assumption || reflexivity).
    simp_run. cbn [fst UrlStore.data].
    rewrite history_other_url by (cbn; congruence).
    now destruct (UrlStore.data (store w)).
Qed.

Lemma UrlStore_addUrl_then_findUrlHistory_witness :
  let e := UrlStore.mkEntry other_url (str "bob") (str "c1") None 9000 in
  exists w1,
    UrlStore.addUrl other_url (str "bob") (str "c1") None sample_world = (Ret e, w1) /\
    UrlStore.findUrlHistory other_url w1 = (Ret (Some e), w1) /\
    forall u', u' <> other_url ->
      fst (UrlStore.findUrlHistory u' w1) = fst (UrlStore.findUrlHistory u' sample_world).
Proof.
  apply (UrlStore_addUrl_then_findUrlHistory sample_world other_url (str "bob") (str "c1") None);
    reflexivity.
Defined.

(** X5.  A write that fails leaves memory ahead of the file: in an
    initialised store, when the write of [addUrl] fails the call rejects
    with the error of the file system, no file changes, and yet the
    entry has been pushed, so that a lookup of a URL the store did not
    hold now finds the entry that was never written. *)
Theorem UrlStore_addUrl_failed_write_keeps_entry
    (w : UrlStore.W) (u who c : jsstring) (th : option jsstring) :
  UrlStore.initialized (store w) = true ->
  hd false (faults (disk w)) = true ->
  existsb (fun entry => JsString.eqb (UrlStore.url entry) u)
          (UrlStore.urls (UrlStore.data (store w))) = false ->
  exists w1,
    UrlStore.addUrl u who c th w = (Throw EIO, w1) /\
    files (disk w1) = files (disk w) /\
    UrlStore.findUrlHistory u w1
      = (Ret (Some (UrlStore.mkEntry u who c th (clock w))), w1).
Proof.
  intros Hi Hq Hnew.
  rewrite (addUrl_initialized w u who c th Hi), Hq.
  eexists. split; [reflexivity|]. split; [reflexivity|].
  rewrite findUrlHistory_initialized by reflexivity. simp_run.
  cbn [UrlStore.data].
  pose proof (history_new_url _ (UrlStore.mkEntry u who c th (clock w)) Hnew) as Hh.
  cbn [UrlStore.url] in Hh. now rewrite Hh.
Qed.

Lemma UrlStore_addUrl_failed_write_keeps_entry_witness :
  exists w1,
    UrlStore.addUrl other_url (str "bob") (str "c1") None
      (set_disk (mkDisk [] [true]) sample_world) = (Throw EIO, w1) /\
    files (disk w1) = [] /\
    UrlStore.findUrlHistory other_url w1
      = (Ret (Some (UrlStore.mkEntry other_url (str "bob") (str "c1") None 9000)), w1).
Proof.
  apply (UrlStore_addUrl_failed_write_keeps_entry
           (set_disk (mkDisk [] [true]) sample_world) other_url (str "bob") (str "c1") None);
    reflexivity.
Defined.

(** ** [UrlStore]: what a restart reads *)

Section UrlStoreRestart.
Import UrlStore.

(** [addUrl] returns only after the file has been written with the data
    of the store, the new entry last. *)
Lemma addUrl_returns (w w1 : W) (u who c : jsstring) (th : option jsstring) (e : UrlEntry) :
  addUrl u who c th w = (Ret e, w1) ->
  file_at (files (disk w1)) dataFile = Some (Json (json_of_data (data (store w1)))) /\
  exists before, urls (data (store w1)) = before ++ [e].
Proof.
  unfold addUrl, bind at 1.
  destruct (ensure_init w) as [[[]|e0] w0]; [|discriminate].
  unfold bind at 1 2, get_state, set_data, modify. simp_run.
  unfold bind at 1.
  destruct (saveData _) as [[[]|e1] w2] eqn:Hs; [|discriminate].
  apply saveData_inv in Hs as (Hst & Hfile & _).
  unfold ret. intros H. inversion H; subst; clear H.
  rewrite Hst, Hfile. cbn [store set_store data]. split; [reflexivity|].
  now eexists.
Qed.

End UrlStoreRestart.

(** X6.  What [addUrl] has written survives a restart: when [addUrl]
    returned, a new store on the same files, once the read of its
    [init] completes, holds exactly the data the old store held, the
    added entry included. *)
Theorem UrlStore_restart_reads_added_entry
    (w w1 : UrlStore.W) (u who c : jsstring) (th : option jsstring) (e : UrlStore.UrlEntry) :
  UrlStore.addUrl u who c th w = (Ret e, w1) ->
  hd false (faults (disk w1)) = false ->
  exists w2,
    UrlStore.init (set_store UrlStore.new w1) = (Ret tt, w2) /\
    UrlStore.data (store w2) = UrlStore.data (store w1) /\
    UrlStore.initialized (store w2) = true /\
    In e (UrlStore.urls (UrlStore.data (store w2))).
Proof.
  intros Hadd Hq.
  apply addUrl_returns in Hadd as (Hfile & before & Hlast).
  unfold UrlStore.init, try_catch, bind at 1.
  rewrite (loadData_written (set_store UrlStore.new w1) (UrlStore.data (store w1)))
    by assumption.
  unfold UrlStore.set_initialized, logWithTimestamp, bind, modify. simp_run.
  eexists. split; [reflexivity|]. simp_run. cbn [UrlStore.data UrlStore.initialized].
  split; [reflexivity|]. split; [reflexivity|].
  rewrite Hlast. apply in_or_app. right. now left.
Qed.

Lemma UrlStore_restart_reads_added_entry_witness :
  let e := UrlStore.mkEntry other_url (str "bob") (str "c1") None 9000 in
  let w1 := snd (UrlStore.addUrl other_url (str "bob") (str "c1") None sample_world) in
  exists w2,
    UrlStore.init (set_store UrlStore.new w1) = (Ret tt, w2) /\
    UrlStore.data (store w2) = UrlStore.data (store w1) /\
    UrlStore.initialized (store w2) = true /\
    In e (UrlStore.urls (UrlStore.data (store w2))).
Proof.
  intros e w1.
  apply (UrlStore_restart_reads_added_entry sample_world w1 other_url (str "bob") (str "c1")
           None e);
    reflexivity.
Defined.

(** ** [UrlStore]: [fetchChannelUrls] *)

Section SortedFacts.
Context {A : Type} (cmp : A -> A -> Z) (before : A -> A -> Prop).
Hypothesis before_trans : forall a b c, before a b -> before b c -> before a c.
Hypothesis cmp_le : forall a b, cmp a b <= 0 -> before a b.
Hypothesis cmp_gt : forall a b, 0 < cmp a b -> before b a.



Lemma js_sort_In (l : list A) (x : A) : In x (js_sort cmp l) <-> In x l.
Proof.
  split; apply Permutation_in; [|symmetry]; apply js_sort_perm.
Qed.

End SortedFacts.



(** ** The repost notice *)

Section Notice.
Import UrlStore RepostTracker.

(** [Math.ceil(T - postAge)] is [T - Math.floor(postAge)] for an
    integer [T]. *)
Lemma ceiling_of_remaining (T : Z) (postAge : Q) :
  Qceiling (inject_Z T - postAge) = T - Qfloor postAge.
Proof.
  destruct postAge as [n d].
  unfold Qceiling, Qfloor, Qminus, Qplus, Qopp, inject_Z.
  cbn [Qnum Qden].
  replace (- (T * Z.pos d + - n * 1)) with (n + - T * Z.pos d) by lia.
  rewrite Z.div_add by discriminate.
  change (Z.pos (1 * d)) with (Z.pos d). lia.
Qed.

End Notice.

(** X8.  The two numbers of the repost notice add up to the threshold:
    when [processUrl] blocks a post of a URL whose record [h] is not
    from the future, the notice says "Posted [hoursAgo] hours ago" and
    "Time remaining: [remaining] hours" with [hoursAgo] the whole hours
    since [h], [hoursAgo + remaining] the threshold, and neither number
    negative. *)
Theorem repost_notice_hours_add_up
    (w : UrlStore.W) (u : jsstring) (m : Message) (h : UrlStore.UrlEntry) (T : Z) :
  UrlStore.initialized (store w) = true ->
  hd_error (UrlStore.history u (UrlStore.data (store w))) = Some h ->
  URL_REPOST_THRESHOLD_HOURS (env w) = Some T ->
  UrlStore.timestamp h <= clock w ->
  clock w - UrlStore.timestamp h <= T * 3600000 ->
  send_faults (chat w) = [] ->
  exists w' same hoursAgo remaining,
    RepostTracker.processUrl u m w = (Ret (RepostTracker.BLOCKED same), w') /\
    replies (chat w') =
      replies (chat w) ++ [(msg_id m, RepostEmbed same hoursAgo (Some remaining))] /\
    hoursAgo = (clock w - UrlStore.timestamp h) / 3600000 /\
    hoursAgo + remaining = T /\
    0 <= hoursAgo /\
    0 <= remaining.
Proof.
  intros Hi Hh HT Hpast Hage Hs.
  destruct (processUrl_within_threshold w u m h T Hi Hh HT Hage)
    as (o & w' & Hrun & _ & _ & _ & Hsent).
  destruct (Hsent Hs) as [-> Hreplies].
  exists w', (JsString.eqb (UrlStore.userId h) (author_id m)),
    ((clock w - UrlStore.timestamp h) / 3600000),
    (T - (clock w - UrlStore.timestamp h) / 3600000).
  split; [exact Hrun|]. split.
  - rewrite Hreplies. unfold RepostTracker.createRepostEmbed.
    now rewrite ceiling_of_remaining.
  - split; [reflexivity|]. split; [lia|].
    split; [apply Z.div_pos; lia|].
    assert ((clock w - UrlStore.timestamp h) / 3600000 <= T * 3600000 / 3600000) as Hle
      by (apply Z.div_le_mono; lia).
    rewrite Z.div_mul in Hle by discriminate. lia.
Qed.

Lemma repost_notice_hours_add_up_witness :
  exists w' same hoursAgo remaining,
    RepostTracker.processUrl the_url (post_by "bob") (world_at 9000000)
      = (Ret (RepostTracker.BLOCKED same), w') /\
    replies (chat w') =
      replies (chat (world_at 9000000))
      ++ [(msg_id (post_by "bob"), RepostEmbed same hoursAgo (Some remaining))] /\
    hoursAgo = (clock (world_at 9000000) - UrlStore.timestamp original_post) / 3600000 /\
    hoursAgo + remaining = 24 /\
    0 <= hoursAgo /\
    0 <= remaining.
Proof.
  apply (repost_notice_hours_add_up (world_at 9000000) the_url (post_by "bob")
           original_post 24);
    try reflexivity; vm_compute; discriminate.
Defined.

(** X9.  A URL recorded as new is blocked for the next [T] hours: in an
    initialised store that does not hold the URL, with the file and the
    chat working, [processUrl] records the post as NEW, and a post of
    the same URL at any instant up to [T] hours later is BLOCKED, as the
    poster's own when its author is the first poster, and leaves the
    store as the first post left it. *)
Theorem new_url_then_repost_is_blocked
    (w : UrlStore.W) (u : jsstring) (m m' : Message) (T now : Z) :
  UrlStore.initialized (store w) = true ->
  faults (disk w) = [] ->
  send_faults (chat w) = [] ->
  existsb (fun entry => JsString.eqb (UrlStore.url entry) u)
          (UrlStore.urls (UrlStore.data (store w))) = false ->
  URL_REPOST_THRESHOLD_HOURS (env w) = Some T ->
  clock w <= now <= clock w + T * 3600000 ->
  exists w1 w2,
    RepostTracker.processUrl u m w = (Ret RepostTracker.NEW, w1) /\
    RepostTracker.processUrl u m'
      (mkWorld (store w1) (disk w1) now (log w1) (chat w1) (env w1))
      = (Ret (RepostTracker.BLOCKED (JsString.eqb (author_id m) (author_id m'))), w2) /\
    store w2 = store w1 /\
    UrlStore.urls (UrlStore.data (store w1))
      = UrlStore.urls (UrlStore.data (store w))
        ++ [UrlStore.mkEntry u (author_id m) (msg_channelId m)
              (RepostTracker.thread_of m) (clock w)].
Proof.
  intros Hi Hq Hs Hnew HT Hnow.
  set (e := UrlStore.mkEntry u (author_id m) (msg_channelId m)
              (RepostTracker.thread_of m) (clock w)).
  assert (UrlStore.history u (UrlStore.data (store w)) = []) as Hnone.
  { unfold UrlStore.history. now rewrite (filter_none _ _ Hnew). }
  assert (RepostTracker.processUrl u m w =
          (Ret RepostTracker.NEW,
           set_disk (mkDisk (put_file (files (disk w)) UrlStore.dataFile
                               (Json (UrlStore.json_of_data
                                        (UrlStore.mkData
                                           (UrlStore.urls (UrlStore.data (store w)) ++ [e])))))
                            [])
                    (set_store (UrlStore.mkStore
                                  (UrlStore.mkData
                                     (UrlStore.urls (UrlStore.data (store w)) ++ [e])) true)
                               w))) as Hfirst.
  { unfold RepostTracker.processUrl, try_catch, bind at 1.
    rewrite (findUrlHistory_initialized w u Hi), Hnone. cbn [hd_error].
    unfold bind at 1.
    rewrite (addUrl_initialized w _ _ _ _ Hi), Hq. reflexivity. }
  match type of Hfirst with _ = (_, ?x) => set (w1 := x) in Hfirst end.
  set (w1' := mkWorld (store w1) (disk w1) now (log w1) (chat w1) (env w1)).
  assert (hd_error (UrlStore.history u (UrlStore.data (store w1'))) = Some e) as Hh.
  { subst w1' w1. simp_run. cbn [UrlStore.data].
    pose proof (history_new_url _ e Hnew) as Hx. cbn [UrlStore.url e] in Hx.
    now rewrite Hx. }
  destruct (processUrl_within_threshold w1' u m' e T eq_refl Hh HT)
    as (o & w2 & Hrun & Hst & _ & _ & Hsent).
  { subst w1' w1 e. simp_run. cbn [UrlStore.timestamp]. lia. }
  destruct (Hsent Hs) as [-> _].
  exists w1, w2. split; [exact Hfirst|]. split; [exact Hrun|].
  split; [exact Hst | reflexivity].
Qed.

Lemma new_url_then_repost_is_blocked_witness :
  exists w1 w2,
    RepostTracker.processUrl the_url (post_by "bob") empty_store_world
      = (Ret RepostTracker.NEW, w1) /\
    RepostTracker.processUrl the_url (post_by "eve")
      (mkWorld (store w1) (disk w1) 3600000 (log w1) (chat w1) (env w1))
      = (Ret (RepostTracker.BLOCKED
                (JsString.eqb (author_id (post_by "bob")) (author_id (post_by "eve")))), w2) /\
    store w2 = store w1 /\
    UrlStore.urls (UrlStore.data (store w1))
      = UrlStore.urls (UrlStore.data (store empty_store_world))
        ++ [UrlStore.mkEntry the_url (author_id (post_by "bob"))
              (msg_channelId (post_by "bob"))
              (RepostTracker.thread_of (post_by "bob")) (clock empty_store_world)].
Proof.
  apply (new_url_then_repost_is_blocked empty_store_world the_url (post_by "bob")
           (post_by "eve") 24 3600000);
    try reflexivity.
  vm_compute. split; discriminate.
Defined.

(** ** [init] of the tracker over [UrlStore] *)

Section StoreFrame.
Import UrlStore.

(** [init] of the store touches neither the chat nor the environment
    nor the clock. *)
Lemma UrlStore_init_frame (w w' : W) (r : Res unit) :
  init w = (r, w') ->
  chat w' = chat w /\
  env w' = env w /\
  clock w' = clock w /\
  (r = Ret tt -> initialized (store w') = true).
Proof.
  unfold init, try_catch, loadData, bind at 1 2, fs_readFile.
  rewrite take_fault_tl.
  destruct (hd false (faults (disk w))).
  { unfold_eff. unfold logWithTimestamp, modify. simp_run.
    intros H; inversion H; subst; clear H.
    do 3 (split; [reflexivity|]). discriminate. }
  destruct (file_at (files (disk w)) dataFile) as [[|j]|].
  - unfold_eff. unfold JSON_parse, logWithTimestamp, throw, modify. simp_run.
    intros H; inversion H; subst; clear H.
    do 3 (split; [reflexivity|]). discriminate.
  - unfold_eff. unfold JSON_parse, set_data, set_initialized, logWithTimestamp, modify.
    unfold_eff.
    destruct (data_of_json j); simp_run;
      intros H; inversion H; subst; clear H;
      do 3 (split; [reflexivity|]); [intros _; reflexivity | discriminate].
  - unfold saveData, bind, get_state, fs_writeFile. simp_run.
    rewrite take_fault_tl.
    destruct (hd false (tl (faults (disk w))));
      unfold_eff; unfold set_initialized, logWithTimestamp, modify; simp_run;
      intros H; inversion H; subst; clear H;
      do 3 (split; [reflexivity|]); [discriminate | intros _; reflexivity].
Qed.

Lemma ensure_init_frame (w w' : W) (r : Res unit) :
  ensure_init w = (r, w') ->
  chat w' = chat w /\
  env w' = env w /\
  clock w' = clock w /\
  (r = Ret tt -> initialized (store w') = true).
Proof.
  unfold ensure_init, bind, get_state.
  destruct (initialized (store w)) eqn:Hi.
  - unfold ret. intros H; inversion H; subst; clear H. now repeat split.
  - apply UrlStore_init_frame.
Qed.

End StoreFrame.

(** X10.  [init] of the tracker returns only with a store that is
    initialised and an environment that names a main channel and gives
    a threshold that reads as a positive number; [processUrl] then never
    compares an age with a number that is NaN, zero or negative. *)
Theorem RepostTracker_init_validates (w w' : UrlStore.W) :
  RepostTracker.init w = (Ret tt, w') ->
  UrlStore.initialized (store w') = true /\
  env w' = env w /\
  (exists c cs, MAIN_CHANNEL_ID (env w) = Some (c :: cs)) /\
  (exists T, URL_REPOST_THRESHOLD_HOURS (env w) = Some T /\ 0 < T).
Proof.
  unfold RepostTracker.init, bind at 1.
  destruct (UrlStore.init w) as [[[]|e] w1] eqn:E; [|discriminate].
  apply UrlStore_init_frame in E as (_ & Henv & _ & Hinit).
  specialize (Hinit eq_refl).
  unfold RepostTracker.validateEnv, bind, get_state. rewrite Henv.
  destruct (MAIN_CHANNEL_ID (env w)) as [[|c cs]|]; try discriminate.
  destruct (threshold_set (env w)); [|discriminate]. cbn [orb negb].
  destruct (URL_REPOST_THRESHOLD_HOURS (env w)) as [T|]; [|discriminate].
  destruct (T <=? 0) eqn:E; [discriminate|].
  unfold ret. intros H. inversion H; subst; clear H.
  split; [exact Hinit|]. split; [exact Henv|].
  split; [now exists c, cs|].
  exists T. split; [reflexivity|]. now apply Z.leb_gt.
Qed.

Lemma RepostTracker_init_validates_witness :
  let w' := snd (RepostTracker.init unloaded_store_world) in
  UrlStore.initialized (store w') = true /\
  env w' = env unloaded_store_world /\
  (exists c cs, MAIN_CHANNEL_ID (env unloaded_store_world) = Some (c :: cs)) /\
  (exists T, URL_REPOST_THRESHOLD_HOURS (env unloaded_store_world) = Some T /\ 0 < T).
Proof.
  intros w'.
  apply (RepostTracker_init_validates unloaded_store_world w'). reflexivity.
Defined.

(** ** The command [!fetch links] *)

Section Command.
Import UrlStore RepostTracker.

Lemma fetchChannelUrls_frame (c : jsstring) (w w' : W) (r : Res (list UrlEntry)) :
  fetchChannelUrls c w = (r, w') -> chat w' = chat w.
Proof.
  unfold fetchChannelUrls, bind at 1.
  destruct (ensure_init w) as [[[]|e] w1] eqn:E;
    apply ensure_init_frame in E as (Hc & _);
    unfold_eff; intros H; inversion H; subst; exact Hc.
Qed.

Lemma fetchChannelUrls_initialized (c : jsstring) (w : W) :
  initialized (store w) = true ->
  exists l, fetchChannelUrls c w = (Ret l, w).
Proof.
  intros Hi. unfold fetchChannelUrls, bind at 1.
  rewrite (ensure_init_initialized w Hi). unfold_eff. now eexists.
Qed.

Lemma command_reply_sent (message : Message) (r : CommandReply) (cw : CommandWorld) :
  send_faults (chat (base cw)) = [] ->
  command_reply message r cw =
  (Ret tt,
   mkCommandWorld
     (set_chat (mkChat (replies (chat (base cw))) (removed (chat (base cw))) []
                       (channels_fetch (chat (base cw))) (messages_fetch (chat (base cw))))
               (base cw))
     (command_replies cw ++ [(msg_id message, r)])
     (command_errors cw)).
Proof.
  intros Hs. unfold command_reply. now rewrite Hs.
Qed.

Lemma split_spaces_word (word : jsstring) :
  forallb (fun x => negb (N.eqb x 32)) word = true -> split_spaces word = [word].
Proof.
  induction word as [|x r IH]; cbn [forallb split_spaces]; [reflexivity|].
  intros H. apply andb_true_iff in H as [Hx Hr].
  apply negb_true_iff in Hx. now rewrite Hx, (IH Hr).
Qed.

Lemma split_spaces_first (word rest : jsstring) :
  forallb (fun x => negb (N.eqb x 32)) word = true ->
  split_spaces (word ++ 32%N :: rest) = word :: split_spaces rest.
Proof.
  induction word as [|x r IH]; cbn [forallb split_spaces app]; [reflexivity|].
  intros H. apply andb_true_iff in H as [Hx Hr].
  apply negb_true_iff in Hx. now rewrite Hx, (IH Hr).
Qed.

Lemma shorten_length (u : jsstring) : (List.length (shorten u) <= 103)%nat.
Proof.
  unfold shorten. rewrite length_app.
  pose proof (firstn_le_length 100 u).
  destruct (Nat.ltb 100 (List.length u)); cbn [List.length str map list_ascii_of_string];
    rewrite length_firstn; lia.
Qed.

End Command.

(** X11.  [handleCommand] answers a command exactly once: while the
    chat delivers what is sent, a message whose text starts with
    '!fetch links' gets one reply and the call returns; the reply is
    the usage text exactly when the text does not split at its spaces
    into three parts, and the error text exactly when the text has
    three parts and [fetchChannelUrls] of the third rejected, in which
    case the error it rejected with is the one logged; otherwise no
    error is logged.  Nothing is sent through the embeds of the repost
    notices. *)
Theorem handleCommand_answers_once (cw : RepostTracker.CommandWorld) (m : Message) :
  RepostTracker.starts_with (str "!fetch links") (msg_content m) = true ->
  send_faults (chat (RepostTracker.base cw)) = [] ->
  exists r cw',
    RepostTracker.handleCommand m cw = (Ret tt, cw') /\
    RepostTracker.command_replies cw'
      = RepostTracker.command_replies cw ++ [(msg_id m, r)] /\
    replies (chat (RepostTracker.base cw')) = replies (chat (RepostTracker.base cw)) /\
    (r = RepostTracker.UsageText <->
     List.length (RepostTracker.split_spaces (msg_content m)) <> 3%nat) /\
    (r = RepostTracker.ErrorText <->
     exists e, RepostTracker.command_errors cw' = RepostTracker.command_errors cw ++ [e]) /\
    (r <> RepostTracker.ErrorText ->
     RepostTracker.command_errors cw' = RepostTracker.command_errors cw) /\
    (r = RepostTracker.ErrorText <->
     List.length (RepostTracker.split_spaces (msg_content m)) = 3%nat /\
     exists e w1,
       UrlStore.fetchChannelUrls
         (nth 2 (RepostTracker.split_spaces (msg_content m)) []) (RepostTracker.base cw)
       = (Throw e, w1) /\
       RepostTracker.command_errors cw' = RepostTracker.command_errors cw ++ [e]).
Proof.
  intros Hcmd Hs.
  unfold RepostTracker.handleCommand. rewrite Hcmd. cbn [negb].
  unfold try_catch.
  destruct (Nat.eqb (List.length (RepostTracker.split_spaces (msg_content m))) 3) eqn:Hn;
    cbn [negb].
  - apply Nat.eqb_eq in Hn.
    unfold bind at 1, RepostTracker.on_base.
    destruct (UrlStore.fetchChannelUrls
                (nth 2 (RepostTracker.split_spaces (msg_content m)) [])
                (RepostTracker.base cw)) as [[l|e] w1] eqn:Hrun;
      pose proof (fetchChannelUrls_frame _ _ _ _ Hrun) as Hf.
    + rewrite command_reply_sent by (cbn [RepostTracker.base]; now rewrite Hf).
      do 2 eexists. split; [reflexivity|].
      cbn [RepostTracker.command_replies RepostTracker.base RepostTracker.command_errors].
      simp_run. cbn [replies]. rewrite Hf.
      split; [reflexivity|]. split; [reflexivity|].
      split; [split; [discriminate | congruence]|].
      split; [|split; [reflexivity|]].
      * split; [discriminate|].
        intros [e He]. apply (f_equal (@List.length exn)) in He.
        rewrite length_app in He. cbn in He. lia.
      * split; [discriminate|].
        intros (_ & e & w1' & He & _). discriminate He.
    + unfold bind, modify. cbn [RepostTracker.base RepostTracker.command_replies
                                 RepostTracker.command_errors].
      rewrite command_reply_sent by (cbn [RepostTracker.base]; now rewrite Hf).
      do 2 eexists. split; [reflexivity|].
      cbn [RepostTracker.command_replies RepostTracker.base RepostTracker.command_errors].
      simp_run. cbn [replies]. rewrite Hf.
      split; [reflexivity|]. split; [reflexivity|].
      split; [split; [discriminate | congruence]|].
      split; [|split; [congruence|]].
      * split; [now exists e | reflexivity].
      * split; [|reflexivity].
        intros _. split; [exact Hn|]. exists e, w1. split; reflexivity.
  - apply Nat.eqb_neq in Hn.
    rewrite command_reply_sent by assumption.
    do 2 eexists. split; [reflexivity|].
    cbn [RepostTracker.command_replies RepostTracker.base RepostTracker.command_errors].
    simp_run. cbn [replies].
    split; [reflexivity|]. split; [reflexivity|].
    split; [split; [intros _; exact Hn | reflexivity]|].
    split; [|split; [reflexivity|]].
    + split; [discriminate|].
      intros [e He]. apply (f_equal (@List.length exn)) in He.
      rewrite length_app in He. cbn in He. lia.
    + split; [discriminate|].
      intros (H3 & _). contradiction.
Qed.

Lemma handleCommand_answers_once_witness :
  exists r cw',
    RepostTracker.handleCommand fetch_links_command command_world = (Ret tt, cw') /\
    RepostTracker.command_replies cw'
      = RepostTracker.command_replies command_world ++ [(msg_id fetch_links_command, r)] /\
    replies (chat (RepostTracker.base cw'))
      = replies (chat (RepostTracker.base command_world)) /\
    (r = RepostTracker.UsageText <->
     List.length (RepostTracker.split_spaces (msg_content fetch_links_command)) <> 3%nat) /\
    (r = RepostTracker.ErrorText <->
     exists e, RepostTracker.command_errors cw'
               = RepostTracker.command_errors command_world ++ [e]) /\
    (r <> RepostTracker.ErrorText ->
     RepostTracker.command_errors cw' = RepostTracker.command_errors command_world) /\
    (r = RepostTracker.ErrorText <->
     List.length (RepostTracker.split_spaces (msg_content fetch_links_command)) = 3%nat /\
     exists e w1,
       UrlStore.fetchChannelUrls
         (nth 2 (RepostTracker.split_spaces (msg_content fetch_links_command)) [])
         (RepostTracker.base command_world)
       = (Throw e, w1) /\
       RepostTracker.command_errors cw'
       = RepostTracker.command_errors command_world ++ [e]).
Proof.
  apply (handleCommand_answers_once command_world fetch_links_command); reflexivity.
Defined.

(** X12.  The listing of [handleCommand]: for the text '!fetch links '
    followed by a channel id without a space, in an initialised store
    and a chat that delivers, the reply is the embed whose "Found"
    number counts every entry that [fetchChannelUrls] returns for the
    channel, while its fields show the first ten of them at most, in
    the order of [fetchChannelUrls] (newest first), each url cut to 100
    code units plus the three dots; the store is not changed. *)
Theorem handleCommand_lists_first_ten
    (cw : RepostTracker.CommandWorld) (m : Message) (c : jsstring) :
  msg_content m = str "!fetch links " ++ c ->
  forallb (fun x => negb (N.eqb x 32)) c = true ->
  UrlStore.initialized (store (RepostTracker.base cw)) = true ->
  send_faults (chat (RepostTracker.base cw)) = [] ->
  exists l fields cw',
    UrlStore.fetchChannelUrls c (RepostTracker.base cw) = (Ret l, RepostTracker.base cw) /\
    RepostTracker.handleCommand m cw = (Ret tt, cw') /\
    RepostTracker.command_replies cw'
      = RepostTracker.command_replies cw
        ++ [(msg_id m, RepostTracker.HistoryEmbed (List.length l) fields)] /\
    map fst fields = map UrlStore.timestamp (firstn 10 l) /\
    List.length fields = Nat.min 10 (List.length l) /\
    Forall (fun f => (List.length (snd f) <= 103)%nat) fields /\
    (forall i e, nth_error l i = Some e -> (List.length (UrlStore.url e) <= 100)%nat ->
                 (i < 10)%nat -> nth_error fields i = Some (UrlStore.timestamp e, UrlStore.url e)) /\
    store (RepostTracker.base cw') = store (RepostTracker.base cw).
Proof.
  intros Hc Hword Hi Hs.
  assert (RepostTracker.split_spaces (msg_content m) = [str "!fetch"; str "links"; c]) as Hargs.
  { rewrite Hc.
    change (str "!fetch links " ++ c) with (str "!fetch" ++ 32%N :: (str "links" ++ 32%N :: c)).
    rewrite !split_spaces_first by reflexivity.
    now rewrite split_spaces_word. }
  destruct (fetchChannelUrls_initialized c (RepostTracker.base cw) Hi) as (l & Hl).
  exists l, (map RepostTracker.history_field (firstn 10 l)).
  unfold RepostTracker.handleCommand.
  assert (RepostTracker.starts_with (str "!fetch links") (msg_content m) = true) as ->
    by (now rewrite Hc).
  rewrite Hargs. cbn [negb List.length Nat.eqb nth].
  unfold try_catch, bind at 1, RepostTracker.on_base. rewrite Hl.
  rewrite command_reply_sent by exact Hs.
  eexists. split; [reflexivity|]. split; [reflexivity|].
  cbn [RepostTracker.command_replies RepostTracker.base]. simp_run.
  split; [reflexivity|].
  split; [now rewrite map_map|].
  split; [now rewrite length_map, length_firstn|].
  split.
  { apply Forall_forall. intros f Hf. apply in_map_iff in Hf as (e & <- & _).
    apply shorten_length. }
  split; [|reflexivity].
  intros i e He Hshort Hlt.
  rewrite nth_error_map, nth_error_firstn.
  apply Nat.ltb_lt in Hlt. rewrite Hlt, He. cbn [option_map].
  unfold RepostTracker.history_field, RepostTracker.shorten.
  rewrite firstn_all2 by exact Hshort.
  assert (Nat.ltb 100 (List.length (UrlStore.url e)) = false) as ->
    by (apply Nat.ltb_ge; exact Hshort).
  now rewrite app_nil_r.
Qed.

Lemma handleCommand_lists_first_ten_witness :
  exists l fields cw',
    UrlStore.fetchChannelUrls (str "c1") (RepostTracker.base command_world)
      = (Ret l, RepostTracker.base command_world) /\
    RepostTracker.handleCommand fetch_links_command command_world = (Ret tt, cw') /\
    RepostTracker.command_replies cw'
      = RepostTracker.command_replies command_world
        ++ [(msg_id fetch_links_command,
             RepostTracker.HistoryEmbed (List.length l) fields)] /\
    map fst fields = map UrlStore.timestamp (firstn 10 l) /\
    List.length fields = Nat.min 10 (List.length l) /\
    Forall (fun f => (List.length (snd f) <= 103)%nat) fields /\
    (forall i e, nth_error l i = Some e -> (List.length (UrlStore.url e) <= 100)%nat ->
                 (i < 10)%nat ->
                 nth_error fields i = Some (UrlStore.timestamp e, UrlStore.url e)) /\
    store (RepostTracker.base cw') = store (RepostTracker.base command_world).
Proof.
  apply (handleCommand_lists_first_ten command_world fetch_links_command (str "c1"));
    reflexivity.
Defined.

(** ** What the URL pattern matches *)

Section Matched.
Import UrlRegex.

(** [ok] is any property of characters that the classes and the literal
    characters of the pattern have. *)
Variable ok : N -> bool.
Hypothesis ok_host : forall c, host_char c = true -> ok c = true.
Hypothesis ok_tld : forall c, tld_char c = true -> ok c = true.
Hypothesis ok_path : forall c, path_char c = true -> ok c = true.
Hypothesis ok_lit :
  forall ci p c, In p (str "https://www.") -> lit ci p c = true -> ok c = true.

Lemma expect_piece (ci : bool) (pat s s' : jsstring) :
  incl pat (str "https://www.") ->
  expect ci pat s = Some s' ->
  exists u, s = u ++ s' /\ List.length u = List.length pat /\ forallb ok u = true.
Proof.
  revert s. induction pat as [|p pat IH]; intros s Hpat; cbn [expect].
  - intros H. inversion H; subst. now exists [].
  - destruct s as [|c s1]; [discriminate|].
    destruct (lit ci p c) eqn:Hc; [|discriminate].
    intros H. apply IH in H as (u & -> & Hlen & Hok).
    + exists (c :: u). cbn [List.length forallb app].
      rewrite Hlen, Hok, (ok_lit ci p c); [auto | apply Hpat; now left | exact Hc].
    + intros x Hx. apply Hpat. now right.
Qed.

Lemma run_le (cls : N -> bool) (limit : nat) (s : jsstring) :
  (run cls limit s <= List.length s)%nat.
Proof.
  revert s. induction limit as [|l IH]; intros [|c r]; cbn [run List.length]; try lia.
  destruct (cls c); [|lia]. specialize (IH r). lia.
Qed.

Lemma run_ok (cls : N -> bool) (limit : nat) (s : jsstring) :
  (forall c, cls c = true -> ok c = true) ->
  forallb ok (firstn (run cls limit s) s) = true.
Proof.
  intros Hcls. revert s.
  induction limit as [|l IH]; intros [|c r]; cbn [run firstn forallb]; try reflexivity.
  destruct (cls c) eqn:Hc; cbn [firstn forallb]; [|reflexivity].
  now rewrite (Hcls c Hc), IH.
Qed.

Lemma shorter_prefix_ok (m : nat) (s : jsstring) :
  forallb ok (firstn (S m) s) = true -> forallb ok (firstn m s) = true.
Proof.
  revert s. induction m as [|m IH]; intros [|c r]; cbn [firstn forallb]; try reflexivity.
  intros H. apply andb_true_iff in H as [Hc Hr].
  rewrite Hc. cbn [andb]. now apply IH.
Qed.

Lemma tld_and_path_piece (s : jsstring) (m k : nat) :
  tld_and_path s m = Some k ->
  (m <= List.length s)%nat ->
  forallb ok (firstn m s) = true ->
  exists u rest,
    s = u ++ rest /\ List.length u = k /\ (1 <= k)%nat /\ forallb ok u = true.
Proof.
  induction m as [|m IH]; cbn [tld_and_path]; [discriminate|].
  intros H Hm Hok.
  destruct (boundary (nth m s 0%N) (nth_error s (S m))).
  - inversion H; subst; clear H.
    set (tail := skipn (S m) s) in *.
    exists (firstn (S m) s ++ firstn (run path_char (List.length s) tail) tail),
      (skipn (run path_char (List.length s) tail) tail).
    split.
    { rewrite <- app_assoc, firstn_skipn. subst tail. now rewrite firstn_skipn. }
    split.
    { rewrite length_app, !firstn_length_le; [reflexivity | apply run_le | exact Hm]. }
    split; [lia|].
    rewrite forallb_app, Hok. now rewrite (run_ok path_char _ tail ok_path).
  - apply IH; [exact H | lia | now apply shorter_prefix_ok].
Qed.

Lemma host_and_rest_piece (s : jsstring) (n k : nat) :
  host_and_rest s n = Some k ->
  (n <= List.length s)%nat ->
  forallb ok (firstn n s) = true ->
  exists u rest,
    s = u ++ rest /\ List.length u = k /\ (3 <= k)%nat /\ forallb ok u = true.
Proof.
  induction n as [|n IH]; cbn [host_and_rest]; [discriminate|].
  intros H Hn Hok.
  assert (host_and_rest s n = Some k ->
          exists u rest,
            s = u ++ rest /\ List.length u = k /\ (3 <= k)%nat /\ forallb ok u = true)
    as Hless.
  { intros H'. apply IH; [exact H' | lia | now apply shorter_prefix_ok]. }
  destruct (skipn (S n) s) as [|c rest0] eqn:Hskip; [now apply Hless|].
  destruct (N.eq_dec c 46) as [->|Hc].
  - destruct (tld_and_path rest0 (run tld_char 6 rest0)) as [k'|] eqn:Ht.
    + inversion H; subst; clear H.
      apply tld_and_path_piece in Ht as (u' & rest & Hsplit & Hlen & Hk & Hok');
        [| apply run_le | now apply run_ok].
      exists (firstn (S n) s ++ 46%N :: u'), rest.
      split.
      { rewrite <- app_assoc. cbn [app]. rewrite <- Hsplit, <- Hskip.
        now rewrite firstn_skipn. }
      split.
      { rewrite length_app, firstn_length_le by exact Hn.
        cbn [List.length]. lia. }
      split; [lia|].
      rewrite forallb_app, Hok. cbn [forallb andb].
      now rewrite Hok', (ok_host 46%N eq_refl).
    + now apply Hless.
  - apply Hless.
    destruct c as [|p]; [exact H|].
    repeat (destruct p as [p|p|]; try exact H).
    contradiction.
Qed.

Lemma after_www_piece (s : jsstring) (k : nat) :
  after_www s = Some k ->
  exists u rest,
    s = u ++ rest /\ List.length u = k /\ (3 <= k)%nat /\ forallb ok u = true.
Proof.
  unfold after_www. intros H.
  apply host_and_rest_piece in H; [exact H | apply run_le | now apply run_ok].
Qed.

Lemma after_scheme_piece (ci : bool) (s : jsstring) (k : nat) :
  after_scheme ci s = Some k ->
  exists u rest,
    s = u ++ rest /\ List.length u = k /\ (3 <= k)%nat /\ forallb ok u = true.
Proof.
  unfold after_scheme.
  destruct (expect ci (str "www.") s) as [s'|] eqn:Hw; [|apply after_www_piece].
  destruct (after_www s') as [k'|] eqn:Ha; [|apply after_www_piece].
  intros H. inversion H; subst; clear H.
  apply expect_piece in Hw as (p & -> & Hp & Hokp);
    [|intros x Hx; vm_compute in Hx |- *; tauto].
  apply after_www_piece in Ha as (u & rest & -> & Hlen & Hk & Hok).
  exists (p ++ u), rest.
  rewrite app_assoc, length_app, forallb_app, Hp, Hlen, Hokp, Hok.
  repeat split. cbn. lia.
Qed.

Lemma after_s_piece (ci : bool) (s : jsstring) (k : nat) :
  after_s ci s = Some k ->
  exists u rest,
    s = u ++ rest /\ List.length u = k /\ (6 <= k)%nat /\ forallb ok u = true.
Proof.
  unfold after_s.
  destruct (expect ci (str "://") s) as [s'|] eqn:Hw; [|discriminate].
  destruct (after_scheme ci s') as [k'|] eqn:Ha; [|discriminate].
  intros H. inversion H; subst; clear H.
  apply expect_piece in Hw as (p & -> & Hp & Hokp);
    [|intros x Hx; vm_compute in Hx |- *; tauto].
  apply after_scheme_piece in Ha as (u & rest & -> & Hlen & Hk & Hok).
  exists (p ++ u), rest.
  rewrite app_assoc, length_app, forallb_app, Hp, Hlen, Hokp, Hok.
  repeat split. cbn. lia.
Qed.

(** A match is a prefix of the text it starts at, of ten characters at
    least, all of them [ok]. *)
Lemma exec_piece (ci : bool) (s : jsstring) (len : nat) :
  exec ci s = Some len ->
  exists u rest,
    s = u ++ rest /\ List.length u = len /\ (10 <= len)%nat /\ forallb ok u = true.
Proof.
  unfold exec.
  destruct (expect ci (str "http") s) as [s1|] eqn:Hh; [|discriminate].
  apply expect_piece in Hh as (p & -> & Hp & Hokp);
    [|intros x Hx; vm_compute in Hx |- *; tauto].
  assert (forall k, after_s ci s1 = Some k -> Some (4 + k)%nat = Some len ->
          exists u rest,
            p ++ s1 = u ++ rest /\ List.length u = len /\ (10 <= len)%nat /\
            forallb ok u = true) as Hplain.
  { intros k Ha H. inversion H; subst; clear H.
    apply after_s_piece in Ha as (u & rest & -> & Hlen & Hk & Hok).
    exists (p ++ u), rest.
    rewrite app_assoc, length_app, forallb_app, Hp, Hlen, Hokp, Hok.
    repeat split. cbn. lia. }
  destruct (expect ci (str "s") s1) as [s2|] eqn:Hs.
  - destruct (after_s ci s2) as [k|] eqn:Ha.
    + intros H. inversion H; subst; clear H.
      apply expect_piece in Hs as (q & -> & Hq & Hokq);
        [|intros x Hx; vm_compute in Hx |- *; tauto].
      apply after_s_piece in Ha as (u & rest & -> & Hlen & Hk & Hok).
      exists (p ++ q ++ u), rest.
      rewrite !app_assoc, !length_app, !forallb_app, Hp, Hq, Hlen, Hokp, Hokq, Hok.
      repeat split. cbn. lia.
    + destruct (after_s ci s1) as [k|] eqn:Ha1; [|discriminate].
      now apply Hplain.
  - destruct (after_s ci s1) as [k|] eqn:Ha1; [|discriminate].
    now apply Hplain.
Qed.

Lemma scan_piece (ci : bool) (fuel : nat) (s u : jsstring) :
  In u (scan ci fuel s) ->
  (exists a b, s = a ++ u ++ b) /\ (10 <= List.length u)%nat /\ forallb ok u = true.
Proof.
  revert s. induction fuel as [|f IH]; intros s; cbn [scan]; [contradiction|].
  destruct s as [|c r]; [contradiction|].
  destruct (exec ci (c :: r)) as [len|] eqn:He.
  - apply exec_piece in He as (v & rest & Hs & Hlen & Hten & Hok).
    rewrite Hs.
    assert (firstn len (v ++ rest) = v) as ->.
    { rewrite <- Hlen, <- (Nat.add_0_r (List.length v)), firstn_app_2.
      cbn [firstn]. apply app_nil_r. }
    assert (skipn len (v ++ rest) = rest) as ->.
    { rewrite <- Hlen. clear. induction v; [reflexivity | exact IHv]. }
    intros [<-|Hin].
    + split; [now exists [], rest|]. split; [lia | exact Hok].
    + apply IH in Hin as ((a & b & ->) & Hrest).
      split; [|exact Hrest].
      exists (v ++ a), b. now rewrite <- app_assoc.
  - intros Hin. apply IH in Hin as ((a & b & ->) & Hrest).
    split; [|exact Hrest].
    now exists (c :: a), b.
Qed.

End Matched.

Section Clean.
Import UrlRegex.

Lemma alnum_not_whitespace (c : N) : is_alnum c = true -> is_whitespace c = false.
Proof.
  unfold is_alnum, in_range. intros H.
  destruct (is_whitespace c) eqn:E; [exfalso | reflexivity].
  unfold is_whitespace in E.
  repeat rewrite ?orb_true_iff, ?andb_true_iff, ?N.leb_le, ?N.eqb_eq in H.
  repeat rewrite ?orb_true_iff, ?andb_true_iff, ?N.leb_le, ?N.eqb_eq in E.
  lia.
Qed.

Lemma one_of_not_whitespace (cs : string) (c : N) :
  forallb (fun x => negb (is_whitespace x)) (str cs) = true ->
  one_of cs c = true -> is_whitespace c = false.
Proof.
  unfold one_of. intros Hcs H.
  apply existsb_exists in H as (x & Hx & E). apply N.eqb_eq in E. subst x.
  rewrite forallb_forall in Hcs. apply Hcs in Hx. now apply negb_true_iff.
Qed.

Lemma host_char_not_whitespace (c : N) : host_char c = true -> is_whitespace c = false.
Proof.
  unfold host_char. intros H. apply orb_true_iff in H as [H|H].
  - now apply alnum_not_whitespace.
  - now apply (one_of_not_whitespace "-@:%._+~#=").
Qed.

Lemma tld_char_not_whitespace (c : N) : tld_char c = true -> is_whitespace c = false.
Proof.
  unfold tld_char. intros H. apply orb_true_iff in H as [H|H].
  - now apply alnum_not_whitespace.
  - now apply (one_of_not_whitespace "()").
Qed.

Lemma path_char_not_whitespace (c : N) : path_char c = true -> is_whitespace c = false.
Proof.
  unfold path_char. intros H. apply orb_true_iff in H as [H|H].
  - now apply alnum_not_whitespace.
  - now apply (one_of_not_whitespace "-()@:%_+.~#?&/=").
Qed.

Lemma lit_not_whitespace (ci : bool) (p c : N) :
  In p (str "https://www.") -> lit ci p c = true -> is_whitespace c = false.
Proof.
  unfold lit, in_range. intros Hp H.
  apply orb_true_iff in H as [H|H].
  - apply N.eqb_eq in H. subst c.
    vm_compute in Hp. repeat (destruct Hp as [<-|Hp]; [reflexivity|]). contradiction.
  - apply alnum_not_whitespace. unfold is_alnum, in_range.
    repeat rewrite ?andb_true_iff in H. destruct H as [[_ [H1 H2]] _].
    rewrite H1, H2. cbn [andb]. now rewrite orb_true_r.
Qed.

(** Every match of the pattern is free of white space. *)
Lemma matches_no_whitespace (ci : bool) (text u : jsstring) :
  In u (matches ci text) ->
  forallb (fun c => negb (is_whitespace c)) u = true.
Proof.
  intros Hin. unfold matches in Hin.
  apply (scan_piece (fun c => negb (is_whitespace c))) in Hin; [tauto|..].
  - intros c H. now rewrite host_char_not_whitespace.
  - intros c H. now rewrite tld_char_not_whitespace.
  - intros c H. now rewrite path_char_not_whitespace.
  - intros ci' p c Hp H. now rewrite (lit_not_whitespace ci' p c).
Qed.

Lemma trimEnd_clean (u : jsstring) :
  forallb (fun c => negb (is_whitespace c)) u = true -> trimEnd u = u.
Proof.
  induction u as [|c r IH]; [reflexivity|].
  cbn [forallb]. intros H. apply andb_true_iff in H as [Hc Hr].
  apply negb_true_iff in Hc.
  rewrite trimEnd_cons, (IH Hr), Hc. now destruct r.
Qed.

Lemma trim_clean (u : jsstring) :
  forallb (fun c => negb (is_whitespace c)) u = true -> trim u = u.
Proof.
  intros H. unfold trim.
  assert (trimStart u = u) as ->.
  { destruct u as [|c r]; [reflexivity|].
    cbn [forallb] in H. apply andb_true_iff in H as [Hc _].
    apply negb_true_iff in Hc. cbn [trimStart]. now rewrite Hc. }
  now apply trimEnd_clean.
Qed.

Lemma matches_trim (ci : bool) (text u : jsstring) :
  In u (matches ci text) -> trim u = u.
Proof.
  intros Hin. apply trim_clean. now apply (matches_no_whitespace ci text).
Qed.

End Clean.

(** X13.  Every URL the pattern finds is a piece of the text of ten
    code units at least, with or without the flag [i]: the shortest
    match is the scheme, one character of host, the dot and one
    character after it. *)
Theorem url_match_is_piece_of_text (ci : bool) (text u : jsstring) :
  In u (UrlRegex.matches ci text) ->
  (exists a b, text = a ++ u ++ b) /\ (10 <= List.length u)%nat.
Proof.
  intros Hin. unfold UrlRegex.matches in Hin.
  apply (scan_piece (fun _ => true)) in Hin; try reflexivity.
  tauto.
Qed.

Lemma url_match_is_piece_of_text_witness :
  (exists a b, str "look: https://a.io" = a ++ the_url ++ b) /\
  (10 <= List.length the_url)%nat.
Proof.
  apply (url_match_is_piece_of_text true (str "look: https://a.io") the_url).
  vm_compute. now left.
Defined.

(** X14.  No URL the pattern finds holds white space, so [trim] leaves
    it as it is: the url that [UrlStorage.addUrl] and [saveUrls] store
    for a match, and the url their duplicate checks compare, is the
    match itself. *)
Theorem url_match_is_trimmed (ci : bool) (text u : jsstring) :
  In u (UrlRegex.matches ci text) ->
  forallb (fun c => negb (is_whitespace c)) u = true /\
  trim u = u /\
  (forall e, UrlStorage.url e = u -> UrlStorage.trimmed e = e) /\
  (forall entry,
     UrlStorage.same_url u entry = JsString.eqb (trim (UrlStorage.url entry)) u).
Proof.
  intros Hin.
  pose proof (matches_no_whitespace ci text u Hin) as Hclean.
  pose proof (trim_clean u Hclean) as Htrim.
  split; [exact Hclean|]. split; [exact Htrim|]. split.
  - intros [u' ? ? ? ? ? ? ? ?] Hu. cbn [UrlStorage.url] in Hu. subst u'.
    unfold UrlStorage.trimmed. cbn [UrlStorage.url]. now rewrite Htrim.
  - intros entry. unfold UrlStorage.same_url. now rewrite Htrim.
Qed.

Lemma url_match_is_trimmed_witness :
  forallb (fun c => negb (is_whitespace c)) the_url = true /\
  trim the_url = the_url /\
  (forall e, UrlStorage.url e = the_url -> UrlStorage.trimmed e = e) /\
  (forall entry,
     UrlStorage.same_url the_url entry
     = JsString.eqb (trim (UrlStorage.url entry)) the_url).
Proof.
  apply (url_match_is_trimmed true (str "look: https://a.io") the_url).
  vm_compute. now left.
Defined.

(** ** [UrlStorage]: [init] *)

Section StorageInit.
Import UrlStorage.

(** [init] run to its end: what it returns and leaves, by the main
    channel id, the outcome of the read and the document read. *)
Lemma UrlStorage_init_run (w : W) :
  exists w',
    init w = (Ret tt, w') /\
    files (disk w') = files (disk w) /\
    chat w' = chat w /\ env w' = env w /\ clock w' = clock w /\
    ((isInitialized (store w') = false /\ urls (store w') = [] /\
      exists e, log w' = log w ++ [(StorageInitError e, ERROR)]) \/
     (isInitialized (store w') = true /\
      log w' = log w ++ [(StorageInitialized, STARTUP)] /\
      exists id, MAIN_CHANNEL_ID (env w) = Some id /\ id <> [] /\
                 storageFile (store w') = str "URL_DB_" ++ id ++ str ".json" /\
                 ((hd false (faults (disk w)) = true \/
                   file_at (files (disk w)) (storageFile (store w')) = None) ->
                  urls (store w') = urls (store w)))).
Proof.
  unfold init, try_catch, bind at 1, get_state.
  destruct (MAIN_CHANNEL_ID (env w)) as [[|c id]|] eqn:Hid.
  1, 3: unfold_eff; unfold logWithTimestamp, set_urls, set_isInitialized, modify; simp_run;
    eexists; split; [reflexivity|]; simp_run;
    do 4 (split; [reflexivity|]); left; cbn [isInitialized urls];
    split; [reflexivity|]; split; [reflexivity|]; now eexists.
  unfold set_storageFile, fs_readFile. unfold_eff.
  rewrite take_fault_tl.
  set (file := str "URL_DB_" ++ (c :: id) ++ str ".json").
  destruct (hd false (faults (disk w))) eqn:Hq; simp_run.
  - unfold JSON_parse, set_urls, set_isInitialized, logWithTimestamp, modify. unfold_eff.
    cbn [entries_of_json map all_some fold_left].
    eexists. split; [reflexivity|]. simp_run.
    do 4 (split; [reflexivity|]). right. cbn [isInitialized urls storageFile].
    split; [reflexivity|]. split; [reflexivity|].
    exists (c :: id). split; [reflexivity|]. split; [discriminate|].
    split; [reflexivity|]. reflexivity.
  - destruct (file_at (files (disk w)) file) as [[|j]|] eqn:Hf; simp_run.
    + unfold JSON_parse, set_urls, set_isInitialized, logWithTimestamp, modify. unfold_eff.
      eexists. split; [reflexivity|]. simp_run.
      do 4 (split; [reflexivity|]). left. cbn [isInitialized urls].
      split; [reflexivity|]. split; [reflexivity|]. now eexists.
    + unfold JSON_parse, set_urls, set_isInitialized, logWithTimestamp, modify. unfold_eff.
      destruct (entries_of_json j) as [entries|]; simp_run.
      * eexists. split; [reflexivity|]. simp_run.
        do 4 (split; [reflexivity|]). right. cbn [isInitialized urls storageFile].
        split; [reflexivity|]. split; [reflexivity|].
        exists (c :: id). split; [reflexivity|]. split; [discriminate|].
        split; [reflexivity|].
        fold file. rewrite Hf. intros [H|H]; discriminate.
      * eexists. split; [reflexivity|]. simp_run.
        do 4 (split; [reflexivity|]). left. cbn [isInitialized urls].
        split; [reflexivity|]. split; [reflexivity|]. now eexists.
    + unfold JSON_parse, set_urls, set_isInitialized, logWithTimestamp, modify. unfold_eff.
      cbn [entries_of_json map all_some fold_left].
      eexists. split; [reflexivity|]. simp_run.
      do 4 (split; [reflexivity|]). right. cbn [isInitialized urls storageFile].
      split; [reflexivity|]. split; [reflexivity|].
      exists (c :: id). split; [reflexivity|]. split; [discriminate|].
      split; [reflexivity|]. reflexivity.
Qed.

End StorageInit.

(** ** [UrlStorage]: [addUrl] run to its end *)

Section StorageAdd.
Import UrlStorage.

Lemma same_url_trim (u : jsstring) (e : UrlEntry) : same_url (trim u) e = same_url u e.
Proof. unfold same_url. now rewrite trim_idempotent. Qed.

Lemma isDuplicateUrl_trim (m : UrlMap) (u : jsstring) :
  isDuplicateUrl m (trim u) = isDuplicateUrl m u.
Proof.
  unfold isDuplicateUrl. induction m as [|[k v] r IH]; cbn [existsb snd]; [reflexivity|].
  rewrite IH. f_equal.
  induction v as [|e v IHv]; cbn [existsb]; [reflexivity|].
  now rewrite same_url_trim, IHv.
Qed.

Lemma find_in_channels_trim (m : UrlMap) (u : jsstring) :
  find_in_channels m (trim u) = find_in_channels m u.
Proof.
  induction m as [|[k v] r IH]; cbn [find_in_channels]; [reflexivity|].
  rewrite IH.
  assert (find (same_url (trim u)) v = find (same_url u) v) as ->; [|reflexivity].
  induction v as [|e v IHv]; cbn [find]; [reflexivity|].
  now rewrite same_url_trim, IHv.
Qed.

(** The entry that [addUrl] builds. *)
Lemma addUrl_run (w : W) (u : jsstring) (who : jsval) (c : jsstring) (th mid murl : jsval) :
  isInitialized (store w) = true ->
  isDuplicateUrl (urls (store w)) u = false ->
  let e := mkEntry (trim u) who Undefined Undefined (Str c)
             (match th with Undefined => Null | v => v end) mid murl (clock w) in
  let m' := Map_set (urls (store w)) c
              (js_sort newest_first
                 (match Map_get (urls (store w)) c with Some es => es | None => [] end
                  ++ [e])) in
  exists w',
    addUrl u who c th mid murl w
      = (Ret (if hd false (faults (disk w)) then None else Some e), w') /\
    store w' = mkStorage m' (storageFile (store w)) true /\
    files (disk w')
      = (if hd false (faults (disk w)) then files (disk w)
         else put_file (files (disk w)) (storageFile (store w)) (Json (json_of_urls m'))) /\
    faults (disk w') = tl (faults (disk w)) /\
    chat w' = chat w /\ env w' = env w /\ clock w' = clock w /\
    (hd false (faults (disk w)) = true -> In (ErrorSavingUrls EIO, ERROR) (log w')).
Proof.
  intros Hi Hd e m'.
  assert (isDuplicateUrl (urls (store w)) (trim u) = false) as Hd'
    by (now rewrite isDuplicateUrl_trim).
  unfold addUrl, saveUrls, save_loop, write_urls, set_urls, fs_writeFile, logWithTimestamp.
  unfold_eff.
  repeat (progress (rewrite ?Hi, ?Hd'; simp_run; cbn [url])).
  cbn [Nat.ltb Nat.leb]. simp_run.
  unfold trimmed. cbn [url userId author threadName channelId threadId messageId messageUrl
                         timestamp].
  rewrite trim_idempotent. fold e. cbn [urls storageFile]. fold m'.
  rewrite take_fault_tl.
  destruct (hd false (faults (disk w))); simp_run; cbn [Nat.ltb Nat.leb]; simp_run.
  - eexists. split; [reflexivity|]. simp_run. cbn [isInitialized storageFile].
    rewrite Hi.
    split; [reflexivity|]. do 5 (split; [reflexivity|]).
    intros _. apply in_or_app. right. now left.
  - eexists. split; [reflexivity|]. simp_run. cbn [isInitialized storageFile].
    rewrite Hi.
    split; [reflexivity|]. do 5 (split; [reflexivity|]).
    discriminate.
Qed.

Lemma find_only (p : UrlEntry -> bool) (l : list UrlEntry) (e : UrlEntry) :
  (forall x, In x l -> p x = true -> x = e) ->
  In e l -> p e = true -> find p l = Some e.
Proof.
  induction l as [|x r IH]; cbn [find In]; [contradiction|].
  intros Hall Hin He.
  destruct (p x) eqn:Hx.
  - f_equal. apply Hall; [now left | exact Hx].
  - destruct Hin as [->|Hin]; [congruence|].
    apply IH; [|exact Hin | exact He].
    intros y Hy. apply Hall. now right.
Qed.

Lemma find_none (p : UrlEntry -> bool) (l : list UrlEntry) :
  existsb p l = false <-> find p l = None.
Proof.
  induction l as [|x r IH]; cbn [find existsb]; [tauto|].
  destruct (p x); cbn [orb]; [split; discriminate | exact IH].
Qed.

(** [isDuplicateUrl] and the search of [findUrlHistory] agree. *)
Lemma find_in_channels_none (m : UrlMap) (u : jsstring) :
  isDuplicateUrl m u = false <-> find_in_channels m u = None.
Proof.
  unfold isDuplicateUrl.
  induction m as [|[k v] r IH]; cbn [existsb find_in_channels snd]; [tauto|].
  rewrite orb_false_iff, find_none, IH.
  destruct (find (same_url u) v); [split; [intros [? _]|]; discriminate | tauto].
Qed.

Lemma find_in_channels_Map_set (m : UrlMap) (u c : jsstring) (l' : list UrlEntry)
    (e : UrlEntry) :
  isDuplicateUrl m u = false ->
  find (same_url u) l' = Some e ->
  find_in_channels (Map_set m c l') u = Some (c, e).
Proof.
  unfold isDuplicateUrl. intros Hd Hf.
  induction m as [|[k v] r IH]; cbn [Map_set find_in_channels].
  - now rewrite Hf.
  - cbn [existsb snd] in Hd. apply orb_false_iff in Hd as [Hv Hr].
    destruct (JsString.eqb k c) eqn:E; cbn [find_in_channels].
    + apply jsstring_eqb_eq in E. subst k. now rewrite Hf.
    + rewrite (proj1 (find_none _ _) Hv). now apply IH.
Qed.

(** After [addUrl] the search finds the entry added, in its channel. *)
Lemma find_added (m : UrlMap) (u c : jsstring) (e : UrlEntry) :
  isDuplicateUrl m u = false ->
  same_url u e = true ->
  find_in_channels
    (Map_set m c
       (js_sort newest_first
          (match Map_get m c with Some es => es | None => [] end ++ [e]))) u
  = Some (c, e).
Proof.
  intros Hd He. apply find_in_channels_Map_set; [exact Hd|].
  apply find_only; [| |exact He].
  - intros x Hx Hp. apply js_sort_In in Hx. apply in_app_or in Hx as [Hx|[->|[]]];
      [exfalso | reflexivity].
    destruct (Map_get m c) as [es|] eqn:Hg; [|contradiction].
    apply Map_get_Some_In in Hg.
    assert (isDuplicateUrl m u = true) as Hdup; [|congruence].
    apply existsb_exists. exists (c, es). split; [exact Hg|].
    apply existsb_exists. now exists x.
  - apply js_sort_In. apply in_or_app. right. now left.
Qed.

End StorageAdd.

(** X15.  [init] of the storage never rejects: it returns in every
    world, without writing a file, and leaves either an initialised
    storage, having logged 'URL storage initialized', or a storage that
    is not initialised and whose map is empty, having logged the
    error; the second is what happens when the main channel id is
    missing or the file does not hold a JSON document. *)
Theorem UrlStorage_init_never_rejects (w : UrlStorage.W) :
  exists w',
    UrlStorage.init w = (Ret tt, w') /\
    files (disk w') = files (disk w) /\
    (if UrlStorage.isInitialized (store w')
     then log w' = log w ++ [(StorageInitialized, STARTUP)]
     else UrlStorage.urls (store w') = [] /\
          exists e, log w' = log w ++ [(StorageInitError e, ERROR)]) /\
    (MAIN_CHANNEL_ID (env w) = None ->
     UrlStorage.isInitialized (store w') = false) /\
    (forall id, MAIN_CHANNEL_ID (env w) = Some id ->
                hd false (faults (disk w)) = false ->
                file_at (files (disk w)) (str "URL_DB_" ++ id ++ str ".json") = Some Garbage ->
                UrlStorage.isInitialized (store w') = false).
Proof.
  destruct (UrlStorage_init_run w)
    as (w' & Hrun & Hfiles & _ & _ & _ & [(Hi & Hu & Hlog)|(Hi & Hlog & id & Hid & Hne & Hfile & Hread)]).
  - exists w'. split; [exact Hrun|]. split; [exact Hfiles|].
    rewrite Hi. split; [now split|]. split; intros; reflexivity.
  - exists w'. split; [exact Hrun|]. split; [exact Hfiles|].
    rewrite Hi. split; [exact Hlog|]. split.
    + intros Hnone. congruence.
    + intros id' Hid' Hq Hg. exfalso.
      assert (id' = id) as -> by congruence.
      revert Hrun.
      unfold UrlStorage.init, try_catch, bind at 1, get_state. rewrite Hid.
      destruct id as [|c id]; [contradiction|].
      unfold UrlStorage.set_storageFile, fs_readFile. unfold_eff.
      rewrite take_fault_tl, Hq. simp_run. rewrite Hg.
      unfold JSON_parse, UrlStorage.set_urls, UrlStorage.set_isInitialized, logWithTimestamp,
        modify.
      unfold_eff. intros H. inversion H; subst; clear H.
      discriminate Hi.
Qed.

(** X16.  [init] of the tracker over the storage always reports
    success: [UrlStorage.init] does not reject, so the tracker logs
    'URL Tracker initialized successfully' and returns in every world,
    and never logs its own failure; with no main channel id it does so
    over a storage that is not initialised. *)
Theorem UrlTracker_init_always_reports_success (w : UrlStorage.W) :
  exists w0 w',
    UrlStorage.init w = (Ret tt, w0) /\
    UrlTracker.init w = (Ret tt, w') /\
    w' = set_log (log w0 ++ [(TrackerInitialized, INFO)]) w0 /\
    (forall e, ~ In (TrackerInitError e, ERROR) (skipn (List.length (log w)) (log w'))) /\
    (MAIN_CHANNEL_ID (env w) = None ->
     UrlStorage.isInitialized (store w') = false).
Proof.
  destruct (UrlStorage_init_run w)
    as (w0 & Hrun & _ & _ & _ & _ & Hcases).
  exists w0. eexists.
  split; [exact Hrun|].
  unfold UrlTracker.init, try_catch, bind at 1. rewrite Hrun.
  unfold logWithTimestamp, modify.
  split; [reflexivity|]. split; [reflexivity|].
  simp_run. split.
  - intros e.
    destruct Hcases as [(_ & _ & e0 & ->)|(_ & -> & _)];
      rewrite <- app_assoc, skipn_app, Nat.sub_diag, skipn_all; cbn;
      intros [H|[H|[]]]; discriminate.
  - intros Hnone.
    destruct Hcases as [(Hi & _)|(_ & _ & id & Hid & _)]; [exact Hi | congruence].
Qed.

(** X17.  The duplicate check of [addUrl] and the search of
    [findUrlHistory] agree, and neither sees white space around the
    URL: in an initialised storage, [findUrlHistory] returns null
    exactly when [isDuplicateUrl] is false, and both answer for the
    trimmed URL as they do for the URL. *)
Theorem findUrlHistory_agrees_with_isDuplicateUrl (w : UrlStorage.W) (u : jsstring) :
  UrlStorage.isInitialized (store w) = true ->
  (fst (UrlStorage.findUrlHistory u w) = Ret None <->
   UrlStorage.isDuplicateUrl (UrlStorage.urls (store w)) u = false) /\
  UrlStorage.isDuplicateUrl (UrlStorage.urls (store w)) (trim u)
    = UrlStorage.isDuplicateUrl (UrlStorage.urls (store w)) u /\
  fst (UrlStorage.findUrlHistory (trim u) w) = fst (UrlStorage.findUrlHistory u w).
Proof.
  intros Hi.
  assert (forall v, fst (UrlStorage.findUrlHistory v w) =
                    Ret (match UrlStorage.find_in_channels (UrlStorage.urls (store w)) v with
                         | Some (c, e) => Some (UrlStorage.with_channel e c)
                         | None => None
                         end)) as Hfind.
  { intros v. unfold UrlStorage.findUrlHistory, logWithTimestamp. unfold_eff.
    rewrite Hi. simp_run.
    now destruct (UrlStorage.find_in_channels (UrlStorage.urls (store w)) v) as [[c e]|]. }
  split; [|split].
  - rewrite Hfind, find_in_channels_none.
    destruct (UrlStorage.find_in_channels (UrlStorage.urls (store w)) u) as [[c e]|];
      split; congruence.
  - apply isDuplicateUrl_trim.
  - now rewrite !Hfind, find_in_channels_trim.
Qed.

Lemma findUrlHistory_agrees_with_isDuplicateUrl_witness :
  (fst (UrlStorage.findUrlHistory (str " https://a.io  ") sample_storage_world) = Ret None <->
   UrlStorage.isDuplicateUrl (UrlStorage.urls (store sample_storage_world))
     (str " https://a.io  ") = false) /\
  UrlStorage.isDuplicateUrl (UrlStorage.urls (store sample_storage_world))
    (trim (str " https://a.io  "))
    = UrlStorage.isDuplicateUrl (UrlStorage.urls (store sample_storage_world))
        (str " https://a.io  ") /\
  fst (UrlStorage.findUrlHistory (trim (str " https://a.io  ")) sample_storage_world)
    = fst (UrlStorage.findUrlHistory (str " https://a.io  ") sample_storage_world).
Proof.
  apply (findUrlHistory_agrees_with_isDuplicateUrl sample_storage_world (str " https://a.io  ")).
  reflexivity.
Defined.

Section StorageUnreadable.
Import UrlStorage.

(** [init] when the read of the file is rejected. *)
Lemma UrlStorage_init_read_rejected (w : W) (id : jsstring) :
  MAIN_CHANNEL_ID (env w) = Some id ->
  id <> [] ->
  hd false (faults (disk w)) = true ->
  init w =
  (Ret tt,
   set_log (log w ++ [(StorageInitialized, STARTUP)])
     (set_store (mkStorage (urls (store w)) (str "URL_DB_" ++ id ++ str ".json") true)
        (set_disk (mkDisk (files (disk w)) (tl (faults (disk w)))) w))).
Proof.
  intros Hid Hne Hq.
  unfold init, try_catch, bind at 1, get_state. rewrite Hid.
  destruct id as [|c id]; [contradiction|].
  unfold set_storageFile, fs_readFile. unfold_eff.
  rewrite take_fault_tl, Hq. simp_run.
  unfold JSON_parse, set_urls, set_isInitialized, logWithTimestamp, modify. unfold_eff.
  reflexivity.
Qed.

End StorageUnreadable.

(** X18.  A storage file that cannot be read is taken for an empty
    document and then replaced: when the read of [init] is rejected, a
    new storage is initialised with an empty map, whatever the file
    holds; the first [addUrl] whose write completes then leaves in the
    file a document with the added entry and nothing else. *)
Theorem unreadable_storage_file_is_replaced
    (w : UrlStorage.W) (id u : jsstring) (who : jsval) (c : jsstring) (th mid murl : jsval) :
  MAIN_CHANNEL_ID (env w) = Some id ->
  id <> [] ->
  UrlStorage.urls (store w) = [] ->
  hd false (faults (disk w)) = true ->
  hd false (tl (faults (disk w))) = false ->
  exists w0 w1 e,
    UrlStorage.init w = (Ret tt, w0) /\
    UrlStorage.isInitialized (store w0) = true /\
    UrlStorage.urls (store w0) = [] /\
    files (disk w0) = files (disk w) /\
    UrlStorage.addUrl u who c th mid murl w0 = (Ret (Some e), w1) /\
    UrlStorage.url e = trim u /\
    file_at (files (disk w1)) (str "URL_DB_" ++ id ++ str ".json")
      = Some (Json (UrlStorage.json_of_urls [(c, [e])])).
Proof.
  intros Hid Hne Hempty Hq1 Hq2.
  rewrite (UrlStorage_init_read_rejected w id Hid Hne Hq1).
  match goal with |- exists w0 w1 e, (_, ?x) = _ /\ _ => remember x as w0 eqn:Hw0 end.
  assert (UrlStorage.urls (store w0) = []) as Hm by (subst w0; simp_run; exact Hempty).
  assert (hd false (faults (disk w0)) = false) as Hq by (subst w0; simp_run; exact Hq2).
  assert (UrlStorage.isInitialized (store w0) = true) as Hi by (subst w0; reflexivity).
  assert (UrlStorage.storageFile (store w0) = str "URL_DB_" ++ id ++ str ".json") as Hfile
    by (subst w0; reflexivity).
  assert (files (disk w0) = files (disk w)) as Hsame by (subst w0; reflexivity).
  destruct (addUrl_run w0 u who c th mid murl Hi) as (w1 & Hadd & Hst & Hfiles & _).
  { now rewrite Hm. }
  rewrite Hq in Hadd. rewrite Hq, Hm, Hfile in Hfiles.
  cbn [UrlStorage.Map_get UrlStorage.Map_set app js_sort sort_insert] in Hfiles.
  exists w0, w1. eexists.
  split; [reflexivity|]. split; [exact Hi|]. split; [exact Hm|].
  split; [exact Hsame|]. split; [exact Hadd|]. split; [reflexivity|].
  rewrite Hfiles. apply file_at_put_file.
Qed.

Lemma unreadable_storage_file_is_replaced_witness :
  exists w0 w1 e,
    UrlStorage.init
      (mkWorld UrlStorage.new
         (mkDisk [(str "URL_DB_c1.json", Json (UrlStorage.json_of_urls sample_map))] [true])
         9000 [] quiet_chat sample_env) = (Ret tt, w0) /\
    UrlStorage.isInitialized (store w0) = true /\
    UrlStorage.urls (store w0) = [] /\
    files (disk w0) = [(str "URL_DB_c1.json", Json (UrlStorage.json_of_urls sample_map))] /\
    UrlStorage.addUrl other_url (Str (str "bob")) (str "c1") Null (Str (str "m3")) Undefined w0
      = (Ret (Some e), w1) /\
    UrlStorage.url e = trim other_url /\
    file_at (files (disk w1)) (str "URL_DB_" ++ str "c1" ++ str ".json")
      = Some (Json (UrlStorage.json_of_urls [(str "c1", [e])])).
Proof.
  apply (unreadable_storage_file_is_replaced
           (mkWorld UrlStorage.new
              (mkDisk [(str "URL_DB_c1.json", Json (UrlStorage.json_of_urls sample_map))]
                      [true])
              9000 [] quiet_chat sample_env)
           (str "c1") other_url (Str (str "bob")) (str "c1") Null (Str (str "m3")) Undefined);
    try reflexivity.
  discriminate.
Defined.

(** X19.  What [addUrl] of the storage records, [findUrlHistory] finds:
    in an initialised storage that holds no entry of the URL and whose
    file can be written, [addUrl] returns the entry it built, with the
    trimmed url, the poster, the channel, the message and the instant
    of the call; the lookup of the URL then returns that very entry,
    and a second [addUrl] of the URL, by whomever and wherever, returns
    null and changes no entry. *)
Theorem UrlStorage_addUrl_then_findUrlHistory
    (w : UrlStorage.W) (u : jsstring) (who : jsval) (c : jsstring) (th mid murl : jsval) :
  UrlStorage.isInitialized (store w) = true ->
  UrlStorage.isDuplicateUrl (UrlStorage.urls (store w)) u = false ->
  hd false (faults (disk w)) = false ->
  exists e w1,
    UrlStorage.addUrl u who c th mid murl w = (Ret (Some e), w1) /\
    e = UrlStorage.mkEntry (trim u) who Undefined Undefined (Str c)
          (match th with Undefined => Null | v => v end) mid murl (clock w) /\
    fst (UrlStorage.findUrlHistory u w1) = Ret (Some e) /\
    forall who' c' th' mid' murl',
      fst (UrlStorage.addUrl u who' c' th' mid' murl' w1) = Ret None /\
      UrlStorage.urls (store (snd (UrlStorage.addUrl u who' c' th' mid' murl' w1)))
        = UrlStorage.urls (store w1).
Proof.
  intros Hi Hd Hq.
  destruct (addUrl_run w u who c th mid murl Hi Hd) as (w1 & Hadd & Hst & _).
  rewrite Hq in Hadd.
  eexists _, w1. split; [exact Hadd|]. split; [reflexivity|].
  set (e := UrlStorage.mkEntry (trim u) who Undefined Undefined (Str c)
              (match th with Undefined => Null | v => v end) mid murl (clock w)) in *.
  assert (UrlStorage.find_in_channels (UrlStorage.urls (store w1)) u = Some (c, e)) as Hfound.
  { rewrite Hst. cbn [UrlStorage.urls]. apply find_added; [exact Hd|].
    unfold UrlStorage.same_url. subst e. cbn [UrlStorage.url].
    rewrite trim_idempotent. apply jsstring_eqb_refl. }
  assert (UrlStorage.isInitialized (store w1) = true) as Hi1 by (now rewrite Hst).
  split.
  - now rewrite (findUrlHistory_found w1 u c e Hi1 Hfound).
  - intros who' c' th' mid' murl'.
    rewrite UrlStorage_addUrl_skips_duplicate; [now split | exact Hi1 |].
    rewrite isDuplicateUrl_trim.
    destruct (UrlStorage.isDuplicateUrl (UrlStorage.urls (store w1)) u) eqn:E; [reflexivity|].
    apply find_in_channels_none in E. congruence.
Qed.

Lemma UrlStorage_addUrl_then_findUrlHistory_witness :
  exists e w1,
    UrlStorage.addUrl other_url (Str (str "bob")) (str "c1") Null (Str (str "m3")) Undefined
      sample_storage_world = (Ret (Some e), w1) /\
    e = UrlStorage.mkEntry (trim other_url) (Str (str "bob")) Undefined Undefined
          (Str (str "c1")) Null (Str (str "m3")) Undefined (clock sample_storage_world) /\
    fst (UrlStorage.findUrlHistory other_url w1) = Ret (Some e) /\
    forall who' c' th' mid' murl',
      fst (UrlStorage.addUrl other_url who' c' th' mid' murl' w1) = Ret None /\
      UrlStorage.urls (store (snd (UrlStorage.addUrl other_url who' c' th' mid' murl' w1)))
        = UrlStorage.urls (store w1).
Proof.
  apply (UrlStorage_addUrl_then_findUrlHistory sample_storage_world other_url
           (Str (str "bob")) (str "c1") Null (Str (str "m3")) Undefined);
    reflexivity.
Defined.

(** X20.  A write that fails leaves the map ahead of the file: in an
    initialised storage that holds no entry of the URL, when the write
    of [addUrl] is rejected the call returns null, the error is logged
    and no file changes, yet the entry stays in the map: the lookup of
    the URL finds it, and every later [addUrl] of the URL is skipped as
    a duplicate. *)
Theorem UrlStorage_addUrl_failed_write_remembers
    (w : UrlStorage.W) (u : jsstring) (who : jsval) (c : jsstring) (th mid murl : jsval) :
  UrlStorage.isInitialized (store w) = true ->
  UrlStorage.isDuplicateUrl (UrlStorage.urls (store w)) u = false ->
  hd false (faults (disk w)) = true ->
  exists w1,
    UrlStorage.addUrl u who c th mid murl w = (Ret None, w1) /\
    files (disk w1) = files (disk w) /\
    In (ErrorSavingUrls EIO, ERROR) (log w1) /\
    fst (UrlStorage.findUrlHistory u w1)
      = Ret (Some (UrlStorage.mkEntry (trim u) who Undefined Undefined (Str c)
                     (match th with Undefined => Null | v => v end) mid murl (clock w))) /\
    UrlStorage.isDuplicateUrl (UrlStorage.urls (store w1)) u = true.
Proof.
  intros Hi Hd Hq.
  destruct (addUrl_run w u who c th mid murl Hi Hd)
    as (w1 & Hadd & Hst & Hfiles & _ & _ & _ & _ & Hlog).
  rewrite Hq in Hadd, Hfiles.
  exists w1. split; [exact Hadd|]. split; [exact Hfiles|]. split; [now apply Hlog|].
  set (e := UrlStorage.mkEntry (trim u) who Undefined Undefined (Str c)
              (match th with Undefined => Null | v => v end) mid murl (clock w)) in *.
  assert (UrlStorage.find_in_channels (UrlStorage.urls (store w1)) u = Some (c, e)) as Hfound.
  { rewrite Hst. cbn [UrlStorage.urls]. apply find_added; [exact Hd|].
    unfold UrlStorage.same_url. subst e. cbn [UrlStorage.url].
    rewrite trim_idempotent. apply jsstring_eqb_refl. }
  assert (UrlStorage.isInitialized (store w1) = true) as Hi1 by (now rewrite Hst).
  split.
  - now rewrite (findUrlHistory_found w1 u c e Hi1 Hfound).
  - destruct (UrlStorage.isDuplicateUrl (UrlStorage.urls (store w1)) u) eqn:E; [reflexivity|].
    apply find_in_channels_none in E. congruence.
Qed.

Lemma UrlStorage_addUrl_failed_write_remembers_witness :
  exists w1,
    UrlStorage.addUrl other_url (Str (str "bob")) (str "c1") Null (Str (str "m3")) Undefined
      failing_disk_world = (Ret None, w1) /\
    files (disk w1) = files (disk failing_disk_world) /\
    In (ErrorSavingUrls EIO, ERROR) (log w1) /\
    fst (UrlStorage.findUrlHistory other_url w1)
      = Ret (Some (UrlStorage.mkEntry (trim other_url) (Str (str "bob")) Undefined Undefined
                     (Str (str "c1")) Null (Str (str "m3")) Undefined
                     (clock failing_disk_world))) /\
    UrlStorage.isDuplicateUrl (UrlStorage.urls (store w1)) other_url = true.
Proof.
  apply (UrlStorage_addUrl_failed_write_remembers failing_disk_world other_url
           (Str (str "bob")) (str "c1") Null (Str (str "m3")) Undefined);
    reflexivity.
Defined.

(** ** [UrlStorage]: [saveUrls] *)

Section StorageSave.
Import UrlStorage.

Lemma Map_get_Map_set {V : Type} (m : list (jsstring * V)) (k k' : jsstring) (v : V) :
  Map_get (Map_set m k v) k' = if JsString.eqb k k' then Some v else Map_get m k'.
Proof.
  induction m as [|[k0 v0] r IH]; cbn [Map_set Map_get]; [reflexivity|].
  destruct (JsString.eqb k0 k) eqn:E; cbn [Map_get].
  - apply jsstring_eqb_eq in E. subst k0. now destruct (JsString.eqb k k').
  - rewrite IH. destruct (JsString.eqb k0 k') eqn:E'; [|reflexivity].
    destruct (JsString.eqb k k') eqn:E2; [|reflexivity].
    apply jsstring_eqb_eq in E', E2. subst. now rewrite jsstring_eqb_refl in E.
Qed.

(** [saveUrls] in an initialised storage, run to its end. *)
Lemma saveUrls_run (w : W) (c : jsstring) (newUrls : list UrlEntry) :
  isInitialized (store w) = true ->
  let accepted :=
    filter (fun e => negb (isDuplicateUrl (urls (store w)) (url e))) newUrls in
  let l' := js_sort newest_first
              (match Map_get (urls (store w)) c with Some es => es | None => [] end
               ++ map trimmed accepted) in
  exists w',
    saveUrls c newUrls w
      = (Ret (if hd false (faults (disk w)) then O else List.length accepted), w') /\
    chat w' = chat w /\ env w' = env w /\ clock w' = clock w /\
    match accepted with
    | [] => store w' = store w /\ disk w' = disk w
    | _ :: _ =>
        store w' = mkStorage (Map_set (urls (store w)) c l') (storageFile (store w)) true /\
        faults (disk w') = tl (faults (disk w)) /\
        files (disk w')
          = (if hd false (faults (disk w)) then files (disk w)
             else put_file (files (disk w)) (storageFile (store w))
                    (Json (json_of_urls (Map_set (urls (store w)) c l'))))
    end.
Proof.
  intros Hi accepted l'.
  unfold saveUrls, write_urls, set_urls, fs_writeFile, logWithTimestamp. unfold_eff.
  rewrite Hi. simp_run.
  destruct (save_loop_accepts newUrls
              (match Map_get (urls (store w)) c with Some es => es | None => [] end) 0 w)
    as (lg & ->).
  fold accepted. simp_run. cbn [Nat.add].
  destruct accepted as [|a acc] eqn:Hacc.
  - cbn [List.length Nat.ltb Nat.leb]. simp_run.
    eexists. split; [now destruct (hd false (faults (disk w)))|]. simp_run.
    repeat split.
  - subst l'. cbn [List.length Nat.ltb Nat.leb]. simp_run.
    rewrite take_fault_tl.
    destruct (hd false (faults (disk w))); simp_run;
      (eexists; split; [reflexivity|]); simp_run; cbn [isInitialized storageFile urls];
      rewrite Hi; repeat split.
Qed.

End StorageSave.



(** ** [UrlStorage]: [deleteUrl] *)

Section StorageDelete.
Import UrlStorage.

Lemma remove_first_removed (u : jsstring) (es es' : list UrlEntry) :
  remove_first u es = Some es' ->
  exists l1 x l2, es = l1 ++ x :: l2 /\ es' = l1 ++ l2 /\ same_url u x = true.
Proof.
  revert es'; induction es as [|y r IH]; cbn [remove_first]; intros es' H; [discriminate|].
  destruct (same_url u y) eqn:Hy.
  - inversion H. subst. now exists [], y, es'.
  - destruct (remove_first u r) as [r'|]; [|discriminate].
    inversion H. subst.
    destruct (IH r' eq_refl) as (l1 & x & l2 & -> & -> & Hx).
    now exists (y :: l1), x, l2.
Qed.

Lemma splice_first_removed (m m1 : UrlMap) (u : jsstring) :
  splice_first m u = Some m1 ->
  map fst m1 = map fst m /\
  exists l1 x l2,
    all_entries m = l1 ++ x :: l2 /\ all_entries m1 = l1 ++ l2 /\ same_url u x = true.
Proof.
  unfold all_entries.
  revert m1; induction m as [|[c es] r IH]; cbn [splice_first]; intros m1 H; [discriminate|].
  destruct (remove_first u es) as [es'|] eqn:E.
  - inversion H. subst. split; [reflexivity|]. cbn [flat_map snd].
    destruct (remove_first_removed u es es' E) as (l1 & x & l2 & -> & -> & Hx).
    exists l1, x, (l2 ++ flat_map snd r).
    now rewrite <- !app_assoc.
  - destruct (splice_first r u) as [r'|]; [|discriminate].
    inversion H. subst. cbn [flat_map snd map fst].
    destruct (IH r' eq_refl) as (Hk & l1 & x & l2 & -> & -> & Hx).
    split; [now rewrite Hk|].
    exists (es ++ l1), x, l2.
    now rewrite <- !app_assoc.
Qed.

Lemma splice_first_none (m : UrlMap) (u : jsstring) :
  isDuplicateUrl m u = false -> splice_first m u = None.
Proof.
  unfold isDuplicateUrl.
  induction m as [|[c es] r IH]; cbn [existsb splice_first snd]; [reflexivity|].
  intros H. apply orb_false_iff in H as [Hes Hr].
  rewrite (remove_first_not_found u es (proj1 (find_none _ _) Hes)).
  now rewrite (IH Hr).
Qed.

(** The duplicate check looks at the entries of all the channels. *)
Lemma isDuplicateUrl_all_entries (m : UrlMap) (u : jsstring) :
  isDuplicateUrl m u = existsb (same_url u) (all_entries m).
Proof.
  unfold isDuplicateUrl, all_entries.
  induction m as [|[c es] r IH]; cbn [existsb flat_map snd]; [reflexivity|].
  now rewrite existsb_app, IH.
Qed.

(** [deleteUrl] of a URL the storage holds, run to its end. *)
Lemma deleteUrl_run (w : W) (u : jsstring) (m1 : UrlMap) :
  isInitialized (store w) = true ->
  splice_first (urls (store w)) u = Some m1 ->
  exists w1,
    deleteUrl u w = (if hd false (faults (disk w)) then Throw EIO else Ret true, w1) /\
    store w1 = mkStorage m1 (storageFile (store w)) true /\
    files (disk w1)
      = (if hd false (faults (disk w)) then files (disk w)
         else put_file (files (disk w)) (storageFile (store w)) (Json (json_of_urls m1))).
Proof.
  intros Hi Hs.
  unfold deleteUrl, write_urls, set_urls, fs_writeFile, logWithTimestamp. unfold_eff.
  rewrite Hi, Hs. simp_run. rewrite take_fault_tl.
  destruct (hd false (faults (disk w))); simp_run;
    (eexists; split; [reflexivity|]); simp_run; cbn [isInitialized storageFile urls];
    rewrite Hi; split; reflexivity.
Qed.

End StorageDelete.

(** X22.  [deleteUrl] of a URL the storage does not hold is a no-op: in
    an initialised storage, when no entry has the trimmed URL, the call
    returns false and changes nothing, neither the map nor the file nor
    the log. *)
Theorem deleteUrl_of_unknown_url_changes_nothing (w : UrlStorage.W) (u : jsstring) :
  UrlStorage.isInitialized (store w) = true ->
  UrlStorage.isDuplicateUrl (UrlStorage.urls (store w)) u = false ->
  UrlStorage.deleteUrl u w = (Ret false, w).
Proof.
  intros Hi Hd.
  unfold UrlStorage.deleteUrl. unfold_eff.
  rewrite Hi. simp_run.
  now rewrite (splice_first_none _ _ Hd).
Qed.

Lemma deleteUrl_of_unknown_url_changes_nothing_witness :
  UrlStorage.deleteUrl other_url sample_storage_world = (Ret false, sample_storage_world).
Proof.
  apply (deleteUrl_of_unknown_url_changes_nothing sample_storage_world other_url);
    reflexivity.
Defined.

(** X23.  [deleteUrl] forgets the URL and nothing else: in an
    initialised storage with one entry per trimmed URL that holds the
    URL, the call removes the entry of the URL from the map, whether
    or not the write that follows completes (it returns true when it
    does and rejects when it does not); afterwards the URL is no
    duplicate, its lookup returns null, the answer of the duplicate
    check for every other URL is as before, and the channels are the
    same. *)
Theorem deleteUrl_forgets_the_url (w : UrlStorage.W) (u : jsstring) :
  UrlStorage.isInitialized (store w) = true ->
  UrlStorage.one_per_url (UrlStorage.urls (store w)) ->
  UrlStorage.isDuplicateUrl (UrlStorage.urls (store w)) u = true ->
  exists w1,
    UrlStorage.deleteUrl u w
      = (if hd false (faults (disk w)) then Throw EIO else Ret true, w1) /\
    UrlStorage.isDuplicateUrl (UrlStorage.urls (store w1)) u = false /\
    fst (UrlStorage.findUrlHistory u w1) = Ret None /\
    (forall v, trim v <> trim u ->
               UrlStorage.isDuplicateUrl (UrlStorage.urls (store w1)) v
               = UrlStorage.isDuplicateUrl (UrlStorage.urls (store w)) v) /\
    map fst (UrlStorage.urls (store w1)) = map fst (UrlStorage.urls (store w)) /\
    S (List.length (UrlStorage.all_entries (UrlStorage.urls (store w1))))
      = List.length (UrlStorage.all_entries (UrlStorage.urls (store w))).
Proof.
  intros Hi Hone Hd.
  destruct (UrlStorage.find_in_channels (UrlStorage.urls (store w)) u) as [[c e]|] eqn:Hf;
    [|apply find_in_channels_none in Hf; congruence].
  destruct (splice_first_found _ _ _ _ Hf) as (m1 & Hs & _).
  destruct (deleteUrl_run w u m1 Hi Hs) as (w1 & Hrun & Hst & _).
  destruct (splice_first_removed _ _ _ Hs) as (Hkeys & l1 & x & l2 & Hall & Hall1 & Hx).
  exists w1. split; [exact Hrun|].
  rewrite Hst. cbn [UrlStorage.urls].
  unfold UrlStorage.one_per_url in Hone. rewrite Hall in Hone.
  assert (forall y, In y (l1 ++ l2) -> UrlStorage.same_url u y = false) as Hothers.
  { intros y Hy. destruct (UrlStorage.same_url u y) eqn:E; [exfalso | reflexivity].
    rewrite map_app in Hone. cbn [map] in Hone.
    apply NoDup_remove_2 in Hone. apply Hone.
    unfold UrlStorage.same_url in Hx, E. apply jsstring_eqb_eq in Hx, E.
    change (UrlStorage.canonical x) with (trim (UrlStorage.url x)).
    rewrite Hx, <- E, <- map_app.
    change (trim (UrlStorage.url y)) with (UrlStorage.canonical y).
    now apply in_map. }
  assert (UrlStorage.isDuplicateUrl m1 u = false) as Hgone.
  { rewrite isDuplicateUrl_all_entries, Hall1.
    destruct (existsb (UrlStorage.same_url u) (l1 ++ l2)) eqn:E; [|reflexivity].
    apply existsb_exists in E as (y & Hy & Hp). rewrite (Hothers y Hy) in Hp. discriminate. }
  split; [exact Hgone|]. split.
  - unfold UrlStorage.findUrlHistory, logWithTimestamp. unfold_eff.
    rewrite Hst. cbn [UrlStorage.isInitialized UrlStorage.urls negb].
    now rewrite (proj1 (find_in_channels_none m1 u) Hgone).
  - split; [|split; [exact Hkeys|]].
    + intros v Hv. rewrite !isDuplicateUrl_all_entries, Hall, Hall1.
      rewrite !existsb_app. cbn [existsb].
      assert (UrlStorage.same_url v x = false) as ->; [|reflexivity].
      unfold UrlStorage.same_url in *. apply jsstring_eqb_eq in Hx.
      apply jsstring_eqb_neq. congruence.
    + rewrite Hall, Hall1, !length_app. cbn [List.length]. lia.
Qed.

Lemma deleteUrl_forgets_the_url_witness :
  exists w1,
    UrlStorage.deleteUrl the_url sample_storage_world
      = (if hd false (faults (disk sample_storage_world)) then Throw EIO else Ret true, w1) /\
    UrlStorage.isDuplicateUrl (UrlStorage.urls (store w1)) the_url = false /\
    fst (UrlStorage.findUrlHistory the_url w1) = Ret None /\
    (forall v, trim v <> trim the_url ->
               UrlStorage.isDuplicateUrl (UrlStorage.urls (store w1)) v
               = UrlStorage.isDuplicateUrl (UrlStorage.urls (store sample_storage_world)) v) /\
    map fst (UrlStorage.urls (store w1))
      = map fst (UrlStorage.urls (store sample_storage_world)) /\
    S (List.length (UrlStorage.all_entries (UrlStorage.urls (store w1))))
      = List.length (UrlStorage.all_entries (UrlStorage.urls (store sample_storage_world))).
Proof.
  apply (deleteUrl_forgets_the_url sample_storage_world the_url); try reflexivity.
  unfold UrlStorage.one_per_url. vm_compute.
  constructor; [intros [H|[]]; discriminate|].
  constructor; [intros []|constructor].
Defined.

(** ** [UrlStorage]: [cleanup] *)

Section StorageCleanup.
Import UrlStorage.

Lemma sweep_keys (now : Z) (m : UrlMap) : map fst (fst (sweep now m)) = map fst m.
Proof.
  induction m as [|[c es] r IH]; cbn [sweep]; [reflexivity|].
  destruct (sweep now r) as [r' n]. cbn [fst map] in *. now rewrite IH.
Qed.

Lemma filter_length_le {A : Type} (p : A -> bool) (l : list A) :
  (List.length (filter p l) <= List.length l)%nat.
Proof.
  induction l as [|x r IH]; cbn [filter List.length]; [lia|].
  destruct (p x); cbn [List.length]; lia.
Qed.

(** The number that [cleanup] logs is the number of entries it drops. *)
Lemma sweep_count (now : Z) (m : UrlMap) :
  (snd (sweep now m) + List.length (all_entries (fst (sweep now m)))
   = List.length (all_entries m))%nat.
Proof.
  unfold all_entries.
  induction m as [|[c es] r IH]; cbn [sweep]; [reflexivity|].
  destruct (sweep now r) as [r' n]. cbn [fst snd flat_map] in *.
  rewrite !length_app.
  pose proof (filter_length_le (fun e => now - timestamp e <? maxAge) es). lia.
Qed.

Lemma sweep_young (now : Z) (m : UrlMap) :
  forallb (fun e => now - timestamp e <? maxAge) (all_entries m) = true ->
  sweep now m = (m, O).
Proof.
  unfold all_entries.
  induction m as [|[c es] r IH]; cbn [sweep flat_map snd]; [reflexivity|].
  rewrite forallb_app. intros H. apply andb_true_iff in H as [Hes Hr].
  rewrite (IH Hr).
  assert (filter (fun e => now - timestamp e <? maxAge) es = es) as ->.
  { clear -Hes. induction es as [|e es IHes]; cbn [filter]; [reflexivity|].
    cbn [forallb] in Hes. apply andb_true_iff in Hes as [He Hes].
    now rewrite He, (IHes Hes). }
  now rewrite Nat.sub_diag.
Qed.

End StorageCleanup.

(** X24.  [cleanup] keeps exactly the entries younger than thirty days:
    in an initialised storage it returns, also when its write is
    rejected, and leaves in the map the entries whose age at the call
    is below thirty days, in the order they had, under the same
    channels; an entry of exactly thirty days goes.  When no entry is
    that old the call changes nothing and writes nothing. *)
Theorem cleanup_keeps_the_young_entries (w : UrlStorage.W) :
  UrlStorage.isInitialized (store w) = true ->
  exists w',
    UrlStorage.cleanup w = (Ret tt, w') /\
    UrlStorage.all_entries (UrlStorage.urls (store w'))
      = filter (fun e => clock w - UrlStorage.timestamp e <? 2592000000)
               (UrlStorage.all_entries (UrlStorage.urls (store w))) /\
    map fst (UrlStorage.urls (store w')) = map fst (UrlStorage.urls (store w)) /\
    (forallb (fun e => clock w - UrlStorage.timestamp e <? 2592000000)
             (UrlStorage.all_entries (UrlStorage.urls (store w))) = true ->
     w' = w) /\
    (forall n, In (CleanedUp n, INFO) (skipn (List.length (log w)) (log w')) ->
               (n + List.length (UrlStorage.all_entries (UrlStorage.urls (store w')))
                = List.length (UrlStorage.all_entries (UrlStorage.urls (store w))))%nat).
Proof.
  intros Hi.
  pose proof (all_entries_sweep (clock w) (UrlStorage.urls (store w))) as Hall.
  pose proof (sweep_keys (clock w) (UrlStorage.urls (store w))) as Hkeys.
  pose proof (sweep_count (clock w) (UrlStorage.urls (store w))) as Hcount.
  pose proof (sweep_young (clock w) (UrlStorage.urls (store w))) as Hyoung.
  change UrlStorage.maxAge with 2592000000 in Hall, Hyoung.
  unfold UrlStorage.cleanup, UrlStorage.write_urls, UrlStorage.set_urls, fs_writeFile,
    logWithTimestamp.
  unfold_eff. rewrite Hi. simp_run.
  destruct (UrlStorage.sweep (clock w) (UrlStorage.urls (store w))) as [m' n] eqn:Hs.
  cbn [fst snd] in *. simp_run.
  destruct n as [|n]; cbn [Nat.ltb Nat.leb]; simp_run.
  - eexists. split; [reflexivity|]. simp_run. cbn [UrlStorage.urls].
    split; [exact Hall|]. split; [exact Hkeys|]. split.
    + intros Hy. apply Hyoung in Hy. inversion Hy; subst.
      destruct w as [[m f i] d k l c e]. cbn in Hi. now subst i.
    + rewrite skipn_all. intros k [].
  - rewrite take_fault_tl.
    destruct (hd false (faults (disk w))); simp_run;
      (eexists; split; [reflexivity|]); simp_run; cbn [UrlStorage.urls];
      (split; [exact Hall|]); (split; [exact Hkeys|]); split;
      try (intros Hy; apply Hyoung in Hy; discriminate).
    + rewrite skipn_app, Nat.sub_diag, skipn_all. cbn.
      intros k [H|[]]. discriminate.
    + rewrite skipn_app, Nat.sub_diag, skipn_all. cbn.
      intros k [H|[]]. inversion H; subst. exact Hcount.
Qed.

Lemma cleanup_keeps_the_young_entries_witness :
  exists w',
    UrlStorage.cleanup sample_storage_world = (Ret tt, w') /\
    UrlStorage.all_entries (UrlStorage.urls (store w'))
      = filter (fun e => clock sample_storage_world - UrlStorage.timestamp e <? 2592000000)
               (UrlStorage.all_entries (UrlStorage.urls (store sample_storage_world))) /\
    map fst (UrlStorage.urls (store w'))
      = map fst (UrlStorage.urls (store sample_storage_world)) /\
    (forallb (fun e => clock sample_storage_world - UrlStorage.timestamp e <? 2592000000)
             (UrlStorage.all_entries (UrlStorage.urls (store sample_storage_world))) = true ->
     w' = sample_storage_world) /\
    (forall n,
        In (CleanedUp n, INFO)
           (skipn (List.length (log sample_storage_world)) (log w')) ->
        (n + List.length (UrlStorage.all_entries (UrlStorage.urls (store w')))
         = List.length
             (UrlStorage.all_entries (UrlStorage.urls (store sample_storage_world))))%nat).
Proof.
  apply (cleanup_keeps_the_young_entries sample_storage_world). reflexivity.
Defined.

(** ** [UrlStorage]: [getStats] *)

Section StorageStats.
Import UrlStorage.

Lemma Map_get_place_index {V : Type} (props : list (jsstring * V)) (k k' : jsstring)
    (n : N) (v : V) :
  Map_get props k = None ->
  Map_get (place_index props k n v) k'
  = if JsString.eqb k k' then Some v else Map_get props k'.
Proof.
  induction props as [|[k0 v0] r IH]; cbn [place_index Map_get]; [reflexivity|].
  destruct (JsString.eqb k0 k) eqn:E0; [discriminate|].
  intros Hr.
  assert (Map_get ((k, v) :: (k0, v0) :: r) k'
          = if JsString.eqb k k' then Some v else Map_get ((k0, v0) :: r) k') as Hfront
    by reflexivity.
  destruct (array_index k0) as [n'|]; [|exact Hfront].
  destruct (n <? n')%N; [exact Hfront|].
  cbn [Map_get]. rewrite (IH Hr).
  destruct (JsString.eqb k0 k') eqn:E'; [|reflexivity].
  destruct (JsString.eqb k k') eqn:E2; [|reflexivity].
  apply jsstring_eqb_eq in E', E2. subst. now rewrite jsstring_eqb_refl in E0.
Qed.

Lemma Map_get_app_absent {V : Type} (props : list (jsstring * V)) (k k' : jsstring) (v : V) :
  Map_get props k = None ->
  Map_get (props ++ [(k, v)]) k'
  = if JsString.eqb k k' then Some v else Map_get props k'.
Proof.
  induction props as [|[k0 v0] r IH]; cbn [app Map_get]; [reflexivity|].
  destruct (JsString.eqb k0 k) eqn:E0; [discriminate|].
  intros Hr. rewrite (IH Hr).
  destruct (JsString.eqb k0 k') eqn:E'; [|reflexivity].
  destruct (JsString.eqb k k') eqn:E2; [|reflexivity].
  apply jsstring_eqb_eq in E', E2. subst. now rewrite jsstring_eqb_refl in E0.
Qed.

(** Reading a property after it was defined. *)
Lemma Map_get_define_property {V : Type} (props : list (jsstring * V)) (k k' : jsstring)
    (v : V) :
  Map_get (define_property props k v) k'
  = if JsString.eqb k k' then Some v else Map_get props k'.
Proof.
  unfold define_property.
  destruct (Map_get props k) as [old|] eqn:Hk.
  - apply Map_get_Map_set.
  - destruct (array_index k); [now apply Map_get_place_index | now apply Map_get_app_absent].
Qed.

Lemma getStats_fold (m : UrlMap) (total count : nat) (per : list (jsstring * nat)) :
  let stats :=
    fold_left
      (fun stats kv =>
         mkStats (totalUrls stats + List.length (snd kv)) (channelCount stats)
                 (assign_number (urlsPerChannel stats) (fst kv) (List.length (snd kv))))
      m (mkStats total count per) in
  totalUrls stats = (total + List.length (all_entries m))%nat /\
  channelCount stats = count /\
  forall c, c <> str "__proto__" ->
            Map_get m c = None \/ NoDup (map fst m) ->
            Map_get (urlsPerChannel stats) c
            = match Map_get m c with
              | Some es => Some (List.length es)
              | None => Map_get per c
              end.
Proof.
  revert total count per. unfold all_entries.
  induction m as [|[k es] r IH]; intros total count per; cbn [fold_left]; [now split|].
  cbn [fst snd totalUrls channelCount urlsPerChannel].
  destruct (IH (total + List.length es)%nat count
               (assign_number per k (List.length es))) as (Ht & Hc & Hper).
  cbv zeta in *. split; [|split; [exact Hc|]].
  - rewrite Ht. cbn [flat_map snd]. rewrite length_app. lia.
  - intros c Hc' Hkeys. cbn [Map_get].
    assert (Map_get (assign_number per k (List.length es)) c
            = if JsString.eqb k c then Some (List.length es) else Map_get per c) as Hone.
    { unfold assign_number.
      destruct (JsString.eqb k (str "__proto__")) eqn:Ep.
      - apply jsstring_eqb_eq in Ep. subst k.
        now rewrite (proj2 (jsstring_eqb_neq (str "__proto__") c)) by congruence.
      - apply Map_get_define_property. }
    destruct (JsString.eqb k c) eqn:E.
    + apply jsstring_eqb_eq in E. subst k.
      destruct Hkeys as [Hn|Hnd]; [cbn [Map_get] in Hn; rewrite jsstring_eqb_refl in Hn;
                                   discriminate|].
      cbn [map fst] in Hnd. inversion Hnd as [|? ? Hnotin Hnd']; subst.
      rewrite (Hper c Hc' (or_introl (proj2 (Map_get_None r c) Hnotin))).
      rewrite (proj2 (Map_get_None r c) Hnotin). exact Hone.
    + rewrite Hper; [| exact Hc' |].
      * destruct (Map_get r c); [reflexivity | exact Hone].
      * destruct Hkeys as [Hn|Hnd].
        -- left. cbn [Map_get] in Hn. now rewrite E in Hn.
        -- right. cbn [map fst] in Hnd. now inversion Hnd.
Qed.

End StorageStats.

(** X25.  [getStats] counts what the map holds and changes nothing:
    [totalUrls] is the number of entries of all channels,
    [channelCount] the number of channels, and, the keys of the map
    being distinct, [urlsPerChannel] gives for every channel of the map
    other than '__proto__' the number of its entries, and no number
    for a channel that the map does not have. *)
Theorem getStats_counts_the_map (w : UrlStorage.W) :
  exists stats,
    UrlStorage.getStats w = (Ret stats, w) /\
    UrlStorage.totalUrls stats
      = List.length (UrlStorage.all_entries (UrlStorage.urls (store w))) /\
    UrlStorage.channelCount stats = List.length (UrlStorage.urls (store w)) /\
    (NoDup (map fst (UrlStorage.urls (store w))) ->
     forall c, c <> str "__proto__" ->
               UrlStorage.Map_get (UrlStorage.urlsPerChannel stats) c
               = option_map (@List.length UrlStorage.UrlEntry)
                   (UrlStorage.Map_get (UrlStorage.urls (store w)) c)).
Proof.
  unfold UrlStorage.getStats. unfold_eff.
  eexists. split; [reflexivity|].
  destruct (getStats_fold (UrlStorage.urls (store w)) 0
              (List.length (UrlStorage.urls (store w))) []) as (Ht & Hc & Hper).
  cbv zeta in *.
  split; [exact Ht|]. split; [exact Hc|].
  intros Hnd c Hc'. rewrite (Hper c Hc' (or_intror Hnd)).
  now destruct (UrlStorage.Map_get (UrlStorage.urls (store w)) c).
Qed.

Lemma getStats_counts_the_map_witness :
  NoDup (map fst (UrlStorage.urls (store sample_storage_world))) /\
  exists stats,
    UrlStorage.getStats sample_storage_world = (Ret stats, sample_storage_world) /\
    UrlStorage.totalUrls stats = 2%nat /\
    UrlStorage.channelCount stats = 2%nat /\
    UrlStorage.Map_get (UrlStorage.urlsPerChannel stats) (str "c2") = Some 1%nat.
Proof.
  assert (NoDup (map fst (UrlStorage.urls (store sample_storage_world)))) as Hnd.
  { vm_compute. constructor; [intros [H|[]]; discriminate|].
    constructor; [intros []|constructor]. }
  split; [exact Hnd|].
  destruct (getStats_counts_the_map sample_storage_world) as (stats & Hrun & Ht & Hc & Hper).
  exists stats. split; [exact Hrun|]. split; [exact Ht|]. split; [exact Hc|].
  rewrite (Hper Hnd (str "c2")); [reflexivity | discriminate].
Defined.

(** ** [UrlStorage]: what a restart reads *)

Section StorageRestart.
Import UrlStorage.

Lemma Map_set_keys_distinct {V : Type} (m : list (jsstring * V)) (k : jsstring) (v : V) :
  NoDup (map fst m) -> NoDup (map fst (Map_set m k v)).
Proof.
  induction m as [|[k0 v0] r IH]; cbn [Map_set map fst]; intros Hnd.
  - constructor; [intros [] | constructor].
  - inversion Hnd as [|? ? Hnotin Hnd']; subst.
    destruct (JsString.eqb k0 k) eqn:E; cbn [map fst]; [exact Hnd|].
    constructor; [|now apply IH].
    apply Map_get_None. rewrite Map_get_Map_set.
    destruct (JsString.eqb k k0) eqn:E'.
    + apply jsstring_eqb_eq in E'. subst. now rewrite jsstring_eqb_refl in E.
    + now apply Map_get_None.
Qed.

Lemma isDuplicateUrl_perm (m m' : UrlMap) (u : jsstring) :
  Permutation m m' -> isDuplicateUrl m u = isDuplicateUrl m' u.
Proof.
  unfold isDuplicateUrl.
  induction 1 as [|kv a b Hp IH|kv kv' a|a b c0 Hab IHab Hbc IHbc]; cbn [existsb].
  - reflexivity.
  - now rewrite IH.
  - now rewrite !orb_assoc, (orb_comm (existsb _ (snd kv'))).
  - now rewrite IHab.
Qed.

End StorageRestart.

(** X26.  What [addUrl] of the storage has written survives a restart:
    when [addUrl] returned the entry it added to an initialised storage
    whose file is the one of the main channel, a new storage in the
    same environment and on the same files, once the read of its [init]
    completes, is initialised with the same entries under every
    channel, and the URL is a duplicate there. *)
Theorem UrlStorage_restart_remembers_added_url
    (w w1 : UrlStorage.W) (id u : jsstring) (who : jsval) (c : jsstring)
    (th mid murl : jsval) (e : UrlStorage.UrlEntry) :
  MAIN_CHANNEL_ID (env w) = Some id ->
  id <> [] ->
  UrlStorage.storageFile (store w) = str "URL_DB_" ++ id ++ str ".json" ->
  UrlStorage.isInitialized (store w) = true ->
  NoDup (map fst (UrlStorage.urls (store w))) ->
  UrlStorage.addUrl u who c th mid murl w = (Ret (Some e), w1) ->
  hd false (faults (disk w1)) = false ->
  exists w2,
    UrlStorage.init (set_store UrlStorage.new w1) = (Ret tt, w2) /\
    UrlStorage.isInitialized (store w2) = true /\
    (forall k, UrlStorage.Map_get (UrlStorage.urls (store w2)) k
               = UrlStorage.Map_get (UrlStorage.urls (store w1)) k) /\
    UrlStorage.isDuplicateUrl (UrlStorage.urls (store w2)) u = true.
Proof.
  intros Hid Hne Hfile Hi Hnd Hadd Hq.
  assert (UrlStorage.isDuplicateUrl (UrlStorage.urls (store w)) u = false) as Hd.
  { destruct (UrlStorage.isDuplicateUrl (UrlStorage.urls (store w)) u) eqn:E; [|reflexivity].
    rewrite UrlStorage_addUrl_skips_duplicate in Hadd;
      [discriminate | exact Hi | now rewrite isDuplicateUrl_trim]. }
  destruct (addUrl_run w u who c th mid murl Hi Hd)
    as (w1' & Hrun & Hst & Hfiles & _ & _ & Henv & _).
  rewrite Hadd in Hrun.
  destruct (hd false (faults (disk w))); [discriminate|].
  inversion Hrun; subst w1'; clear Hrun.
  match type of Hst with _ = UrlStorage.mkStorage ?m _ _ => set (m' := m) in * end.
  assert (NoDup (map fst m')) as Hnd' by (now apply Map_set_keys_distinct).
  destruct (init_reads_written (set_store UrlStorage.new w1) id m') as (w2 & Hinit & Hurls & Hi2).
  - simp_run. now rewrite Henv.
  - exact Hne.
  - reflexivity.
  - exact Hq.
  - simp_run. rewrite Hfiles, <- Hfile. apply file_at_put_file.
  - exact Hnd'.
  - exists w2. split; [exact Hinit|]. split; [exact Hi2|].
    rewrite Hurls, Hst. cbn [UrlStorage.urls].
    pose proof (fromEntries_perm m' Hnd') as Hperm.
    split.
    + intros k. symmetry. apply Map_get_perm; [exact Hnd' | now symmetry].
    + rewrite (isDuplicateUrl_perm _ _ u Hperm).
      destruct (UrlStorage.isDuplicateUrl m' u) eqn:E; [reflexivity|].
      apply find_in_channels_none in E. subst m'.
      rewrite find_added in E; [discriminate | exact Hd |].
      unfold UrlStorage.same_url. cbn [UrlStorage.url].
      rewrite trim_idempotent. apply jsstring_eqb_refl.
Qed.

Lemma UrlStorage_restart_remembers_added_url_witness :
  let e := UrlStorage.mkEntry other_url (Str (str "bob")) Undefined Undefined
             (Str (str "c1")) Null (Str (str "m3")) Undefined 9000 in
  let w1 := snd (UrlStorage.addUrl other_url (Str (str "bob")) (str "c1") Null
                   (Str (str "m3")) Undefined sample_storage_world) in
  exists w2,
    UrlStorage.init (set_store UrlStorage.new w1) = (Ret tt, w2) /\
    UrlStorage.isInitialized (store w2) = true /\
    (forall k, UrlStorage.Map_get (UrlStorage.urls (store w2)) k
               = UrlStorage.Map_get (UrlStorage.urls (store w1)) k) /\
    UrlStorage.isDuplicateUrl (UrlStorage.urls (store w2)) other_url = true.
Proof.
  intros e w1.
  apply (UrlStorage_restart_remembers_added_url sample_storage_world w1 (str "c1") other_url
           (Str (str "bob")) (str "c1") Null (Str (str "m3")) Undefined e);
    try reflexivity.
  - discriminate.
  - vm_compute. constructor; [intros [H|[]]; discriminate|].
    constructor; [intros []|constructor].
Defined.

(** ** The tracker over the storage: a post and the posts after it *)

Section Steps.
Context {S A B : Type}.

Lemma bind_Ret (m : M S A) (k : A -> M S B) (s s' : S) (a : A) :
  m s = (Ret a, s') -> bind m k s = k a s'.
Proof. intros H. unfold bind. now rewrite H. Qed.

Lemma bind_Throw (m : M S A) (k : A -> M S B) (s s' : S) (e : exn) :
  m s = (Throw e, s') -> bind m k s = (Throw e, s').
Proof. intros H. unfold bind. now rewrite H. Qed.

End Steps.

Section TrackerSteps.
Import UrlStorage UrlTracker.

Lemma findUrlHistory_not_found (w : W) (u : jsstring) :
  isInitialized (store w) = true ->
  isDuplicateUrl (urls (store w)) u = false ->
  findUrlHistory u w = (Ret None, set_log (log w ++ [(NoHistory u, INFO)]) w).
Proof.
  intros Hi Hd. unfold findUrlHistory, logWithTimestamp. unfold_eff.
  now rewrite Hi, (proj1 (find_in_channels_none _ _) Hd).
Qed.

(** One round of the loop over a storage that is not initialised. *)
Lemma check_url_uninitialised (w : W) (m : Message) (u : jsstring) :
  isInitialized (store w) = false ->
  check_url m u w =
  (Ret NEW,
   set_log (log w ++ [(CheckingUrl u, INFO); (StorageNotInitialized, ERROR);
                      (StorageNotInitialized, ERROR);
                      (AddedNewEntry u (author_id m), INFO)]) w).
Proof.
  intros Hi.
  unfold check_url, addNewUrlEntry, findUrlHistory, addUrl, logWithTimestamp. unfold_eff.
  rewrite Hi. simp_run. rewrite Hi. simp_run.
  rewrite !set_log_set_log, <- !app_assoc. reflexivity.
Qed.

End TrackerSteps.

(** X27.  Over a storage that is not initialised the tracker of
    urlTracker.js reports every URL as new and stores none: for each
    URL of the message [handleUrlMessage] takes the branch "New URL",
    logs 'Added new URL entry' for it, and leaves the map, the files
    and the chat as they were; no reply is sent and no message is
    fetched, whoever posted the URL before. *)
Theorem uninitialised_storage_reports_new_and_stores_nothing
    (w : UrlStorage.W) (m : Message) (urls : list jsstring) :
  UrlStorage.isInitialized (store w) = false ->
  exists w',
    UrlTracker.handleUrlMessage m urls w = (Ret (map (fun _ => UrlTracker.NEW) urls), w') /\
    store w' = store w /\ disk w' = disk w /\ chat w' = chat w /\
    (forall u, In u urls -> In (AddedNewEntry u (author_id m), INFO) (log w')) /\
    (forall l, log w' = log w ++ l ->
               forall e, ~ In (ErrorHandlingUrlMessage e, ERROR) l).
Proof.
  intros Hi. unfold UrlTracker.handleUrlMessage.
  assert (forall lg,
             exists ext,
               for_of urls (UrlTracker.check_url m) (set_log (log w ++ lg) w)
               = ((map (fun _ => UrlTracker.NEW) urls, None),
                  set_log (log w ++ lg ++ ext) w) /\
               (forall u, In u urls -> In (AddedNewEntry u (author_id m), INFO) ext) /\
               (forall e, ~ In (ErrorHandlingUrlMessage e, ERROR) ext)) as Hloop.
  { induction urls as [|u r IH]; intros lg; cbn [for_of map].
    - exists []. rewrite app_nil_r. split; [reflexivity|]. split; intros ? [].
    - rewrite check_url_uninitialised by exact Hi.
      rewrite set_log_set_log. simp_run. rewrite <- app_assoc.
      destruct (IH (lg ++ [(CheckingUrl u, INFO); (StorageNotInitialized, ERROR);
                           (StorageNotInitialized, ERROR);
                           (AddedNewEntry u (author_id m), INFO)]))
        as (ext & -> & Hadded & Herr).
      exists ([(CheckingUrl u, INFO); (StorageNotInitialized, ERROR);
               (StorageNotInitialized, ERROR);
               (AddedNewEntry u (author_id m), INFO)] ++ ext).
      rewrite <- !app_assoc. split; [reflexivity|]. split.
      + intros v [<-|Hv]; apply in_or_app; [left | right; now apply Hadded].
        cbn. tauto.
      + intros e He. apply in_app_or in He as [He|He]; [|now apply (Herr e)].
        cbn in He. intuition discriminate. }
  destruct (Hloop []) as (ext & Hrun & Hadded & Herr).
  assert (set_log (log w ++ []) w = w) as Hw by (rewrite app_nil_r; now destruct w).
  rewrite Hw in Hrun. rewrite Hrun. cbn [app].
  eexists. split; [reflexivity|]. simp_run.
  do 3 (split; [reflexivity|]). split.
  - intros u Hu. apply in_or_app. right. now apply Hadded.
  - intros l Hl e. apply app_inv_head in Hl. subst l. apply Herr.
Qed.

Lemma uninitialised_storage_reports_new_and_stores_nothing_witness :
  exists w',
    UrlTracker.handleUrlMessage (post_in "eve" "c1") [str "https://b.io"; the_url]
      unloaded_storage_world
      = (Ret (map (fun _ => UrlTracker.NEW) [str "https://b.io"; the_url]), w') /\
    store w' = store unloaded_storage_world /\
    disk w' = disk unloaded_storage_world /\
    chat w' = chat unloaded_storage_world /\
    (forall u, In u [str "https://b.io"; the_url] ->
               In (AddedNewEntry u (author_id (post_in "eve" "c1")), INFO) (log w')) /\
    (forall l, log w' = log unloaded_storage_world ++ l ->
               forall e, ~ In (ErrorHandlingUrlMessage e, ERROR) l).
Proof.
  apply (uninitialised_storage_reports_new_and_stores_nothing unloaded_storage_world
           (post_in "eve" "c1") [str "https://b.io"; the_url]).
  reflexivity.
Defined.

(** X28.  The main path of urlTracker.js: in an initialised storage
    that does not hold the URL, with the file written and the reply
    delivered, the first post of the URL takes the branch "New URL" and
    is recorded with its poster, its channel and the link to its
    message; while that message can be fetched, a post of the URL by
    another user takes the branch "Different author": it is answered
    with the notice that links to the first message, and the map stays
    as the first post left it. *)
Theorem first_post_then_repost_by_another_user
    (w : UrlStorage.W) (m m' : Message) (u : jsstring) (ch : Channel) :
  UrlStorage.isInitialized (store w) = true ->
  UrlStorage.isDuplicateUrl (UrlStorage.urls (store w)) u = false ->
  hd false (faults (disk w)) = false ->
  send_faults (chat w) = [] ->
  channels_fetch (chat w) (Str (msg_channelId m)) = ChannelFound ch ->
  messages_fetch (chat w) (Str (msg_channelId m)) (Str (msg_id m)) = MessageFound ->
  author_id m' <> author_id m ->
  exists w1 w2,
    UrlTracker.check_url m u w = (Ret UrlTracker.NEW, w1) /\
    fst (UrlStorage.findUrlHistory u w1)
      = Ret (Some (UrlStorage.mkEntry (trim u) (Str (author_id m)) Undefined Undefined
                     (Str (msg_channelId m))
                     (if channel_isThread m then Str (msg_channelId m) else Null)
                     (Str (msg_id m))
                     (Str (str "https://discord.com/channels/" ++ guild_id m ++ str "/"
                           ++ msg_channelId m ++ str "/" ++ msg_id m))
                     (clock w))) /\
    UrlTracker.check_url m' u w1 = (Ret UrlTracker.BLOCKED_OTHER_USER, w2) /\
    replies (chat w2)
      = replies (chat w)
        ++ [(msg_id m',
             OthersContentEmbed
               (str "https://discord.com/channels/" ++ guild_id m ++ str "/"
                ++ msg_channelId m ++ str "/" ++ msg_id m))] /\
    store w2 = store w1.
Proof.
  intros Hi Hd Hq Hs Hch Hmsg Hother.
  set (link := str "https://discord.com/channels/" ++ guild_id m ++ str "/"
               ++ msg_channelId m ++ str "/" ++ msg_id m).
  set (e := UrlStorage.mkEntry (trim u) (Str (author_id m)) Undefined Undefined
              (Str (msg_channelId m))
              (if channel_isThread m then Str (msg_channelId m) else Null)
              (Str (msg_id m)) (Str link) (clock w)).
  (* the first post *)
  set (wa := set_log (log w ++ [(CheckingUrl u, INFO)]) w).
  set (wb := set_log (log wa ++ [(NoHistory u, INFO)]) wa).
  destruct (addUrl_run wb u (Str (author_id m)) (msg_channelId m)
              (if channel_isThread m then Str (msg_channelId m) else Null)
              (Str (msg_id m)) (Str link) Hi Hd)
    as (wc & Hadd & Hst & _ & _ & Hchat & Henv & _).
  assert (hd false (faults (disk wb)) = false) as Hqb by exact Hq.
  rewrite Hqb in Hadd.
  match type of Hadd with
  | _ = (Ret (Some ?x), _) =>
      assert (x = e) as He by (subst e; now destruct (channel_isThread m))
  end.
  rewrite He in Hadd, Hst.
  set (w1 := set_log (log wc ++ [(AddedNewEntry u (author_id m), INFO)]) wc).
  assert (UrlTracker.check_url m u w = (Ret UrlTracker.NEW, w1)) as Hfirst.
  { unfold UrlTracker.check_url.
    rewrite (bind_Ret _ _ w wa tt) by reflexivity.
    rewrite (bind_Ret _ _ wa wb None) by (now apply findUrlHistory_not_found).
    unfold UrlTracker.addNewUrlEntry. fold link.
    rewrite (bind_Ret _ _ wb w1 tt); [reflexivity|].
    rewrite (bind_Ret _ _ wb wc (Some e)) by exact Hadd.
    reflexivity. }
  (* what the storage holds then *)
  assert (UrlStorage.isInitialized (store w1) = true) as Hi1
    by (subst w1; simp_run; now rewrite Hst).
  assert (forall lg,
             UrlStorage.find_in_channels (UrlStorage.urls (store (set_log lg w1))) u
             = Some (msg_channelId m, e)) as Hfound.
  { intros lg. subst w1. simp_run. rewrite Hst. cbn [UrlStorage.urls].
    apply find_added; [exact Hd|].
    unfold UrlStorage.same_url. subst e. cbn [UrlStorage.url].
    rewrite trim_idempotent. apply jsstring_eqb_refl. }
  (* the second post *)
  set (wd := set_log (log w1 ++ [(CheckingUrl u, INFO)]) w1).
  set (we := set_log (log wd ++ [(HistoryFound u (msg_channelId m), INFO)]) wd).
  set (wf := set_log (log we ++ [(FoundExisting u (Str (author_id m)), INFO)]) we).
  assert (chat wf = chat w) as Hchatf by (subst wf we wd w1; simp_run; exact Hchat).
  assert (exists w2,
             UrlTracker.check_url m' u w1 = (Ret UrlTracker.BLOCKED_OTHER_USER, w2) /\
             replies (chat w2) = replies (chat w) ++ [(msg_id m', OthersContentEmbed link)] /\
             store w2 = store w1) as (w2 & Hsecond & Hreplies & Hstore).
  { unfold UrlTracker.check_url.
    rewrite (bind_Ret _ _ w1 wd tt) by reflexivity.
    rewrite (bind_Ret _ _ wd we (Some e)).
    2:{ rewrite (findUrlHistory_found wd u (msg_channelId m) e); [reflexivity | exact Hi1 |].
        apply (Hfound (log w1 ++ [(CheckingUrl u, INFO)])). }
    rewrite (bind_Ret _ _ we wf tt) by reflexivity.
    cbn [UrlStorage.userId UrlStorage.channelId UrlStorage.messageId UrlStorage.messageUrl e].
    rewrite (bind_Ret _ _ wf wf (Some ch)).
    2:{ unfold UrlTracker.client_channels_fetch. unfold_eff. now rewrite Hchatf, Hch. }
    rewrite (bind_Ret _ _ wf wf true).
    2:{ unfold UrlTracker.channel_messages_fetch. unfold_eff. now rewrite Hchatf, Hmsg. }
    assert (jsval_eqb (Str (author_id m)) (Str (author_id m')) = false) as ->.
    { cbn [jsval_eqb]. apply jsstring_eqb_neq. congruence. }
    cbn [negb].
    unfold message_reply, logWithTimestamp. unfold_eff.
    rewrite Hchatf, Hs. cbn [take_fault]. simp_run.
    eexists. split; [reflexivity|]. simp_run. cbn [replies].
    split; reflexivity. }
  exists w1, w2. split; [exact Hfirst|]. split.
  - rewrite (findUrlHistory_found w1 u (msg_channelId m) e Hi1); [reflexivity|].
    assert (set_log (log w1) w1 = w1) as Hw by (now destruct w1).
    rewrite <- Hw. apply Hfound.
  - split; [exact Hsecond|]. split; [exact Hreplies | exact Hstore].
Qed.

Lemma first_post_then_repost_by_another_user_witness :
  exists w1 w2,
    UrlTracker.check_url (post_by "bob") other_url live_storage_world
      = (Ret UrlTracker.NEW, w1) /\
    fst (UrlStorage.findUrlHistory other_url w1)
      = Ret (Some (UrlStorage.mkEntry (trim other_url) (Str (author_id (post_by "bob")))
                     Undefined Undefined (Str (msg_channelId (post_by "bob")))
                     (if channel_isThread (post_by "bob")
                      then Str (msg_channelId (post_by "bob")) else Null)
                     (Str (msg_id (post_by "bob")))
                     (Str (str "https://discord.com/channels/" ++ guild_id (post_by "bob")
                           ++ str "/" ++ msg_channelId (post_by "bob") ++ str "/"
                           ++ msg_id (post_by "bob")))
                     (clock live_storage_world))) /\
    UrlTracker.check_url (post_in "eve" "c2") other_url w1
      = (Ret UrlTracker.BLOCKED_OTHER_USER, w2) /\
    replies (chat w2)
      = replies (chat live_storage_world)
        ++ [(msg_id (post_in "eve" "c2"),
             OthersContentEmbed
               (str "https://discord.com/channels/" ++ guild_id (post_by "bob") ++ str "/"
                ++ msg_channelId (post_by "bob") ++ str "/" ++ msg_id (post_by "bob")))] /\
    store w2 = store w1.
Proof.
  apply (first_post_then_repost_by_another_user live_storage_world (post_by "bob")
           (post_in "eve" "c2") other_url (TextChannel None));
    try reflexivity.
  vm_compute. discriminate.
Defined.

(** ** The older tracker: the channel scan and the storage *)

Section Scan.
Import UrlStorage UrlTracker.

Lemma filter_indexed_In {A : Type} (keep : A -> nat -> bool) (from : nat) (l : list A)
    (x : A) :
  In x (filter_indexed keep from l) -> In x l.
Proof.
  revert from. induction l as [|y r IH]; intros from; cbn [filter_indexed]; [tauto|].
  destruct (keep y from).
  - intros [->|H]; [now left | right; now apply (IH (S from))].
  - intros H. right. now apply (IH (S from)).
Qed.

Lemma urls_of_messages_match (messages : list Message) (thread : jsval) (e : UrlEntry) :
  In e (urls_of_messages messages thread) ->
  exists message, In message messages /\
                  In (url e) (UrlRegex.matches false (msg_content message)).
Proof.
  unfold urls_of_messages. intros H.
  apply in_flat_map in H as (message & Hm & He).
  apply in_map_iff in He as (u & <- & Hu).
  exists message. now split.
Qed.

Lemma urls_of_threads_match (threads : list Thread) (l : list UrlEntry) (e : UrlEntry) :
  urls_of_threads threads = Some l ->
  In e l ->
  exists text, In (url e) (UrlRegex.matches false text).
Proof.
  revert l. induction threads as [|th r IH]; cbn [urls_of_threads]; intros l H Hin.
  - inversion H; subst. contradiction.
  - destruct (thread_messages th) as [messages|]; [|discriminate].
    destruct (urls_of_threads r) as [rest|]; [|discriminate].
    inversion H; subst. apply in_app_or in Hin as [Hin|Hin].
    + apply urls_of_messages_match in Hin as (message & _ & Hu).
      exists (msg_content message). exact Hu.
    + now apply (IH rest).
Qed.

(** The channel scan returns, changes only the log, and yields entries
    with distinct urls, each a match of the pattern. *)
Lemma fetchAllUrlsFromChannel_run (w : W) (c : jsstring) :
  exists l lg,
    fetchAllUrlsFromChannel c w = (Ret l, set_log lg w) /\
    NoDup (map url l) /\
    forall e, In e l -> exists text, In (url e) (UrlRegex.matches false text).
Proof.
  unfold fetchAllUrlsFromChannel, client_channels_fetch, logWithTimestamp. unfold_eff.
  destruct (channels_fetch (chat w) (Str c)) as [ch| | |]; simp_run;
    try (do 2 eexists; split; [reflexivity|]; split; [constructor | intros e []]).
  destruct ch as [[threads|]|[messages|]]; simp_run;
    try (do 2 eexists; split; [reflexivity|]; split; [constructor | intros e []]).
  - destruct (urls_of_threads threads) as [l|] eqn:Hl; simp_run;
      (do 2 eexists; split; [reflexivity|]); (split; [try apply unique_urls_NoDup; try constructor|]).
    + intros e He. apply filter_indexed_In in He.
      now apply (urls_of_threads_match threads l).
    + intros e [].
  - do 2 eexists. split; [reflexivity|]. split; [apply unique_urls_NoDup|].
    intros e He. apply filter_indexed_In in He.
    apply urls_of_messages_match in He as (message & _ & Hu).
    exists (msg_content message). exact Hu.
Qed.

Lemma saveUrls_returns (w : W) (c : jsstring) (newUrls : list UrlEntry) :
  exists n w', saveUrls c newUrls w = (Ret n, w').
Proof.
  destruct (isInitialized (store w)) eqn:Hi.
  - destruct (saveUrls_run w c newUrls Hi) as (w' & Hrun & _).
    do 2 eexists. exact Hrun.
  - unfold saveUrls, logWithTimestamp. unfold_eff. rewrite Hi. simp_run.
    do 2 eexists. reflexivity.
Qed.

End Scan.

(** X29.  [syncWithStorage] keeps one record per URL: the channel scan
    yields each url once and no match of the pattern holds white
    space, so what it hands to [saveUrls] has pairwise distinct trimmed
    urls; from a storage with at most one entry per trimmed URL the
    call returns, whatever the chat and the file system answer, with a
    storage that has at most one entry per trimmed URL. *)
Theorem syncWithStorage_keeps_one_record_per_url (w : UrlStorage.W) (c : jsstring) :
  UrlStorage.one_per_url (UrlStorage.urls (store w)) ->
  exists w',
    SyncTracker.syncWithStorage c w = (Ret tt, w') /\
    UrlStorage.one_per_url (UrlStorage.urls (store w')).
Proof.
  intros Hone.
  destruct (fetchAllUrlsFromChannel_run w c) as (l & lg & Hscan & Hnd & Hmatch).
  assert (NoDup (map UrlStorage.canonical l)) as Hdistinct.
  { assert (map UrlStorage.canonical l = map UrlStorage.url l) as ->; [|exact Hnd].
    apply map_ext_in. intros e He. destruct (Hmatch e He) as (text & Hu).
    unfold UrlStorage.canonical. now apply (matches_trim false text). }
  unfold SyncTracker.syncWithStorage, try_catch.
  rewrite (bind_Ret _ _ w (set_log lg w) l Hscan).
  destruct (Nat.ltb 0 (List.length l)).
  - pose proof (saveUrls_one_per_url (set_log lg w) c l Hdistinct Hone) as Hsaved.
    destruct (saveUrls_returns (set_log lg w) c l) as (n & w1 & Hsave).
    rewrite Hsave in Hsaved. cbn [snd] in Hsaved.
    rewrite (bind_Ret _ _ _ w1 n Hsave).
    unfold logWithTimestamp, modify.
    eexists. split; [reflexivity|]. exact Hsaved.
  - unfold ret. eexists. split; [reflexivity|]. exact Hone.
Qed.

Lemma syncWithStorage_keeps_one_record_per_url_witness :
  exists w',
    SyncTracker.syncWithStorage (str "c1") scanned_storage_world = (Ret tt, w') /\
    UrlStorage.one_per_url (UrlStorage.urls (store w')).
Proof.
  apply (syncWithStorage_keeps_one_record_per_url scanned_storage_world (str "c1")).
  unfold UrlStorage.one_per_url. vm_compute.
  constructor; [intros [H|[]]; discriminate|].
  constructor; [intros []|constructor].
Defined.

Section OlderTracker.
Import UrlStorage.

Lemma for_of_preserves {S A B : Type} (related : S -> S -> Prop) (body : A -> M S B) :
  (forall s, related s s) ->
  (forall a b c, related a b -> related b c -> related a c) ->
  (forall x s, related s (snd (body x s))) ->
  forall xs s, related s (snd (for_of xs body s)).
Proof.
  intros Hrefl Htrans Hbody xs.
  induction xs as [|x r IH]; intros s; cbn [for_of snd]; [apply Hrefl|].
  pose proof (Hbody x s) as Hstep.
  destruct (body x s) as [[b|e] s1]; cbn [snd] in *; [|exact Hstep].
  pose proof (IH s1) as Hrest.
  destruct (for_of r body s1) as [[bs e] s2]. cbn [snd] in *.
  now apply (Htrans s s1 s2).
Qed.

(** A round of the older tracker leaves the map as it is or without
    one entry. *)
Lemma SyncTracker_check_url_urls (w : W) (m : Message) (u : jsstring) :
  urls (store (snd (SyncTracker.check_url m u w))) = urls (store w) \/
  splice_first (urls (store w)) u
  = Some (urls (store (snd (SyncTracker.check_url m u w)))).
Proof.
  unfold SyncTracker.check_url.
  unfold logWithTimestamp, UrlTracker.channel_messages_fetch, message_reply. unfold_eff.
  match goal with
  | |- context [findUrlHistory u ?x] =>
      destruct (findUrlHistory_frame x u) as (r & l & ->)
  end.
  simp_run.
  destruct r as [existing|]; simp_run; [|now left].
  destruct (negb (jsval_eqb (author existing) (Str (author_tag m)))); simp_run.
  { destruct (take_fault (send_faults (chat w))) as [[] rest]; simp_run; now left. }
  destruct (negb (jsval_eqb (channelId existing) (Str (msg_channelId m)))); simp_run.
  { destruct (take_fault (send_faults (chat w))) as [[] rest]; simp_run; now left. }
  assert (forall x : W,
             urls (store x) = urls (store w) ->
             urls (store (snd (let (r0, s') := deleteUrl u x in
                               match r0 with
                               | Ret _ =>
                                   (Ret SyncTracker.STALE_DELETED,
                                    set_log (log s' ++ [(DeletedStaleEntry u, INFO)]) s')
                               | Throw e => (Throw e, s')
                               end))) = urls (store w) \/
             splice_first (urls (store w)) u
             = Some (urls (store (snd (let (r0, s') := deleteUrl u x in
                                       match r0 with
                                       | Ret _ =>
                                           (Ret SyncTracker.STALE_DELETED,
                                            set_log (log s' ++ [(DeletedStaleEntry u, INFO)]) s')
                                       | Throw e => (Throw e, s')
                                       end))))) as Hdelete.
  { intros x Hx. pose proof (deleteUrl_urls x u) as Hd. rewrite Hx in Hd.
    destruct (deleteUrl u x) as [[b|e] s']; exact Hd. }
  destruct (messages_fetch (chat w) (Str (msg_channelId m)) (messageId existing)); simp_run.
  - destruct (take_fault (send_faults (chat w))) as [[] rest]; simp_run; now left.
  - now apply Hdelete.
  - now apply Hdelete.
Qed.

Lemma deleteUrl_chat (w : W) (u : jsstring) : chat (snd (deleteUrl u w)) = chat w.
Proof.
  unfold deleteUrl, write_urls, set_urls, fs_writeFile, logWithTimestamp. unfold_eff.
  destruct (isInitialized (store w)); simp_run; [|reflexivity].
  destruct (splice_first (urls (store w)) u) as [m1|]; simp_run; [|reflexivity].
  destruct (take_fault (faults (disk w))) as [[] rest]; reflexivity.
Qed.

(** A round of the older tracker does not change how the chat answers
    a message fetch, and it leaves the map as it is when every message
    fetch finds its message. *)
Lemma SyncTracker_check_url_found (w : W) (m : Message) (u : jsstring) :
  messages_fetch (chat (snd (SyncTracker.check_url m u w))) = messages_fetch (chat w) /\
  ((forall c mid, messages_fetch (chat w) c mid = MessageFound) ->
   urls (store (snd (SyncTracker.check_url m u w))) = urls (store w)).
Proof.
  unfold SyncTracker.check_url.
  unfold logWithTimestamp, UrlTracker.channel_messages_fetch, message_reply. unfold_eff.
  match goal with
  | |- context [findUrlHistory u ?x] =>
      destruct (findUrlHistory_frame x u) as (r & l & ->)
  end.
  simp_run.
  destruct r as [existing|]; simp_run; [|now split].
  destruct (negb (jsval_eqb (author existing) (Str (author_tag m)))); simp_run.
  { destruct (take_fault (send_faults (chat w))) as [[] rest]; simp_run; now split. }
  destruct (negb (jsval_eqb (channelId existing) (Str (msg_channelId m)))); simp_run.
  { destruct (take_fault (send_faults (chat w))) as [[] rest]; simp_run; now split. }
  assert (forall x : W,
             chat x = chat w ->
             messages_fetch
               (chat (snd (let (r0, s') := deleteUrl u x in
                           match r0 with
                           | Ret _ =>
                               (Ret SyncTracker.STALE_DELETED,
                                set_log (log s' ++ [(DeletedStaleEntry u, INFO)]) s')
                           | Throw e => (Throw e, s')
                           end)))
             = messages_fetch (chat w)) as Hdelete.
  { intros x Hx. pose proof (deleteUrl_chat x u) as Hc.
    destruct (deleteUrl u x) as [[b|e] s']; cbn [snd] in *; simp_run; congruence. }
  destruct (messages_fetch (chat w) (Str (msg_channelId m)) (messageId existing)) eqn:Hfetch;
    simp_run.
  - destruct (take_fault (send_faults (chat w))) as [[] rest]; simp_run; now split.
  - split; [now apply Hdelete|].
    intros Hall. rewrite Hall in Hfetch. discriminate.
  - split; [now apply Hdelete|].
    intros Hall. rewrite Hall in Hfetch. discriminate.
Qed.

End OlderTracker.

(** X30.  The older tracker never records a post: its
    [handleUrlMessage] returns for every message, and every entry the
    map holds afterwards is an entry it held before, under the same
    channels; a URL that was no duplicate before the message is none
    after it, so a URL first seen in a message is never blocked later
    on account of that message.  When every message fetch finds its
    message, the map is left as it was. *)
Theorem older_tracker_never_records_a_post
    (w : UrlStorage.W) (m : Message) (urls : list jsstring) :
  exists outs w',
    SyncTracker.handleUrlMessage m urls w = (Ret outs, w') /\
    (forall e, In e (UrlStorage.all_entries (UrlStorage.urls (store w'))) ->
               In e (UrlStorage.all_entries (UrlStorage.urls (store w)))) /\
    map fst (UrlStorage.urls (store w')) = map fst (UrlStorage.urls (store w)) /\
    (forall u, UrlStorage.isDuplicateUrl (UrlStorage.urls (store w)) u = false ->
               UrlStorage.isDuplicateUrl (UrlStorage.urls (store w')) u = false) /\
    ((forall c mid, messages_fetch (chat w) c mid = MessageFound) ->
     UrlStorage.urls (store w') = UrlStorage.urls (store w)).
Proof.
  pose proof
    (for_of_preserves
       (fun a b : UrlStorage.W =>
          messages_fetch (chat b) = messages_fetch (chat a) /\
          ((forall c mid, messages_fetch (chat a) c mid = MessageFound) ->
           UrlStorage.urls (store b) = UrlStorage.urls (store a)))
       (SyncTracker.check_url m)
       (fun s => conj eq_refl (fun _ => eq_refl))) as Hkept.
  cbv beta in Hkept.
  assert (messages_fetch (chat (snd (for_of urls (SyncTracker.check_url m) w)))
          = messages_fetch (chat w) /\
          ((forall c mid, messages_fetch (chat w) c mid = MessageFound) ->
           UrlStorage.urls (store (snd (for_of urls (SyncTracker.check_url m) w)))
           = UrlStorage.urls (store w))) as Hfound.
  { apply Hkept.
    - intros a b c [Hab Kab] [Hbc Kbc]. split; [congruence|].
      intros Hall. rewrite Kbc, Kab; [reflexivity | exact Hall |].
      intros c0 mid. rewrite Hab. apply Hall.
    - intros u s. apply SyncTracker_check_url_found. }
  clear Hkept.
  pose proof
    (for_of_preserves
       (fun a b : UrlStorage.W =>
          (forall e, In e (UrlStorage.all_entries (UrlStorage.urls (store b))) ->
                     In e (UrlStorage.all_entries (UrlStorage.urls (store a)))) /\
          map fst (UrlStorage.urls (store b)) = map fst (UrlStorage.urls (store a)))
       (SyncTracker.check_url m)) as Hloop.
  cbv beta in Hloop.
  specialize (Hloop (fun s => conj (fun e H => H) eq_refl)).
  assert (forall w0 : UrlStorage.W,
             (forall e, In e (UrlStorage.all_entries (UrlStorage.urls (store w0))) ->
                        In e (UrlStorage.all_entries (UrlStorage.urls (store w)))) /\
             map fst (UrlStorage.urls (store w0)) = map fst (UrlStorage.urls (store w)) ->
             forall u, UrlStorage.isDuplicateUrl (UrlStorage.urls (store w)) u = false ->
                       UrlStorage.isDuplicateUrl (UrlStorage.urls (store w0)) u = false)
    as Hdup.
  { intros w0 [Hsub _] u Hu.
    rewrite isDuplicateUrl_all_entries in *.
    destruct (existsb (UrlStorage.same_url u) (UrlStorage.all_entries
                                                 (UrlStorage.urls (store w0)))) eqn:E;
      [|reflexivity].
    apply existsb_exists in E as (e & He & Hp).
    assert (existsb (UrlStorage.same_url u)
              (UrlStorage.all_entries (UrlStorage.urls (store w))) = true) as Hex
      by (apply existsb_exists; exists e; split; [now apply Hsub | exact Hp]).
    congruence. }
  assert (forall s : UrlStorage.W,
             (forall e, In e (UrlStorage.all_entries
                                (UrlStorage.urls (store (snd (for_of urls
                                                                (SyncTracker.check_url m) s))))) ->
                        In e (UrlStorage.all_entries (UrlStorage.urls (store s)))) /\
             map fst (UrlStorage.urls (store (snd (for_of urls (SyncTracker.check_url m) s))))
             = map fst (UrlStorage.urls (store s))) as Hrun.
  { apply Hloop.
    - intros a b c [Hab Kab] [Hbc Kbc]. split; [auto | congruence].
    - intros u s.
      destruct (SyncTracker_check_url_urls s m u) as [->|Hs];
        [split; [auto | reflexivity]|].
      apply splice_first_removed in Hs as (Hk & l1 & x & l2 & -> & -> & _).
      split; [|exact Hk].
      intros e He. apply in_app_or in He as [He|He]; apply in_or_app;
        [now left | right; now right]. }
  specialize (Hrun w).
  unfold SyncTracker.handleUrlMessage.
  destruct (for_of urls (SyncTracker.check_url m) w) as [[outs [error|]] w'];
    cbn [snd] in Hrun, Hfound; do 2 eexists; (split; [reflexivity|]); simp_run;
    (split; [exact (proj1 Hrun)|]); (split; [exact (proj2 Hrun)|]);
    (split; [now apply Hdup | exact (proj2 Hfound)]).
Qed.
